(** * ClusterSynchro: a shallow embedding of
    [pkg/synchromanager/clustersynchro/cluster_synchro.go] and of the storage
    package's error marker.

    Go maps and [sync.Map] are finite maps ([gmap]); a nil slice, map or
    pointer is [None]; channels carrying [struct{}] are a capacity, a number
    of buffered elements and a closed flag; goroutines are the labels of a
    transition system over the fields of the [ClusterSynchro] struct.  Calls
    into collaborators that live outside this file of the package (the
    negotiator, the group/resource status, the storage factory, the synchro
    factory, the status updater) are fields of a [World] record or are
    modelled from the design document, and every such call is appended to a
    trace.

    Left out: logging, the metrics registration and the discovery [Prepare]
    call in [New], and the locks ([runnerLock], [EnableConcurrent],
    [DisableConcurrent]: a refresh is one step here).  The runner with
    [startRunner] and [stopRunner], [GetMetricsWriterList] and the report of
    the goroutine [Shutdown] spawns come after the transition system, with
    the channels of the runner held in a store of their own. *)

From stdpp Require Import gmap strings list fin_maps.

Set Default Proof Using "Type".
Local Open Scope string_scope.
Local Open Scope list_scope.

(** ** Go [error] interface values *)

(** An interface value is nil or holds a value of some concrete type.  The
    concrete types that matter here are [*fmt.wrapError] (built by
    [fmt.Errorf] with the [%w] verb) and the storage package's
    [storageRecoverableExceptionError] struct; every other type is
    [opaqueError], identified by its type name and its message. *)
Inductive error : Type :=
| nilError
| opaqueError (typeName msg : string)
| wrapError (msg : string) (err : error)
| storageRecoverableExceptionError (err : error).

#[global] Instance error_eq_dec : EqDecision error.
Proof. solve_decision. Defined.

(** The [Error() string] method.  [storageRecoverableExceptionError] embeds
    an [error], so the method is promoted from the embedded value; calling it
    through a nil interface is a nil dereference, rendered as [None]. *)
Fixpoint Error (e : error) : option string :=
  match e with
  | nilError => None
  | opaqueError _ msg => Some msg
  | wrapError msg _ => Some msg
  | storageRecoverableExceptionError err => Error err
  end.

(** How [fmt] prints an error operand under [%s], [%w]: the [Error()] text;
    [fmt] recovers from a panicking method and prints a marker instead. *)
Definition fmt_verb (e : error) : string :=
  match Error e with
  | Some msg => msg
  | None => "%!v(PANIC=Error method: runtime error: invalid memory address or nil pointer dereference)"
  end.

(** [fmt.Errorf(prefix + ": %w", err)] *)
Definition fmt_Errorf (prefix : string) (err : error) : error :=
  wrapError (prefix +:+ ": " +:+ fmt_verb err) err.

(** [fmt.Sprintf(prefix + ": %s", err)] *)
Definition fmt_Sprintf (prefix : string) (err : error) : string :=
  prefix +:+ ": " +:+ fmt_verb err.

(** [errors.Unwrap] *)
Definition Unwrap (e : error) : error :=
  match e with
  | wrapError _ err => err
  | _ => nilError
  end.

(** ** [schema.GroupVersionResource] *)

Record GroupVersionResource : Type := GVR {
  Group : string;
  Version : string;
  Resource : string
}.

#[global] Instance GroupVersionResource_eq_dec : EqDecision GroupVersionResource.
Proof. solve_decision. Defined.

#[global] Instance GroupVersionResource_countable : Countable GroupVersionResource.
Proof.
  refine (inj_countable' (fun g => (Group g, Version g, Resource g))
            (fun t => GVR t.1.1 t.1.2 t.2) _).
  by intros [].
Defined.

Record GroupResource : Type := GR {
  grGroup : string;
  grResource : string
}.

#[global] Instance GroupResource_eq_dec : EqDecision GroupResource.
Proof. solve_decision. Defined.

(** [GroupVersionResource.GroupResource()] *)
Definition GroupResourceOf (gvr : GroupVersionResource) : GroupResource :=
  GR (Group gvr) (Resource gvr).

(** [GroupResource.WithVersion(version)] *)
Definition WithVersion (gr : GroupResource) (version : string) : GroupVersionResource :=
  GVR (grGroup gr) version (grResource gr).

(** [GroupResource.String()]: the resource alone for the core group. *)
Definition GroupResource_String (gr : GroupResource) : string :=
  if decide (grGroup gr = "") then grResource gr
  else grResource gr +:+ "." +:+ grGroup gr.

(** ** Package [storage] (src/unnamed/part_000) *)

Module storage.

(** Watermarks are opaque values compared by equality only; a nil Go map is
    [None]. *)
Record ClusterResourceVersions : Type := {
  Resources : option (gmap string string);
  Events : option (gmap string string)
}.

Definition NewRecoverableException (err : error) : error :=
  storageRecoverableExceptionError err.

(** The type assertion [err.(storageRecoverableExceptionError)] on a
    concrete struct type holds exactly when the dynamic type of the
    interface value is that type. *)
Definition IsRecoverableException (err : error) : bool :=
  match err with
  | storageRecoverableExceptionError _ => true
  | _ => false
  end.

End storage.

Export storage.

(** ** Channels of [struct{}], [sync.Once] *)

Record Chan : Type := {
  chan_cap : nat;
  chan_len : nat;
  chan_closed : bool
}.

(** [make(chan struct{}, n)] *)
Definition make_chan (n : nat) : Chan :=
  {| chan_cap := n; chan_len := 0; chan_closed := false |}.

(** What a Go statement does: it completes with a value, it parks the
    goroutine, or it panics. *)
Inductive outcome (A : Type) : Type :=
| Next (a : A)
| Blocked
| Panic.
Arguments Next {A} a.
Arguments Blocked {A}.
Arguments Panic {A}.

(** [close(ch)]; closing a closed channel panics. *)
Definition chan_close (ch : Chan) : outcome Chan :=
  if chan_closed ch then Panic
  else Next {| chan_cap := chan_cap ch; chan_len := chan_len ch; chan_closed := true |}.

(** [select { case ch <- struct{}{}: default: }]: the send is taken when the
    buffer has room, otherwise the default branch runs and the channel is
    left as it was; a send on a closed channel panics. *)
Definition chan_try_send (ch : Chan) : outcome Chan :=
  if chan_closed ch then Panic
  else if decide (chan_len ch < chan_cap ch)
       then Next {| chan_cap := chan_cap ch; chan_len := S (chan_len ch); chan_closed := false |}
       else Next ch.

(** One iteration of [for range ch] / [<-ch]: [Next (Some ch')] when an
    element was received, [Next None] when the channel is closed and
    drained, [Blocked] otherwise. *)
Definition chan_recv (ch : Chan) : outcome (option Chan) :=
  match chan_len ch with
  | S n => Next (Some {| chan_cap := chan_cap ch; chan_len := n; chan_closed := chan_closed ch |})
  | O => if chan_closed ch then Next None else Blocked
  end.

(** [sync.Once]: not yet entered, its function running, or done. *)
Inductive Once : Type := OnceFresh | OnceRunning | OnceDone.

#[global] Instance Once_eq_dec : EqDecision Once.
Proof. solve_decision. Defined.

(** ** API types ([metav1], [clusterv1alpha2]) *)

Definition metav1_Time : Type := nat.

Record Condition : Type := {
  Type_ : string;
  Status : string;
  Reason : string;
  Message : string;
  LastTransitionTime : metav1_Time
}.

#[global] Instance Condition_eq_dec : EqDecision Condition.
Proof. solve_decision. Defined.

(** Modelled from the spec: the string constants of the API packages, which
    the sources use by name only (section 3 names the statuses Pending,
    Unknown, Syncing, Stop; section 4.7 the Running and Shutdown reasons). *)
Definition ConditionTrue : string := "True".
Definition ConditionFalse : string := "False".
Definition ConditionUnknown : string := "Unknown".
Definition SynchroRunningCondition : string := "SynchroRunning".
Definition ClusterHealthyCondition : string := "ClusterHealthy".
Definition SynchroPendingReason : string := "Pending".
Definition SynchroRunningReason : string := "Running".
Definition SynchroShutdownReason : string := "Shutdown".
Definition ClusterMonitorStopReason : string := "MonitorStop".
Definition ResourceSyncStatusPending : string := "Pending".
Definition ResourceSyncStatusUnknown : string := "Unknown".
Definition ResourceSyncStatusSyncing : string := "Syncing".
Definition ResourceSyncStatusStop : string := "Stop".

(** [clusterv1alpha2.ClusterGroupResources]: one entry of the desired set. *)
Record ClusterGroupResources : Type := {
  cgrGroup : string;
  cgrVersions : list string;
  cgrResources : list string
}.

(** Modelled from the spec: the per-version sync condition of section 3,
    "carrying status, reason, message, storageGVR, syncResource, syncVersion,
    initialListPhase, lastTransitionTime". *)
Record ClusterResourceSyncCondition : Type := {
  condVersion : string;
  condSyncVersion : string;
  condSyncResource : string;
  condStorageGVR : GroupVersionResource;
  condStatus : string;
  condReason : string;
  condMessage : string;
  condInitialListPhase : string;
  condLastTransitionTime : metav1_Time
}.

#[global] Instance ClusterResourceSyncCondition_eq_dec : EqDecision ClusterResourceSyncCondition.
Proof. solve_decision. Defined.

Record ClusterResourceStatus : Type := {
  resName : string;
  SyncConditions : list ClusterResourceSyncCondition
}.

Record ClusterGroupResourcesStatus : Type := {
  grpGroup : string;
  grpResources : list ClusterResourceStatus
}.

Record ClusterStatus : Type := {
  csVersion : string;
  Conditions : list Condition;
  SyncResources : list ClusterGroupResourcesStatus
}.

(** Modelled from the spec: [cond.StorageGVR(gr)], the storage GVR a sync
    condition refers to (section 3: the condition carries its storageGVR). *)
Definition StorageGVR (cond : ClusterResourceSyncCondition) (gr : GroupResource)
  : GroupVersionResource :=
  condStorageGVR cond.

(** ** GroupResourceStatus *)

(** Modelled from the spec: [GroupResourceStatus] and its operations are
    declared in another file of the package.  Section 2 says it "tracks
    per-(group,resource,version) sync conditions", section 4.3 gives the
    contract of [Merge], [UpdateSyncCondition], [DeleteVersion] and
    [LoadGroupResourcesStatuses], section 4.2 (step 4) the fan-out map
    [storageGVRToSyncGVRs].  Here it is the finite map from a (group,
    version, resource) triple to the condition filed under it;
    [LoadGroupResourcesStatuses] lays it out as the list of groups, each with
    resources, each with per-version conditions, of section 3. *)
Abbreviation GroupResourceStatus :=
  (gmap GroupVersionResource ClusterResourceSyncCondition).

Definition withStatus (status reason message : string)
    (c : ClusterResourceSyncCondition) : ClusterResourceSyncCondition :=
  {| condVersion := condVersion c; condSyncVersion := condSyncVersion c;
     condSyncResource := condSyncResource c; condStorageGVR := condStorageGVR c;
     condStatus := status; condReason := reason; condMessage := message;
     condInitialListPhase := condInitialListPhase c;
     condLastTransitionTime := condLastTransitionTime c |}.

(** Modelled from the spec: [UpdateSyncCondition(gvr, status, reason,
    message)] sets the three fields of the condition filed under [gvr]. *)
Definition UpdateSyncCondition (gvr : GroupVersionResource)
    (status reason message : string) (grs : GroupResourceStatus) : GroupResourceStatus :=
  alter (withStatus status reason message) gvr grs.

(** Modelled from the spec: [DeleteVersion(gvr)] drops the condition filed
    under [gvr]. *)
Definition DeleteVersion (gvr : GroupVersionResource) (grs : GroupResourceStatus)
  : GroupResourceStatus :=
  delete gvr grs.

(** Modelled from the spec: [GetStorageGVRToSyncGVRs()], the map from a
    storage GVR to the set of sync GVRs whose condition refers to it
    ("if multiple sync GVRs collapse to the same storage GVR, record all in
    storageGVRToSyncGVRs for fan-out of status updates"). *)
Definition recordSyncGVR (kc : GroupVersionResource * ClusterResourceSyncCondition)
    (m : gmap GroupVersionResource (gset GroupVersionResource))
  : gmap GroupVersionResource (gset GroupVersionResource) :=
  let storageGVR := StorageGVR kc.2 (GroupResourceOf kc.1) in
  <[storageGVR := {[kc.1]} ∪ default ∅ (m !! storageGVR)]> m.

Definition GetStorageGVRToSyncGVRs (grs : GroupResourceStatus)
  : gmap GroupVersionResource (gset GroupVersionResource) :=
  foldr recordSyncGVR ∅ (map_to_list grs).

Definition withTime (t : metav1_Time)
    (c : ClusterResourceSyncCondition) : ClusterResourceSyncCondition :=
  {| condVersion := condVersion c; condSyncVersion := condSyncVersion c;
     condSyncResource := condSyncResource c; condStorageGVR := condStorageGVR c;
     condStatus := condStatus c; condReason := condReason c; condMessage := condMessage c;
     condInitialListPhase := condInitialListPhase c;
     condLastTransitionTime := t |}.

(** Two conditions that differ at most in their transition time. *)
Definition sameButTime (c c0 : ClusterResourceSyncCondition) : bool :=
  bool_decide (withTime (condLastTransitionTime c0) c = c0).

(** Modelled from the spec: [this.Merge(previous)].  "After Merge, the new
    status carries every (group, resource, version) still present in the new
    plan, preserving historical timestamps where the triple is unchanged.
    Deleted-set contains triples present in previous and absent from this."
    The triples of the deleted set stay filed in the merged status (section
    4.7 keeps such a triple "alive in status" when its clean-up fails) until
    [DeleteVersion] drops them.  A nil [previous] merges nothing. *)
Definition Merge (this : GroupResourceStatus) (previous : option GroupResourceStatus)
  : GroupResourceStatus * gset GroupVersionResource :=
  match previous with
  | None => (this, ∅)
  | Some old =>
      let kept :=
        map_imap (fun k c =>
          match old !! k with
          | Some c0 => if sameButTime c c0 then Some c0 else Some c
          | None => Some c
          end) this in
      (kept ∪ old, dom old ∖ dom this)
  end.

Fixpoint addToResources (resource : string) (c : ClusterResourceSyncCondition)
    (rs : list ClusterResourceStatus) : list ClusterResourceStatus :=
  match rs with
  | [] => [ {| resName := resource; SyncConditions := [c] |} ]
  | r :: rs' =>
      if decide (resName r = resource)
      then {| resName := resName r; SyncConditions := SyncConditions r ++ [c] |} :: rs'
      else r :: addToResources resource c rs'
  end.

Fixpoint addToGroups (group resource : string) (c : ClusterResourceSyncCondition)
    (gs : list ClusterGroupResourcesStatus) : list ClusterGroupResourcesStatus :=
  match gs with
  | [] => [ {| grpGroup := group; grpResources := addToResources resource c [] |} ]
  | g :: gs' =>
      if decide (grpGroup g = group)
      then {| grpGroup := grpGroup g;
              grpResources := addToResources resource c (grpResources g) |} :: gs'
      else g :: addToGroups group resource c gs'
  end.

(** Modelled from the spec: [LoadGroupResourcesStatuses()] "returns a
    deep-copied snapshot": the conditions laid out by group and resource, in
    the order the map enumerates them. *)
Definition LoadGroupResourcesStatuses (grs : GroupResourceStatus)
  : list ClusterGroupResourcesStatus :=
  foldl (fun acc kc => addToGroups (Group kc.1) (Resource kc.1) kc.2 acc) []
        (map_to_list grs).

(** [statuses[si].Resources[ri].SyncConditions[vi] = f(gr, cond)] for every
    index, with [gr] the group and resource the condition is listed under. *)
Definition mapResource (group : string)
    (f : GroupResource -> ClusterResourceSyncCondition -> ClusterResourceSyncCondition)
    (r : ClusterResourceStatus) : ClusterResourceStatus :=
  {| resName := resName r;
     SyncConditions := map (f (GR group (resName r))) (SyncConditions r) |}.

Definition mapGroup
    (f : GroupResource -> ClusterResourceSyncCondition -> ClusterResourceSyncCondition)
    (g : ClusterGroupResourcesStatus) : ClusterGroupResourcesStatus :=
  {| grpGroup := grpGroup g;
     grpResources := map (mapResource (grpGroup g) f) (grpResources g) |}.

Definition mapConditions
    (f : GroupResource -> ClusterResourceSyncCondition -> ClusterResourceSyncCondition)
    (statuses : list ClusterGroupResourcesStatus) : list ClusterGroupResourcesStatus :=
  map (mapGroup f) statuses.

(** ** Collaborators of the refresh: plan entries, synchros, the world *)

(** Handles of values that are only passed along. *)
Definition ResourceStorageConfig : Type := string.
Definition ResourceStorage : Type := string.
Definition ObjectConvertor : Type := string.
Definition MetricsStore : Type := string.

Inductive ListerWatcher : Type :=
| ForResource (namespace : string) (gvr : GroupVersionResource)
| eventsListerWatcher.

Definition NamespaceAll : string := "".

(** One entry of the plan ("SyncPlan" in section 3 of the spec): the fields
    the refresh reads from the value stored under a storage GVR. *)
Record ResourceSyncConfig : Type := {
  kind : string;
  syncResource : GroupVersionResource;
  syncEvents : bool;
  convertor : ObjectConvertor;
  resourceStorageConfig : ResourceStorageConfig
}.

(** [resourcesynchro.EventConfig] *)
Record EventConfig : Type := {
  evListerWatcher : ListerWatcher;
  evResourceVersions : option (gmap string string)
}.

(** [resourcesynchro.Config] *)
Record Config : Type := {
  cfgGroupVersionResource : GroupVersionResource;
  cfgKind : string;
  cfgListerWatcher : ListerWatcher;
  cfgObjectConvertor : ObjectConvertor;
  cfgMetricsStore : option MetricsStore;
  cfgResourceVersions : option (gmap string string);
  cfgPageSizeForInformer : Z;
  cfgResourceStorage : ResourceStorage;
  cfgEvent : option EventConfig
}.

(** A [resourcesynchro.Synchro] as the cluster synchro sees it: what
    [GroupVersionResource()], [Status()] and [Stage()] return. *)
Record Synchro : Type := {
  synchroGroupVersionResource : GroupVersionResource;
  synchroStatus : ClusterResourceSyncCondition;
  synchroStage : string
}.

#[global] Instance Synchro_eq_dec : EqDecision Synchro.
Proof. solve_decision. Defined.

Record ClusterSyncConfig : Type := {
  MetricsStoreBuilder : option (string -> GroupVersionResource -> option MetricsStore);
  PageSizeForResourceSync : Z
}.

(** What the collaborators answer during one call: the clock, the discovery
    manager, the negotiator, the storage factory, the synchro factory, and
    which case the [select] on a removed synchro's [Close()] takes. *)
Record World : Type := {
  Now : metav1_Time;
  ServerVersion : string;
  NegotiateSyncResources :
    bool -> list ClusterGroupResources ->
    GroupResourceStatus * gmap GroupVersionResource ResourceSyncConfig;
  NewResourceStorage : ResourceStorageConfig -> ResourceStorage * error;
  NewResourceSynchro : string -> Config -> Synchro * error;
  CleanClusterResource : string -> GroupVersionResource -> error;
  closeCompletes : GroupVersionResource -> bool
}.

(** Calls that leave the [ClusterSynchro], in program order. *)
Inductive Event : Type :=
| EvNegotiateSyncResources (syncResources : list ClusterGroupResources)
| EvNewResourceStorage (storageGVR : GroupVersionResource) (config : ResourceStorageConfig)
| EvNewResourceSynchro (storageGVR : GroupVersionResource) (config : Config)
| EvSynchroRun (storageGVR : GroupVersionResource)
| EvSynchroStart (storageGVR : GroupVersionResource)
| EvSynchroClose (storageGVR : GroupVersionResource)
| EvStoreSynchro (storageGVR : GroupVersionResource)
| EvDeleteSynchro (storageGVR : GroupVersionResource)
| EvUpdateSyncCondition (gvr : GroupVersionResource) (status reason message : string)
| EvDeleteVersion (gvr : GroupVersionResource)
| EvCleanClusterResource (cluster : string) (storageGVR : GroupVersionResource)
| EvUpdateClusterStatus (cluster : string) (status : ClusterStatus).

(** ** The [ClusterSynchro] struct *)

Record RestConfig : Type := {
  Host : string;
  Dial : option (nat * nat)
}.

Inductive SynchroFactory : Type :=
| StorageSynchroFactory
| DefaultResourceSynchroFactory.

(** The fields of the struct that the modelled methods read or write, and
    two ghost fields: [statusLoops], the number of live goroutines ranging
    over [updateStatusCh], and [trace].  [waitGroup] counts the goroutines
    started through [wait.Group] that have not returned.  The runner's
    channels [startRunnerCh] and [stopRunnerCh] and the handles of the
    health checker, the discovery manager and the lister-watcher factory are
    not read by the methods below. *)
Record ClusterSynchro : Type := {
  name : string;
  RESTConfig : RestConfig;
  resourceSynchroFactory : SynchroFactory;
  syncConfig : ClusterSyncConfig;
  closeOnce : Once;
  closer : Chan;
  closed : Chan;
  updateStatusCh : Chan;
  waitGroup : nat;
  handlerStopCh : option Chan;
  storageResourceVersions : gmap GroupVersionResource ClusterResourceVersions;
  storageResourceSynchros : gmap GroupVersionResource Synchro;
  syncResources : option (list ClusterGroupResources);
  setSyncResourcesCh : Chan;
  syncAllCustomResources : bool;
  groupResourceStatus : option GroupResourceStatus;
  runningCondition : Condition;
  healthyCondition : Condition;
  statusLoops : nat;
  trace : list Event
}.

(** Field updates: [set_f v s] is [s] after the assignment [s.f = v]. *)

Definition set_closeOnce (v : Once) (s : ClusterSynchro) : ClusterSynchro :=
  {| name := name s; RESTConfig := RESTConfig s;
     resourceSynchroFactory := resourceSynchroFactory s; syncConfig := syncConfig s;
     closeOnce := v; closer := closer s; closed := closed s;
     updateStatusCh := updateStatusCh s; waitGroup := waitGroup s;
     handlerStopCh := handlerStopCh s; storageResourceVersions := storageResourceVersions s;
     storageResourceSynchros := storageResourceSynchros s; syncResources := syncResources s;
     setSyncResourcesCh := setSyncResourcesCh s;
     syncAllCustomResources := syncAllCustomResources s;
     groupResourceStatus := groupResourceStatus s; runningCondition := runningCondition s;
     healthyCondition := healthyCondition s; statusLoops := statusLoops s;
     trace := trace s |}.

Definition set_closer (v : Chan) (s : ClusterSynchro) : ClusterSynchro :=
  {| name := name s; RESTConfig := RESTConfig s;
     resourceSynchroFactory := resourceSynchroFactory s; syncConfig := syncConfig s;
     closeOnce := closeOnce s; closer := v; closed := closed s;
     updateStatusCh := updateStatusCh s; waitGroup := waitGroup s;
     handlerStopCh := handlerStopCh s; storageResourceVersions := storageResourceVersions s;
     storageResourceSynchros := storageResourceSynchros s; syncResources := syncResources s;
     setSyncResourcesCh := setSyncResourcesCh s;
     syncAllCustomResources := syncAllCustomResources s;
     groupResourceStatus := groupResourceStatus s; runningCondition := runningCondition s;
     healthyCondition := healthyCondition s; statusLoops := statusLoops s;
     trace := trace s |}.

Definition set_closed (v : Chan) (s : ClusterSynchro) : ClusterSynchro :=
  {| name := name s; RESTConfig := RESTConfig s;
     resourceSynchroFactory := resourceSynchroFactory s; syncConfig := syncConfig s;
     closeOnce := closeOnce s; closer := closer s; closed := v;
     updateStatusCh := updateStatusCh s; waitGroup := waitGroup s;
     handlerStopCh := handlerStopCh s; storageResourceVersions := storageResourceVersions s;
     storageResourceSynchros := storageResourceSynchros s; syncResources := syncResources s;
     setSyncResourcesCh := setSyncResourcesCh s;
     syncAllCustomResources := syncAllCustomResources s;
     groupResourceStatus := groupResourceStatus s; runningCondition := runningCondition s;
     healthyCondition := healthyCondition s; statusLoops := statusLoops s;
     trace := trace s |}.

Definition set_updateStatusCh (v : Chan) (s : ClusterSynchro) : ClusterSynchro :=
  {| name := name s; RESTConfig := RESTConfig s;
     resourceSynchroFactory := resourceSynchroFactory s; syncConfig := syncConfig s;
     closeOnce := closeOnce s; closer := closer s; closed := closed s; updateStatusCh := v;
     waitGroup := waitGroup s; handlerStopCh := handlerStopCh s;
     storageResourceVersions := storageResourceVersions s;
     storageResourceSynchros := storageResourceSynchros s; syncResources := syncResources s;
     setSyncResourcesCh := setSyncResourcesCh s;
     syncAllCustomResources := syncAllCustomResources s;
     groupResourceStatus := groupResourceStatus s; runningCondition := runningCondition s;
     healthyCondition := healthyCondition s; statusLoops := statusLoops s;
     trace := trace s |}.

Definition set_waitGroup (v : nat) (s : ClusterSynchro) : ClusterSynchro :=
  {| name := name s; RESTConfig := RESTConfig s;
     resourceSynchroFactory := resourceSynchroFactory s; syncConfig := syncConfig s;
     closeOnce := closeOnce s; closer := closer s; closed := closed s;
     updateStatusCh := updateStatusCh s; waitGroup := v; handlerStopCh := handlerStopCh s;
     storageResourceVersions := storageResourceVersions s;
     storageResourceSynchros := storageResourceSynchros s; syncResources := syncResources s;
     setSyncResourcesCh := setSyncResourcesCh s;
     syncAllCustomResources := syncAllCustomResources s;
     groupResourceStatus := groupResourceStatus s; runningCondition := runningCondition s;
     healthyCondition := healthyCondition s; statusLoops := statusLoops s;
     trace := trace s |}.

Definition set_handlerStopCh (v : option Chan) (s : ClusterSynchro) : ClusterSynchro :=
  {| name := name s; RESTConfig := RESTConfig s;
     resourceSynchroFactory := resourceSynchroFactory s; syncConfig := syncConfig s;
     closeOnce := closeOnce s; closer := closer s; closed := closed s;
     updateStatusCh := updateStatusCh s; waitGroup := waitGroup s; handlerStopCh := v;
     storageResourceVersions := storageResourceVersions s;
     storageResourceSynchros := storageResourceSynchros s; syncResources := syncResources s;
     setSyncResourcesCh := setSyncResourcesCh s;
     syncAllCustomResources := syncAllCustomResources s;
     groupResourceStatus := groupResourceStatus s; runningCondition := runningCondition s;
     healthyCondition := healthyCondition s; statusLoops := statusLoops s;
     trace := trace s |}.

Definition set_storageResourceVersions (v : gmap GroupVersionResource ClusterResourceVersions) (s : ClusterSynchro) : ClusterSynchro :=
  {| name := name s; RESTConfig := RESTConfig s;
     resourceSynchroFactory := resourceSynchroFactory s; syncConfig := syncConfig s;
     closeOnce := closeOnce s; closer := closer s; closed := closed s;
     updateStatusCh := updateStatusCh s; waitGroup := waitGroup s;
     handlerStopCh := handlerStopCh s; storageResourceVersions := v;
     storageResourceSynchros := storageResourceSynchros s; syncResources := syncResources s;
     setSyncResourcesCh := setSyncResourcesCh s;
     syncAllCustomResources := syncAllCustomResources s;
     groupResourceStatus := groupResourceStatus s; runningCondition := runningCondition s;
     healthyCondition := healthyCondition s; statusLoops := statusLoops s;
     trace := trace s |}.

Definition set_storageResourceSynchros (v : gmap GroupVersionResource Synchro) (s : ClusterSynchro) : ClusterSynchro :=
  {| name := name s; RESTConfig := RESTConfig s;
     resourceSynchroFactory := resourceSynchroFactory s; syncConfig := syncConfig s;
     closeOnce := closeOnce s; closer := closer s; closed := closed s;
     updateStatusCh := updateStatusCh s; waitGroup := waitGroup s;
     handlerStopCh := handlerStopCh s; storageResourceVersions := storageResourceVersions s;
     storageResourceSynchros := v; syncResources := syncResources s;
     setSyncResourcesCh := setSyncResourcesCh s;
     syncAllCustomResources := syncAllCustomResources s;
     groupResourceStatus := groupResourceStatus s; runningCondition := runningCondition s;
     healthyCondition := healthyCondition s; statusLoops := statusLoops s;
     trace := trace s |}.

Definition set_syncResources (v : option (list ClusterGroupResources)) (s : ClusterSynchro) : ClusterSynchro :=
  {| name := name s; RESTConfig := RESTConfig s;
     resourceSynchroFactory := resourceSynchroFactory s; syncConfig := syncConfig s;
     closeOnce := closeOnce s; closer := closer s; closed := closed s;
     updateStatusCh := updateStatusCh s; waitGroup := waitGroup s;
     handlerStopCh := handlerStopCh s; storageResourceVersions := storageResourceVersions s;
     storageResourceSynchros := storageResourceSynchros s; syncResources := v;
     setSyncResourcesCh := setSyncResourcesCh s;
     syncAllCustomResources := syncAllCustomResources s;
     groupResourceStatus := groupResourceStatus s; runningCondition := runningCondition s;
     healthyCondition := healthyCondition s; statusLoops := statusLoops s;
     trace := trace s |}.

Definition set_setSyncResourcesCh (v : Chan) (s : ClusterSynchro) : ClusterSynchro :=
  {| name := name s; RESTConfig := RESTConfig s;
     resourceSynchroFactory := resourceSynchroFactory s; syncConfig := syncConfig s;
     closeOnce := closeOnce s; closer := closer s; closed := closed s;
     updateStatusCh := updateStatusCh s; waitGroup := waitGroup s;
     handlerStopCh := handlerStopCh s; storageResourceVersions := storageResourceVersions s;
     storageResourceSynchros := storageResourceSynchros s; syncResources := syncResources s;
     setSyncResourcesCh := v; syncAllCustomResources := syncAllCustomResources s;
     groupResourceStatus := groupResourceStatus s; runningCondition := runningCondition s;
     healthyCondition := healthyCondition s; statusLoops := statusLoops s;
     trace := trace s |}.

Definition set_syncAllCustomResources (v : bool) (s : ClusterSynchro) : ClusterSynchro :=
  {| name := name s; RESTConfig := RESTConfig s;
     resourceSynchroFactory := resourceSynchroFactory s; syncConfig := syncConfig s;
     closeOnce := closeOnce s; closer := closer s; closed := closed s;
     updateStatusCh := updateStatusCh s; waitGroup := waitGroup s;
     handlerStopCh := handlerStopCh s; storageResourceVersions := storageResourceVersions s;
     storageResourceSynchros := storageResourceSynchros s; syncResources := syncResources s;
     setSyncResourcesCh := setSyncResourcesCh s; syncAllCustomResources := v;
     groupResourceStatus := groupResourceStatus s; runningCondition := runningCondition s;
     healthyCondition := healthyCondition s; statusLoops := statusLoops s;
     trace := trace s |}.

Definition set_groupResourceStatus (v : option GroupResourceStatus) (s : ClusterSynchro) : ClusterSynchro :=
  {| name := name s; RESTConfig := RESTConfig s;
     resourceSynchroFactory := resourceSynchroFactory s; syncConfig := syncConfig s;
     closeOnce := closeOnce s; closer := closer s; closed := closed s;
     updateStatusCh := updateStatusCh s; waitGroup := waitGroup s;
     handlerStopCh := handlerStopCh s; storageResourceVersions := storageResourceVersions s;
     storageResourceSynchros := storageResourceSynchros s; syncResources := syncResources s;
     setSyncResourcesCh := setSyncResourcesCh s;
     syncAllCustomResources := syncAllCustomResources s; groupResourceStatus := v;
     runningCondition := runningCondition s; healthyCondition := healthyCondition s;
     statusLoops := statusLoops s; trace := trace s |}.

Definition set_runningCondition (v : Condition) (s : ClusterSynchro) : ClusterSynchro :=
  {| name := name s; RESTConfig := RESTConfig s;
     resourceSynchroFactory := resourceSynchroFactory s; syncConfig := syncConfig s;
     closeOnce := closeOnce s; closer := closer s; closed := closed s;
     updateStatusCh := updateStatusCh s; waitGroup := waitGroup s;
     handlerStopCh := handlerStopCh s; storageResourceVersions := storageResourceVersions s;
     storageResourceSynchros := storageResourceSynchros s; syncResources := syncResources s;
     setSyncResourcesCh := setSyncResourcesCh s;
     syncAllCustomResources := syncAllCustomResources s;
     groupResourceStatus := groupResourceStatus s; runningCondition := v;
     healthyCondition := healthyCondition s; statusLoops := statusLoops s;
     trace := trace s |}.

Definition set_healthyCondition (v : Condition) (s : ClusterSynchro) : ClusterSynchro :=
  {| name := name s; RESTConfig := RESTConfig s;
     resourceSynchroFactory := resourceSynchroFactory s; syncConfig := syncConfig s;
     closeOnce := closeOnce s; closer := closer s; closed := closed s;
     updateStatusCh := updateStatusCh s; waitGroup := waitGroup s;
     handlerStopCh := handlerStopCh s; storageResourceVersions := storageResourceVersions s;
     storageResourceSynchros := storageResourceSynchros s; syncResources := syncResources s;
     setSyncResourcesCh := setSyncResourcesCh s;
     syncAllCustomResources := syncAllCustomResources s;
     groupResourceStatus := groupResourceStatus s; runningCondition := runningCondition s;
     healthyCondition := v; statusLoops := statusLoops s; trace := trace s |}.

Definition set_statusLoops (v : nat) (s : ClusterSynchro) : ClusterSynchro :=
  {| name := name s; RESTConfig := RESTConfig s;
     resourceSynchroFactory := resourceSynchroFactory s; syncConfig := syncConfig s;
     closeOnce := closeOnce s; closer := closer s; closed := closed s;
     updateStatusCh := updateStatusCh s; waitGroup := waitGroup s;
     handlerStopCh := handlerStopCh s; storageResourceVersions := storageResourceVersions s;
     storageResourceSynchros := storageResourceSynchros s; syncResources := syncResources s;
     setSyncResourcesCh := setSyncResourcesCh s;
     syncAllCustomResources := syncAllCustomResources s;
     groupResourceStatus := groupResourceStatus s; runningCondition := runningCondition s;
     healthyCondition := healthyCondition s; statusLoops := v; trace := trace s |}.

Definition set_trace (v : list Event) (s : ClusterSynchro) : ClusterSynchro :=
  {| name := name s; RESTConfig := RESTConfig s;
     resourceSynchroFactory := resourceSynchroFactory s; syncConfig := syncConfig s;
     closeOnce := closeOnce s; closer := closer s; closed := closed s;
     updateStatusCh := updateStatusCh s; waitGroup := waitGroup s;
     handlerStopCh := handlerStopCh s; storageResourceVersions := storageResourceVersions s;
     storageResourceSynchros := storageResourceSynchros s; syncResources := syncResources s;
     setSyncResourcesCh := setSyncResourcesCh s;
     syncAllCustomResources := syncAllCustomResources s;
     groupResourceStatus := groupResourceStatus s; runningCondition := runningCondition s;
     healthyCondition := healthyCondition s; statusLoops := statusLoops s; trace := v |}.

Definition emit (e : Event) (s : ClusterSynchro) : ClusterSynchro :=
  set_trace (trace s ++ [e]) s.

(** ** The constructor *)

(** [type RetryableError error] declares an interface type with the method
    set of [error]; the conversion [RetryableError(err)] changes the static
    type of the expression and leaves the interface value as it is, and the
    result is returned as a plain [error] again. *)
Definition RetryableError (err : error) : error := err.

(** The test a caller can make, [_, ok := err.(RetryableError)]: a type
    assertion to an interface type holds when the dynamic type of the value
    has the methods of the interface, here [Error() string], which every
    non-nil [error] has. *)
Definition assertRetryableError (err : error) : bool :=
  bool_decide (err ≠ nilError).

(** What the constructors called by [New] return, the feature gate, and
    whether the storage factory also is a [resourcesynchro.SynchroFactory]. *)
Record Deps : Type := {
  NewDynamicDiscoveryManager : string -> RestConfig -> error;
  GetResourceVersions :
    string -> gmap GroupVersionResource ClusterResourceVersions * error;
  NewDynamicListerWatcherFactory : RestConfig -> error;
  HealthCheckerWithStandaloneTCP : bool;
  newHealthChecker : RestConfig -> error;
  NewForConfig : RestConfig -> error;
  storageIsSynchroFactory : bool;
  clock : metav1_Time
}.

(** The body of the loop of [initWithResourceVersions] for one entry. *)
Definition initResourceVersions (rvs : ClusterResourceVersions) : ClusterResourceVersions :=
  {| Resources := match Resources rvs with None => Some ∅ | Some m => Some m end;
     Events := match Events rvs with None => Some ∅ | Some m => Some m end |}.

Definition initWithResourceVersions
    (resourceversions : gmap GroupVersionResource ClusterResourceVersions)
    (s : ClusterSynchro) : ClusterSynchro :=
  if decide (size resourceversions = 0) then s
  else
    foldl (fun s e => set_storageResourceVersions
                        (<[e.1 := initResourceVersions e.2]> (storageResourceVersions s)) s)
          s (map_to_list resourceversions).

Definition New (d : Deps) (name : string) (config : RestConfig)
    (syncConfig : ClusterSyncConfig) : option ClusterSynchro * error :=
  let err := NewDynamicDiscoveryManager d name config in
  if decide (err ≠ nilError)
  then (None, RetryableError (fmt_Errorf "failed to create dynamic discovery manager" err))
  else
  let '(resourceversions, err) := GetResourceVersions d name in
  if decide (err ≠ nilError)
  then (None, RetryableError (fmt_Errorf "failed to get resource versions from storage" err))
  else
  let err := NewDynamicListerWatcherFactory d config in
  if decide (err ≠ nilError)
  then (None, fmt_Errorf "failed to create lister watcher factory" err)
  else
  let checkerConfig :=
    if HealthCheckerWithStandaloneTCP d
    then {| Host := Host config; Dial := Some (30, 30) |}
    else config in
  let err := newHealthChecker d checkerConfig in
  if decide (err ≠ nilError)
  then (None, fmt_Errorf "failed to create a cluster health checker" err)
  else
  let err := NewForConfig d config in
  if decide (err ≠ nilError)
  then (None, fmt_Errorf "failed to create cluster client" err)
  else
  let synchro :=
    {| name := name;
       RESTConfig := config;
       resourceSynchroFactory :=
         if storageIsSynchroFactory d then StorageSynchroFactory
         else DefaultResourceSynchroFactory;
       syncConfig := syncConfig;
       closeOnce := OnceFresh;
       closer := make_chan 0;
       closed := make_chan 0;
       updateStatusCh := make_chan 1;
       waitGroup := 0;
       handlerStopCh := None;
       storageResourceVersions := ∅;
       storageResourceSynchros := ∅;
       syncResources := None;
       setSyncResourcesCh := make_chan 1;
       syncAllCustomResources := false;
       groupResourceStatus := None;
       runningCondition :=
         {| Type_ := SynchroRunningCondition; Status := ConditionFalse;
            Reason := SynchroPendingReason;
            Message := "cluster synchro is created, wait running";
            LastTransitionTime := clock d |};
       healthyCondition :=
         {| Type_ := ClusterHealthyCondition; Status := ConditionUnknown;
            Reason := ClusterMonitorStopReason;
            Message := "wait cluster synchro's healthy monitor running";
            LastTransitionTime := clock d |};
       statusLoops := 0;
       trace := [] |} in
  (Some (initWithResourceVersions resourceversions synchro), nilError).

(** ** Wake-ups and status publication *)

Definition resetSyncResources (s : ClusterSynchro) : outcome ClusterSynchro :=
  match chan_try_send (setSyncResourcesCh s) with
  | Next ch => Next (set_setSyncResourcesCh ch s)
  | Blocked => Blocked
  | Panic => Panic
  end.

Definition SetResources (syncResources : option (list ClusterGroupResources))
    (syncAllCustomResources : bool) (s : ClusterSynchro) : outcome ClusterSynchro :=
  let s := set_syncResources syncResources s in
  let s := set_syncAllCustomResources syncAllCustomResources s in
  resetSyncResources s.

Definition updateStatus (s : ClusterSynchro) : outcome ClusterSynchro :=
  match chan_try_send (updateStatusCh s) with
  | Next ch => Next (set_updateStatusCh ch s)
  | Blocked => Blocked
  | Panic => Panic
  end.

(** The body of the innermost loop of [genClusterStatus]. *)
Definition genSyncCondition (w : World) (s : ClusterSynchro)
    (gr : GroupResource) (cond : ClusterResourceSyncCondition)
  : ClusterResourceSyncCondition :=
  let storageGVR := StorageGVR cond gr in
  match storageResourceSynchros s !! storageGVR with
  | Some synchro =>
      let syncedGVR := synchroGroupVersionResource synchro in
      let status := synchroStatus synchro in
      {| condVersion := condVersion cond;
         condSyncVersion :=
           if decide (condVersion cond ≠ Version syncedGVR) then Version syncedGVR
           else condSyncVersion cond;
         condSyncResource :=
           if decide (gr ≠ GroupResourceOf syncedGVR)
           then GroupResource_String (GroupResourceOf syncedGVR)
           else condSyncResource cond;
         condStorageGVR := condStorageGVR cond;
         condStatus := condStatus status;
         condReason := condReason status;
         condMessage := condMessage status;
         condInitialListPhase := condInitialListPhase status;
         condLastTransitionTime := condLastTransitionTime status |}
  | None =>
      {| condVersion := condVersion cond;
         condSyncVersion := condSyncVersion cond;
         condSyncResource := condSyncResource cond;
         condStorageGVR := condStorageGVR cond;
         condStatus :=
           if decide (condStatus cond = "") then ResourceSyncStatusUnknown else condStatus cond;
         condReason :=
           if decide (condReason cond = "") then "ResourceSynchroNotFound" else condReason cond;
         condMessage :=
           if decide (condMessage cond = "") then "not found resource synchro"
           else condMessage cond;
         condInitialListPhase := condInitialListPhase cond;
         condLastTransitionTime := Now w |}
  end.

Definition genClusterStatus (w : World) (s : ClusterSynchro) : ClusterStatus :=
  let status :=
    {| csVersion := ServerVersion w;
       Conditions := [runningCondition s; healthyCondition s];
       SyncResources := [] |} in
  match groupResourceStatus s with
  | None => status
  | Some groupResourceStatuses =>
      let statuses := LoadGroupResourcesStatuses groupResourceStatuses in
      {| csVersion := csVersion status;
         Conditions := Conditions status;
         SyncResources := mapConditions (genSyncCondition w s) statuses |}
  end.

(** ** [refreshSyncResources] *)

(** How a call of [refreshSyncResources] ends: it returns from its last
    statement (or from the nil check at its top), it returns from the
    [select] that saw [s.closer] closed, or [err.Error()] dereferences nil. *)
Inductive RefreshExit : Type :=
| Returned
| ShutdownObserved
| Panicked.

#[global] Instance RefreshExit_eq_dec : EqDecision RefreshExit.
Proof. solve_decision. Defined.

(** [groupResourceStatus.UpdateSyncCondition(gvr, status, reason, message)]
    on the status the struct points to since [s.groupResourceStatus.Store]. *)
Definition callUpdateSyncCondition (status reason message : string)
    (s : ClusterSynchro) (gvr : GroupVersionResource) : ClusterSynchro :=
  emit (EvUpdateSyncCondition gvr status reason message)
       (set_groupResourceStatus
          (UpdateSyncCondition gvr status reason message <$> groupResourceStatus s) s).

(** The closure [updateSyncConditions]; a key missing from the Go map yields
    the nil set, over which the [range] does nothing. *)
Definition updateSyncConditions
    (storageGVRToSyncGVRs : gmap GroupVersionResource (gset GroupVersionResource))
    (storageGVR : GroupVersionResource) (status reason message : string)
    (s : ClusterSynchro) : ClusterSynchro :=
  foldl (callUpdateSyncCondition status reason message) s
        (elements (default ∅ (storageGVRToSyncGVRs !! storageGVR))).

(** [rvs, ok := s.storageResourceVersions[storageGVR]] and the entry made
    when there is none. *)
Definition ensureResourceVersions (storageGVR : GroupVersionResource) (s : ClusterSynchro)
  : ClusterResourceVersions * ClusterSynchro :=
  match storageResourceVersions s !! storageGVR with
  | Some rvs => (rvs, s)
  | None =>
      let rvs := {| Resources := Some ∅; Events := Some ∅ |} in
      (rvs, set_storageResourceVersions (<[storageGVR := rvs]> (storageResourceVersions s)) s)
  end.

(** The [resourcesynchro.Config] handed to [NewResourceSynchro]. *)
Definition synchroConfig (s : ClusterSynchro) (config : ResourceSyncConfig)
    (rvs : ClusterResourceVersions) (resourceStorage : ResourceStorage) : Config :=
  let metricsStore :=
    match MetricsStoreBuilder (syncConfig s) with
    | Some GetMetricStore => GetMetricStore (name s) (syncResource config)
    | None => None
    end in
  let eventConfig :=
    if syncEvents config
    then Some {| evListerWatcher := eventsListerWatcher; evResourceVersions := Events rvs |}
    else None in
  {| cfgGroupVersionResource := syncResource config;
     cfgKind := kind config;
     cfgListerWatcher := ForResource NamespaceAll (syncResource config);
     cfgObjectConvertor := convertor config;
     cfgMetricsStore := metricsStore;
     cfgResourceVersions := Resources rvs;
     cfgPageSizeForInformer := PageSizeForResourceSync (syncConfig s);
     cfgResourceStorage := resourceStorage;
     cfgEvent := eventConfig |}.

(** The statements after a successful [NewResourceSynchro]: the synchro's
    [Run] is started under the wait group with [s.closer], the synchro is
    stored, the condition is reset, and [Start] is launched when the runner
    holds an open [handlerStopCh]. *)
Definition startSynchro
    (storageGVRToSyncGVRs : gmap GroupVersionResource (gset GroupVersionResource))
    (storageGVR : GroupVersionResource) (synchro : Synchro) (s : ClusterSynchro)
  : ClusterSynchro :=
  let s := emit (EvSynchroRun storageGVR) (set_waitGroup (S (waitGroup s)) s) in
  let s := emit (EvStoreSynchro storageGVR)
             (set_storageResourceSynchros
                (<[storageGVR := synchro]> (storageResourceSynchros s)) s) in
  let s := updateSyncConditions storageGVRToSyncGVRs storageGVR
             ResourceSyncStatusUnknown "" "" s in
  match handlerStopCh s with
  | Some ch => if chan_closed ch then s else emit (EvSynchroStart storageGVR) s
  | None => s
  end.

(** The body of the first loop, run under [runnerLock], for one plan entry. *)
Definition createSynchro (w : World)
    (storageGVRToSyncGVRs : gmap GroupVersionResource (gset GroupVersionResource))
    (s : ClusterSynchro) (entry : GroupVersionResource * ResourceSyncConfig)
  : ClusterSynchro :=
  let storageGVR := entry.1 in
  let config := entry.2 in
  match storageResourceSynchros s !! storageGVR with
  | Some _ => s
  | None =>
      let s := emit (EvNewResourceStorage storageGVR (resourceStorageConfig config)) s in
      let '(resourceStorage, err) := NewResourceStorage w (resourceStorageConfig config) in
      if decide (err ≠ nilError)
      then updateSyncConditions storageGVRToSyncGVRs storageGVR
             ResourceSyncStatusPending "SynchroCreateFailed"
             (fmt_Sprintf "new resource storage failed" err) s
      else
        let '(rvs, s) := ensureResourceVersions storageGVR s in
        let cfg := synchroConfig s config rvs resourceStorage in
        let s := emit (EvNewResourceSynchro storageGVR cfg) s in
        let '(synchro, err) := NewResourceSynchro w (name s) cfg in
        if decide (err ≠ nilError)
        then updateSyncConditions storageGVRToSyncGVRs storageGVR
               ResourceSyncStatusPending "SynchroCreateFailed"
               (fmt_Sprintf "new resource synchro failed" err) s
        else startSynchro storageGVRToSyncGVRs storageGVR synchro s
  end.

(** The loop over [removedStorageGVRs]. *)
Fixpoint closeSynchros (w : World)
    (storageGVRToSyncGVRs : gmap GroupVersionResource (gset GroupVersionResource))
    (removedStorageGVRs : list GroupVersionResource) (s : ClusterSynchro)
  : ClusterSynchro * RefreshExit :=
  match removedStorageGVRs with
  | [] => (s, Returned)
  | storageGVR :: rest =>
      match storageResourceSynchros s !! storageGVR with
      | Some synchro =>
          let s := emit (EvSynchroClose storageGVR) s in
          if closeCompletes w storageGVR
          then
            let s := updateSyncConditions storageGVRToSyncGVRs storageGVR
                       ResourceSyncStatusStop "SynchroRemoved"
                       "the resource synchro is moved" s in
            let s := emit (EvDeleteSynchro storageGVR)
                       (set_storageResourceSynchros
                          (delete storageGVR (storageResourceSynchros s)) s) in
            closeSynchros w storageGVRToSyncGVRs rest s
          else (s, ShutdownObserved)
      | None => closeSynchros w storageGVRToSyncGVRs rest s
      end
  end.

(** The loop over [s.storageResourceVersions]; it deletes only the key it is
    visiting, so it visits the keys the map had when the loop began. *)
Fixpoint cleanResources (w : World)
    (storageGVRToSyncGVRs : gmap GroupVersionResource (gset GroupVersionResource))
    (storageResourceSyncConfigs : gmap GroupVersionResource ResourceSyncConfig)
    (keys : list GroupVersionResource)
    (deleted : gset GroupVersionResource) (s : ClusterSynchro)
  : ClusterSynchro * gset GroupVersionResource * RefreshExit :=
  match keys with
  | [] => (s, deleted, Returned)
  | storageGVR :: rest =>
      match storageResourceSyncConfigs !! storageGVR with
      | Some _ =>
          cleanResources w storageGVRToSyncGVRs storageResourceSyncConfigs rest deleted s
      | None =>
          let s := set_storageResourceVersions
                     (delete storageGVR (storageResourceVersions s)) s in
          let s := emit (EvCleanClusterResource (name s) storageGVR) s in
          let err := CleanClusterResource w (name s) storageGVR in
          if decide (err = nilError)
          then cleanResources w storageGVRToSyncGVRs storageResourceSyncConfigs rest deleted s
          else
            match Error err with
            | None => (s, deleted, Panicked)
            | Some message =>
                let s := updateSyncConditions storageGVRToSyncGVRs storageGVR
                           ResourceSyncStatusStop "CleanResourceFailed" message s in
                let deleted := deleted ∖ default ∅ (storageGVRToSyncGVRs !! storageGVR) in
                cleanResources w storageGVRToSyncGVRs storageResourceSyncConfigs rest deleted s
            end
      end
  end.

(** [groupResourceStatus.DeleteVersion(gvr)] *)
Definition callDeleteVersion (s : ClusterSynchro) (gvr : GroupVersionResource)
  : ClusterSynchro :=
  emit (EvDeleteVersion gvr)
       (set_groupResourceStatus (DeleteVersion gvr <$> groupResourceStatus s) s).

(** The method with the way it ended.  Go leaves the order of a [range] over
    a map open; the loops visit the keys in the order [map_to_list] and
    [elements] enumerate them. *)
Definition refreshSyncResources_exit (w : World) (s : ClusterSynchro)
  : ClusterSynchro * RefreshExit :=
  match syncResources s with
  | None => (s, Returned)
  | Some syncResources =>
      let s := emit (EvNegotiateSyncResources syncResources) s in
      let '(groupResourceStatus0, storageResourceSyncConfigs) :=
        NegotiateSyncResources w (syncAllCustomResources s) syncResources in
      let lastGroupResourceStatus := groupResourceStatus s in
      let '(merged, deleted) := Merge groupResourceStatus0 lastGroupResourceStatus in
      let s := set_groupResourceStatus (Some merged) s in
      let storageGVRToSyncGVRs := GetStorageGVRToSyncGVRs merged in
      let s := foldl (createSynchro w storageGVRToSyncGVRs) s
                 (map_to_list storageResourceSyncConfigs) in
      let removedStorageGVRs :=
        filter (fun storageGVR => storageResourceSyncConfigs !! storageGVR = None)
               (map_to_list (storageResourceSynchros s)).*1 in
      match closeSynchros w storageGVRToSyncGVRs removedStorageGVRs s with
      | (s, ShutdownObserved) => (s, ShutdownObserved)
      | (s, _) =>
          match cleanResources w storageGVRToSyncGVRs storageResourceSyncConfigs
                  (map_to_list (storageResourceVersions s)).*1 deleted s with
          | (s, _, Panicked) => (s, Panicked)
          | (s, deleted, _) => (foldl callDeleteVersion s (elements deleted), Returned)
          end
      end
  end.

Definition refreshSyncResources (w : World) (s : ClusterSynchro) : ClusterSynchro :=
  (refreshSyncResources_exit w s).1.

(** ** [Run], the status goroutine and [Shutdown] *)

(** [Run] up to its final [select]: the running condition is stored, the
    monitor and the runner are started under the wait group, the status
    goroutine is spawned. *)
Definition Run (now : metav1_Time) (s : ClusterSynchro) : ClusterSynchro :=
  let s := set_runningCondition
             {| Type_ := SynchroRunningCondition; Status := ConditionTrue;
                Reason := SynchroRunningReason;
                Message := "cluster synchro is running";
                LastTransitionTime := now |} s in
  let s := set_waitGroup (S (S (waitGroup s))) s in
  set_statusLoops (S (statusLoops s)) s.

(** One turn of the goroutine spawned by [Run]: an iteration of
    [for range s.updateStatusCh], or, once the channel is closed and drained,
    the exit from the loop and the deferred [close(s.closed)]. *)
Definition statusLoop (w : World) (s : ClusterSynchro) : outcome ClusterSynchro :=
  match statusLoops s with
  | O => Blocked
  | S n =>
      match chan_recv (updateStatusCh s) with
      | Next (Some ch) =>
          let s := set_updateStatusCh ch s in
          let status := genClusterStatus w s in
          Next (emit (EvUpdateClusterStatus (name s) status) s)
      | Next None =>
          match chan_close (closed s) with
          | Next ch => Next (set_closed ch (set_statusLoops n s))
          | _ => Panic
          end
      | Blocked => Blocked
      | Panic => Panic
      end
  end.

(** Where a call of [Shutdown] stands: at [closeOnce.Do], inside the once
    function at [waitGroup.Wait()], before the store of the running
    condition, before [if updateStatus], before [close(s.updateStatusCh)],
    at [<-s.closed], or returned.  [sdOwner] tells whether this call is the
    one that runs the once function. *)
Inductive ShutdownPC : Type :=
| AtOnce | AtWait | AtStore | AtUpdateStatus | AtCloseStatusCh | AtClosed | AtReturn.

#[global] Instance ShutdownPC_eq_dec : EqDecision ShutdownPC.
Proof. solve_decision. Defined.

Record ShutdownCall : Type := {
  sdUpdateStatus : bool;
  sdOwner : bool;
  sdPC : ShutdownPC
}.

Definition at_pc (pc : ShutdownPC) (c : ShutdownCall) : ShutdownCall :=
  {| sdUpdateStatus := sdUpdateStatus c; sdOwner := sdOwner c; sdPC := pc |}.

Definition shutdownCondition (now : metav1_Time) : Condition :=
  {| Type_ := SynchroRunningCondition; Status := ConditionFalse;
     Reason := SynchroShutdownReason;
     Message := "cluster synchro is shutdown";
     LastTransitionTime := now |}.

(** One step of a call of [Shutdown(updateStatus)].  [sync.Once.Do] runs the
    function in the first caller and parks every other caller until that
    function has returned.  The goroutine that the once function spawns only
    logs the synchros that have not stopped; its report is
    [shutdownBlockReport] below. *)
Definition Shutdown (now : metav1_Time) (c : ShutdownCall) (s : ClusterSynchro)
  : outcome (ShutdownCall * ClusterSynchro) :=
  match sdPC c with
  | AtOnce =>
      match closeOnce s with
      | OnceFresh =>
          match chan_close (closer s) with
          | Next ch =>
              Next ({| sdUpdateStatus := sdUpdateStatus c; sdOwner := true; sdPC := AtWait |},
                    set_closer ch (set_closeOnce OnceRunning s))
          | _ => Panic
          end
      | OnceRunning => Blocked
      | OnceDone => Next (at_pc AtClosed c, s)
      end
  | AtWait =>
      if decide (waitGroup s = 0) then Next (at_pc AtStore c, s) else Blocked
  | AtStore =>
      Next (at_pc AtUpdateStatus c, set_runningCondition (shutdownCondition now) s)
  | AtUpdateStatus =>
      if sdUpdateStatus c
      then match updateStatus s with
           | Next s' => Next (at_pc AtCloseStatusCh c, s')
           | Blocked => Blocked
           | Panic => Panic
           end
      else Next (at_pc AtCloseStatusCh c, s)
  | AtCloseStatusCh =>
      match chan_close (updateStatusCh s) with
      | Next ch => Next (at_pc AtClosed c, set_closeOnce OnceDone (set_updateStatusCh ch s))
      | _ => Panic
      end
  | AtClosed =>
      match chan_recv (closed s) with
      | Next _ => Next (at_pc AtReturn c, s)
      | Blocked => Blocked
      | Panic => Panic
      end
  | AtReturn => Blocked
  end.

(** ** The goroutines together *)

Record System : Type := {
  synchro : ClusterSynchro;
  shutdowns : list ShutdownCall
}.

Inductive Label : Type :=
| LSetResources (resources : option (list ClusterGroupResources)) (all : bool)
| LResourceMutation
| LRefresh (w : World)
| LRun (now : metav1_Time)
| LUpdateStatus
| LStatusLoop (w : World)
| LWorkerDone
| LSynchroProgress (storageGVR : GroupVersionResource) (new : Synchro)
| LShutdownCall (update : bool)
| LShutdown (i : nat) (now : metav1_Time).

Definition with_synchro (sys : System) (o : outcome ClusterSynchro) : option System :=
  match o with
  | Next s' => Some {| synchro := s'; shutdowns := shutdowns sys |}
  | _ => None
  end.

(** The step a label names, or [None] when that goroutine is parked or
    panics.  [syncResourcesRefresher] receives one wake-up and refreshes
    ([s.closer] may close right after it was polled, so the refresh is not
    tied to its state); a goroutine started under the wait group returns (the
    monitor and the runner when [s.closer] is closed, a synchro's [Run] also
    when the synchro is closed); a registered synchro changes what [Status()]
    and [Stage()] report; any goroutine may call [SetResources],
    [updateStatus] or [Shutdown]; discovery calls [resetSyncResources] on a
    mutation. *)
Definition step (l : Label) (sys : System) : option System :=
  let s := synchro sys in
  match l with
  | LSetResources resources all => with_synchro sys (SetResources resources all s)
  | LResourceMutation => with_synchro sys (resetSyncResources s)
  | LRefresh w =>
      match chan_recv (setSyncResourcesCh s) with
      | Next (Some ch) =>
          with_synchro sys (Next (refreshSyncResources w (set_setSyncResourcesCh ch s)))
      | _ => None
      end
  | LRun now => with_synchro sys (Next (Run now s))
  | LUpdateStatus => with_synchro sys (updateStatus s)
  | LStatusLoop w => with_synchro sys (statusLoop w s)
  | LWorkerDone =>
      match waitGroup s with
      | S n => with_synchro sys (Next (set_waitGroup n s))
      | O => None
      end
  | LSynchroProgress storageGVR new =>
      match storageResourceSynchros s !! storageGVR with
      | Some old =>
          if decide (synchroGroupVersionResource new = synchroGroupVersionResource old)
          then with_synchro sys
                 (Next (set_storageResourceSynchros
                          (<[storageGVR := new]> (storageResourceSynchros s)) s))
          else None
      | None => None
      end
  | LShutdownCall update =>
      Some {| synchro := s;
              shutdowns := shutdowns sys ++
                [ {| sdUpdateStatus := update; sdOwner := false; sdPC := AtOnce |} ] |}
  | LShutdown i now =>
      match shutdowns sys !! i with
      | Some c =>
          match Shutdown now c s with
          | Next (c', s') => Some {| synchro := s'; shutdowns := <[i := c']> (shutdowns sys) |}
          | _ => None
          end
      | None => None
      end
  end.

Fixpoint run (ls : list Label) (sys : System) : option System :=
  match ls with
  | [] => Some sys
  | l :: ls' =>
      match step l sys with
      | Some sys' => run ls' sys'
      | None => None
      end
  end.

(** A system as [New] leaves it, and the systems a run of labels leads to. *)
Definition initial (sys : System) : Prop :=
  exists d name config syncConfig s,
    New d name config syncConfig = (Some s, nilError) /\
    sys = {| synchro := s; shutdowns := [] |}.

Definition reachable_by (ls : list Label) (sys : System) : Prop :=
  exists sys0, initial sys0 /\ run ls sys0 = Some sys.

Definition reachable (sys : System) : Prop :=
  exists ls, reachable_by ls sys.

(** The labels under which [SetResources] stores a non-nil resource list. *)
Definition storesResources (l : Label) : Prop :=
  match l with
  | LSetResources (Some _) _ => True
  | _ => False
  end.

(** The calls of [Shutdown] that have returned. *)
Definition returned (c : ShutdownCall) : Prop := sdPC c = AtReturn.

(** ** Predicates of the statements below *)

(** The condition filed under [gvr] exists and has this status and reason. *)
Definition conditionIs (s : ClusterSynchro) (gvr : GroupVersionResource)
    (status reason : string) : Prop :=
  exists grs c, groupResourceStatus s = Some grs /\ grs !! gvr = Some c /\
    condStatus c = status /\ condReason c = reason.

Definition initialised (rvs : ClusterResourceVersions) : Prop :=
  is_Some (Resources rvs) /\ is_Some (Events rvs).

(** Invariant 1 of the spec. *)
Definition watermarksCoverRegistry (s : ClusterSynchro) : Prop :=
  forall storageGVR,
    is_Some (storageResourceSynchros s !! storageGVR) ->
    exists rvs, storageResourceVersions s !! storageGVR = Some rvs /\ initialised rvs.

(** ** Scenarios of section 8 of the spec, as concrete inputs *)

Module Scenario.

Definition pods : GroupVersionResource := GVR "" "v1" "pods".
Definition deployments : GroupVersionResource := GVR "apps" "v1" "deployments".
Definition cronjobs : GroupVersionResource := GVR "batch" "v1" "cronjobs".
Definition cronjobs_v1beta1 : GroupVersionResource := GVR "batch" "v1beta1" "cronjobs".

Definition restConfig : RestConfig := {| Host := "https://c1:6443"; Dial := None |}.

Definition clusterSyncConfig : ClusterSyncConfig :=
  {| MetricsStoreBuilder := None; PageSizeForResourceSync := 500 |}.

Definition refused : error := opaqueError "*net.OpError" "connection refused".

(** Every constructor succeeds; storage holds watermarks for deployments
    whose [Resources] map was persisted as nil. *)
Definition deps : Deps :=
  {| NewDynamicDiscoveryManager := fun _ _ => nilError;
     GetResourceVersions := fun _ =>
       ({[ deployments := {| Resources := None;
                             Events := Some {[ "u1" := "10" ]} |} ]}, nilError);
     NewDynamicListerWatcherFactory := fun _ => nilError;
     HealthCheckerWithStandaloneTCP := false;
     newHealthChecker := fun _ => nilError;
     NewForConfig := fun _ => nilError;
     storageIsSynchroFactory := false;
     clock := 1 |}.

(** As [deps], but the lister-watcher factory cannot be built. *)
Definition depsListWatchFails : Deps :=
  {| NewDynamicDiscoveryManager := fun _ _ => nilError;
     GetResourceVersions := fun _ => (∅, nilError);
     NewDynamicListerWatcherFactory := fun _ => refused;
     HealthCheckerWithStandaloneTCP := false;
     newHealthChecker := fun _ => nilError;
     NewForConfig := fun _ => nilError;
     storageIsSynchroFactory := false;
     clock := 1 |}.

(** As [deps], but the discovery manager cannot be built. *)
Definition depsDiscoveryFails : Deps :=
  {| NewDynamicDiscoveryManager := fun _ _ => refused;
     GetResourceVersions := fun _ => (∅, nilError);
     NewDynamicListerWatcherFactory := fun _ => nilError;
     HealthCheckerWithStandaloneTCP := false;
     newHealthChecker := fun _ => nilError;
     NewForConfig := fun _ => nilError;
     storageIsSynchroFactory := false;
     clock := 1 |}.

(** The synchro [New deps "c1"] returns. *)
Definition c1 : ClusterSynchro :=
  {| name := "c1";
     RESTConfig := restConfig;
     resourceSynchroFactory := DefaultResourceSynchroFactory;
     syncConfig := clusterSyncConfig;
     closeOnce := OnceFresh;
     closer := make_chan 0;
     closed := make_chan 0;
     updateStatusCh := make_chan 1;
     waitGroup := 0;
     handlerStopCh := None;
     storageResourceVersions :=
       {[ deployments := {| Resources := Some ∅; Events := Some {[ "u1" := "10" ]} |} ]};
     storageResourceSynchros := ∅;
     syncResources := None;
     setSyncResourcesCh := make_chan 1;
     syncAllCustomResources := false;
     groupResourceStatus := None;
     runningCondition :=
       {| Type_ := SynchroRunningCondition; Status := ConditionFalse;
          Reason := SynchroPendingReason;
          Message := "cluster synchro is created, wait running";
          LastTransitionTime := 1 |};
     healthyCondition :=
       {| Type_ := ClusterHealthyCondition; Status := ConditionUnknown;
          Reason := ClusterMonitorStopReason;
          Message := "wait cluster synchro's healthy monitor running";
          LastTransitionTime := 1 |};
     statusLoops := 0;
     trace := [] |}.

Definition system0 : System := {| synchro := c1; shutdowns := [] |}.

Definition condition (storageGVR : GroupVersionResource) (version status reason : string)
  : ClusterResourceSyncCondition :=
  {| condVersion := version; condSyncVersion := ""; condSyncResource := "";
     condStorageGVR := storageGVR;
     condStatus := status; condReason := reason; condMessage := "";
     condInitialListPhase := "NotStarted"; condLastTransitionTime := 1 |}.

Definition pending (gvr storageGVR : GroupVersionResource)
  : ClusterResourceSyncCondition :=
  condition storageGVR (Version gvr) ResourceSyncStatusPending "SynchroPending".

Definition planEntry (gvr : GroupVersionResource) (events : bool) : ResourceSyncConfig :=
  {| kind := Resource gvr; syncResource := gvr; syncEvents := events;
     convertor := ""; resourceStorageConfig := Resource gvr |}.

Definition synchroOf (gvr : GroupVersionResource) : Synchro :=
  {| synchroGroupVersionResource := gvr;
     synchroStatus := condition gvr (Version gvr) ResourceSyncStatusSyncing "";
     synchroStage := "running" |}.

(** A world that negotiates the given status and plan whatever is desired,
    fails to build the resource storages listed in [broken], fails to
    clean the resources listed in [dirty], and in which the [select] on
    [Close()] sees the synchro closed or, if [closes] is false, the
    closer. *)
Definition world (status : GroupResourceStatus)
    (plan : gmap GroupVersionResource ResourceSyncConfig)
    (broken : list ResourceStorageConfig) (dirty : list GroupVersionResource)
    (closes : bool) : World :=
  {| Now := 7;
     ServerVersion := "v1.30.0";
     NegotiateSyncResources := fun _ _ => (status, plan);
     NewResourceStorage := fun cfg =>
       if decide (cfg ∈ broken) then ("", refused) else (cfg, nilError);
     NewResourceSynchro := fun _ cfg => (synchroOf (cfgGroupVersionResource cfg), nilError);
     CleanClusterResource := fun _ gvr =>
       if decide (gvr ∈ dirty) then refused else nilError;
     closeCompletes := fun _ => closes |}.

(** S3/S4: pods and deployments are synchronised; the desired set is now
    pods alone. *)
Definition synced : ClusterSynchro :=
  set_storageResourceSynchros
    {[ pods := synchroOf pods; deployments := synchroOf deployments ]}
  (set_storageResourceVersions
    {[ pods := {| Resources := Some ∅; Events := Some ∅ |};
       deployments := {| Resources := Some {[ "u1" := "10"; "u2" := "20" ]};
                         Events := Some ∅ |} ]}
  (set_groupResourceStatus
    (Some {[ pods := condition pods "v1" ResourceSyncStatusSyncing "";
             deployments := condition deployments "v1" ResourceSyncStatusSyncing "" ]})
  (set_syncResources
    (Some [ {| cgrGroup := ""; cgrVersions := ["v1"]; cgrResources := ["pods"] |} ])
    c1))).

Definition podsOnly (dirty : list GroupVersionResource) (closes : bool) : World :=
  world {[ pods := pending pods pods ]} {[ pods := planEntry pods false ]} [] dirty closes.

(** S6: two sync GVRs stored under one storage GVR, whose resource storage
    cannot be built. *)
Definition wantsCronjobs : ClusterSynchro :=
  set_syncResources
    (Some [ {| cgrGroup := "batch"; cgrVersions := ["v1"; "v1beta1"];
               cgrResources := ["cronjobs"] |} ])
    c1.

Definition cronjobsBroken : World :=
  world {[ cronjobs := pending cronjobs cronjobs;
           cronjobs_v1beta1 := pending cronjobs_v1beta1 cronjobs ]}
        {[ cronjobs := planEntry cronjobs false ]} ["cronjobs"] [] true.

(** Two calls of [Shutdown] on a running synchro: the first runs the once
    function after the two workers have returned, the second arrives when it
    is done; the status goroutine publishes the pending notification and
    leaves its loop; both calls return. *)
Definition shutdownTwice : list Label :=
  [ LRun 2; LUpdateStatus; LShutdownCall true; LShutdown 0 3; LWorkerDone; LWorkerDone;
    LShutdown 0 3; LShutdown 0 3; LShutdown 0 3; LShutdown 0 3;
    LShutdownCall false; LShutdown 1 4;
    LStatusLoop (podsOnly [] true); LStatusLoop (podsOnly [] true);
    LShutdown 1 4; LShutdown 0 4 ].

(** The systems these runs lead to. *)
Definition afterShutdown : System :=
  Eval vm_compute in default system0 (run shutdownTwice system0).

Definition notifiedTwice : System :=
  Eval vm_compute in default system0 (run [LRun 2; LUpdateStatus; LUpdateStatus] system0).

Definition refreshedOnce : System :=
  Eval vm_compute in
    default system0
      (run [LSetResources (syncResources synced) false; LRefresh (podsOnly [] true)] system0).

End Scenario.

(** ** Definitions used by the statements and the proofs *)

(** The fields no statement of [refreshSyncResources] assigns. *)
Definition frame (s : ClusterSynchro) :=
  (name s, RESTConfig s, resourceSynchroFactory s, syncConfig s, closeOnce s,
   closer s, closed s, updateStatusCh s, handlerStopCh s, syncResources s,
   setSyncResourcesCh s, syncAllCustomResources s, runningCondition s,
   healthyCondition s, statusLoops s).

(** The status after [UpdateSyncCondition] on each triple of a list, and the
    calls this makes. *)
Definition updateAll (status reason message : string) (l : list GroupVersionResource)
    (grs : GroupResourceStatus) : GroupResourceStatus :=
  foldl (fun grs gvr => UpdateSyncCondition gvr status reason message grs) grs l.

Definition updateEvents (status reason message : string) (l : list GroupVersionResource)
  : list Event :=
  map (fun gvr => EvUpdateSyncCondition gvr status reason message) l.

Definition deleteAll (l : list GroupVersionResource) (grs : GroupResourceStatus)
  : GroupResourceStatus :=
  foldl (fun grs gvr => DeleteVersion gvr grs) grs l.

(** The fields [initWithResourceVersions] leaves alone. *)
Definition frame_versions (s : ClusterSynchro) :=
  (frame s, storageResourceSynchros s, groupResourceStatus s, waitGroup s, trace s).

(** Every watermark entry has both submaps, and every registered storage
    GVR has an entry. *)
Definition watermarksInitialised (s : ClusterSynchro) : Prop :=
  forall storageGVR rvs,
    storageResourceVersions s !! storageGVR = Some rvs -> initialised rvs.

Definition registryTracked (s : ClusterSynchro) : Prop :=
  forall storageGVR,
    is_Some (storageResourceSynchros s !! storageGVR) ->
    is_Some (storageResourceVersions s !! storageGVR).

(** Where the calls of [Shutdown] may stand for a given state of the once. *)
Definition callOK (s : ClusterSynchro) (c : ShutdownCall) : Prop :=
  match sdPC c with
  | AtOnce => sdOwner c = false
  | AtWait | AtStore | AtUpdateStatus | AtCloseStatusCh =>
      sdOwner c = true /\ closeOnce s = OnceRunning
  | AtClosed => closeOnce s = OnceDone
  | AtReturn => closeOnce s = OnceDone /\ chan_closed (closed s) = true
  end.

Definition lifecycleOK (s : ClusterSynchro) : Prop :=
  match closeOnce s with
  | OnceFresh =>
      chan_closed (closer s) = false /\ chan_closed (updateStatusCh s) = false /\
      chan_closed (closed s) = false
  | OnceRunning =>
      chan_closed (closer s) = true /\ chan_closed (updateStatusCh s) = false /\
      chan_closed (closed s) = false
  | OnceDone =>
      chan_closed (closer s) = true /\ chan_closed (updateStatusCh s) = true
  end /\ chan_len (closed s) = 0.

Definition oneOwner (calls : list ShutdownCall) : Prop :=
  forall i j c c',
    calls !! i = Some c -> calls !! j = Some c' ->
    sdOwner c = true -> sdOwner c' = true -> i = j.

Definition shutdownOK (sys : System) : Prop :=
  lifecycleOK (synchro sys) /\
  Forall (callOK (synchro sys)) (shutdowns sys) /\
  oneOwner (shutdowns sys).

Definition statusChOK (s : ClusterSynchro) : Prop :=
  chan_cap (updateStatusCh s) = 1 /\ chan_len (updateStatusCh s) <= 1.

Definition isRun (l : Label) : bool :=
  match l with LRun _ => true | _ => false end.

(** [n] consecutive steps of one call of [Shutdown]. *)
Fixpoint ShutdownSteps (n : nat) (now : metav1_Time) (c : ShutdownCall)
    (s : ClusterSynchro) : outcome (ShutdownCall * ClusterSynchro) :=
  match n with
  | O => Next (c, s)
  | S n' =>
      match Shutdown now c s with
      | Next (c', s') => ShutdownSteps n' now c' s'
      | Blocked => Blocked
      | Panic => Panic
      end
  end.

(** The sync GVRs a storage GVR fans out to. *)
Definition fanout (M : gmap GroupVersionResource (gset GroupVersionResource))
    (storageGVR : GroupVersionResource) : gset GroupVersionResource :=
  default ∅ (M !! storageGVR).

(** The plan and the merged status of the refresh that a world and a synchro
    determine, the fan-out map and the deleted set computed from them. *)
Definition refreshPlan (w : World) (s : ClusterSynchro)
  : gmap GroupVersionResource ResourceSyncConfig :=
  match syncResources s with
  | Some rs => (NegotiateSyncResources w (syncAllCustomResources s) rs).2
  | None => ∅
  end.

Definition refreshMerged (w : World) (s : ClusterSynchro)
  : GroupResourceStatus * gset GroupVersionResource :=
  match syncResources s with
  | Some rs =>
      Merge (NegotiateSyncResources w (syncAllCustomResources s) rs).1 (groupResourceStatus s)
  | None => (∅, ∅)
  end.

Definition refreshFanout (w : World) (s : ClusterSynchro)
  : gmap GroupVersionResource (gset GroupVersionResource) :=
  GetStorageGVRToSyncGVRs (refreshMerged w s).1.

(** The calls about the synchro registered under a storage GVR. *)
Definition touchesSynchro (storageGVR : GroupVersionResource) (e : Event) : Prop :=
  match e with
  | EvNewResourceStorage g _ | EvNewResourceSynchro g _ | EvSynchroRun g
  | EvSynchroStart g | EvSynchroClose g | EvStoreSynchro g | EvDeleteSynchro g =>
      g = storageGVR
  | _ => False
  end.

(** The calls each part of a refresh can make. *)
Definition createEvent (M : gmap GroupVersionResource (gset GroupVersionResource))
    (g : GroupVersionResource) (e : Event) : Prop :=
  (exists cfg, e = EvNewResourceStorage g cfg) \/
  (exists cfg, e = EvNewResourceSynchro g cfg) \/
  e = EvSynchroRun g \/ e = EvStoreSynchro g \/ e = EvSynchroStart g \/
  (exists gvr message, gvr ∈ fanout M g /\
     (e = EvUpdateSyncCondition gvr ResourceSyncStatusPending "SynchroCreateFailed" message \/
      e = EvUpdateSyncCondition gvr ResourceSyncStatusUnknown "" "")).

Definition closeEvent (M : gmap GroupVersionResource (gset GroupVersionResource))
    (g : GroupVersionResource) (e : Event) : Prop :=
  e = EvSynchroClose g \/ e = EvDeleteSynchro g \/
  (exists gvr, gvr ∈ fanout M g /\
     e = EvUpdateSyncCondition gvr ResourceSyncStatusStop "SynchroRemoved"
           "the resource synchro is moved").

Definition cleanEvent (w : World) (cluster : string)
    (M : gmap GroupVersionResource (gset GroupVersionResource))
    (g : GroupVersionResource) (e : Event) : Prop :=
  e = EvCleanClusterResource cluster g \/
  (exists gvr message, gvr ∈ fanout M g /\
     CleanClusterResource w cluster g <> nilError /\
     e = EvUpdateSyncCondition gvr ResourceSyncStatusStop "CleanResourceFailed" message).

Definition refreshEvent (w : World) (s : ClusterSynchro) (e : Event) : Prop :=
  (exists rs, e = EvNegotiateSyncResources rs) \/
  (exists g, is_Some (refreshPlan w s !! g) /\ storageResourceSynchros s !! g = None /\
             createEvent (refreshFanout w s) g e) \/
  (exists g, refreshPlan w s !! g = None /\ closeEvent (refreshFanout w s) g e) \/
  (exists g, refreshPlan w s !! g = None /\ cleanEvent w (name s) (refreshFanout w s) g e) \/
  (exists gvr, e = EvDeleteVersion gvr).

(** [s'] is [s] with more calls in its trace, all of them in [P]. *)
Definition extends (P : Event -> Prop) (s s' : ClusterSynchro) : Prop :=
  exists evs, trace s' = trace s ++ evs /\ Forall P evs.

(** The condition filed under a triple, if the status is set and has one. *)
Definition statusAt (s : ClusterSynchro) (gvr : GroupVersionResource)
  : option ClusterResourceSyncCondition :=
  groupResourceStatus s ≫= (fun grs => grs !! gvr).

(** The states a refresh passes through: after the negotiation and the
    store of the merged status, after the first loop, after the second loop
    (with the way it ended), after the third loop (with the deleted set it
    leaves and the way it ended). *)
Definition refreshNegotiated (w : World) (s : ClusterSynchro) : ClusterSynchro :=
  match syncResources s with
  | Some rs =>
      set_groupResourceStatus (Some (refreshMerged w s).1)
        (emit (EvNegotiateSyncResources rs) s)
  | None => s
  end.

Definition refreshCreated (w : World) (s : ClusterSynchro) : ClusterSynchro :=
  foldl (createSynchro w (refreshFanout w s)) (refreshNegotiated w s)
        (map_to_list (refreshPlan w s)).

Definition refreshClosed (w : World) (s : ClusterSynchro) : ClusterSynchro * RefreshExit :=
  closeSynchros w (refreshFanout w s)
    (filter (fun storageGVR => refreshPlan w s !! storageGVR = None)
            (map_to_list (storageResourceSynchros (refreshCreated w s))).*1)
    (refreshCreated w s).

Definition refreshCleaned (w : World) (s : ClusterSynchro)
  : ClusterSynchro * gset GroupVersionResource * RefreshExit :=
  cleanResources w (refreshFanout w s) (refreshPlan w s)
    (map_to_list (storageResourceVersions (refreshClosed w s).1)).*1
    (refreshMerged w s).2 (refreshClosed w s).1.

(** ** The rest of the file: definitions *)

(** The configuration [New] hands to [newHealthChecker]: a copy of [config],
    with a dialer of its own when the feature gate is on. *)
Definition checkerConfig (d : Deps) (config : RestConfig) : RestConfig :=
  if HealthCheckerWithStandaloneTCP d
  then {| Host := Host config; Dial := Some (30, 30) |}
  else config.

(** The errors of the five constructors [New] calls, in the order of the
    calls. *)
Definition constructorErrors (d : Deps) (name : string) (config : RestConfig)
  : list error :=
  [ NewDynamicDiscoveryManager d name config;
    (GetResourceVersions d name).2;
    NewDynamicListerWatcherFactory d config;
    newHealthChecker d (checkerConfig d config);
    NewForConfig d config ].

(** The wake-up channel as [New] makes it and as it stays. *)
Definition wakeOK (s : ClusterSynchro) : Prop :=
  chan_cap (setSyncResourcesCh s) = 1 /\ chan_len (setSyncResourcesCh s) <= 1 /\
  chan_closed (setSyncResourcesCh s) = false.

Definition isRefresh (l : Label) : bool :=
  match l with LRefresh _ => true | _ => false end.

Definition isWakeup (l : Label) : bool :=
  match l with LSetResources _ _ | LResourceMutation => true | _ => false end.

(** ** One plan entry in the first loop of the refresh *)

(** The entry the first loop makes for a storage GVR that has no
    watermarks, and the watermarks it reads for a storage GVR. *)
Definition freshResourceVersions : ClusterResourceVersions :=
  {| Resources := Some ∅; Events := Some ∅ |}.

Definition watermarksFor (s : ClusterSynchro) (storageGVR : GroupVersionResource)
  : ClusterResourceVersions :=
  default freshResourceVersions (storageResourceVersions s !! storageGVR).

(** The synchro the first loop registers for a plan entry that has none:
    the one [NewResourceSynchro] returns, if both constructors succeed. *)
Definition plannedSynchro (w : World) (s : ClusterSynchro)
    (storageGVR : GroupVersionResource) (config : ResourceSyncConfig) : option Synchro :=
  let '(resourceStorage, err) := NewResourceStorage w (resourceStorageConfig config) in
  if decide (err ≠ nilError) then None
  else
    let cfg := synchroConfig s config (watermarksFor s storageGVR) resourceStorage in
    let '(synchro, err) := NewResourceSynchro w (name s) cfg in
    if decide (err ≠ nilError) then None else Some synchro.

(** The watermark entry of a planned storage GVR after the first loop: the
    entry it had, or the fresh one made once the resource storage of a plan
    entry without synchro is built. *)
Definition plannedVersions (w : World) (s : ClusterSynchro)
    (storageGVR : GroupVersionResource) (config : ResourceSyncConfig)
  : option ClusterResourceVersions :=
  match storageResourceVersions s !! storageGVR with
  | Some rvs => Some rvs
  | None =>
      match storageResourceSynchros s !! storageGVR with
      | Some _ => None
      | None =>
          if decide ((NewResourceStorage w (resourceStorageConfig config)).2 = nilError)
          then Some freshResourceVersions else None
      end
  end.

(** The calls the first loop makes for a plan entry that has no synchro. *)
Definition creationCalls (w : World)
    (M : gmap GroupVersionResource (gset GroupVersionResource))
    (s : ClusterSynchro) (storageGVR : GroupVersionResource) (config : ResourceSyncConfig)
  : list Event :=
  let '(resourceStorage, err) := NewResourceStorage w (resourceStorageConfig config) in
  EvNewResourceStorage storageGVR (resourceStorageConfig config) ::
  if decide (err ≠ nilError)
  then updateEvents ResourceSyncStatusPending "SynchroCreateFailed"
         (fmt_Sprintf "new resource storage failed" err) (elements (fanout M storageGVR))
  else
    let cfg := synchroConfig s config (watermarksFor s storageGVR) resourceStorage in
    EvNewResourceSynchro storageGVR cfg ::
    let '(synchro, err) := NewResourceSynchro w (name s) cfg in
    if decide (err ≠ nilError)
    then updateEvents ResourceSyncStatusPending "SynchroCreateFailed"
           (fmt_Sprintf "new resource synchro failed" err) (elements (fanout M storageGVR))
    else
      [EvSynchroRun storageGVR; EvStoreSynchro storageGVR] ++
      updateEvents ResourceSyncStatusUnknown "" "" (elements (fanout M storageGVR)) ++
      match handlerStopCh s with
      | Some ch => if chan_closed ch then [] else [EvSynchroStart storageGVR]
      | None => []
      end.

(** Whether the runner holds a [handlerStopCh] that is not closed. *)
Definition handlerOpen (s : ClusterSynchro) : bool :=
  match handlerStopCh s with
  | Some ch => negb (chan_closed ch)
  | None => false
  end.

(** A storage GVR for which this refresh builds a synchro: it is in the
    plan, it has no synchro, and both constructors succeed. *)
Definition created (w : World) (s : ClusterSynchro) (storageGVR : GroupVersionResource)
  : Prop :=
  exists config synchro,
    refreshPlan w s !! storageGVR = Some config /\
    storageResourceSynchros s !! storageGVR = None /\
    plannedSynchro w s storageGVR config = Some synchro.

(** The status, reason and message the first loop writes into the
    conditions of a plan entry that has no synchro. *)
Definition creationStatus (w : World) (s : ClusterSynchro)
    (storageGVR : GroupVersionResource) (config : ResourceSyncConfig)
  : string * string * string :=
  let '(resourceStorage, err) := NewResourceStorage w (resourceStorageConfig config) in
  if decide (err ≠ nilError)
  then (ResourceSyncStatusPending, "SynchroCreateFailed",
        fmt_Sprintf "new resource storage failed" err)
  else
    let cfg := synchroConfig s config (watermarksFor s storageGVR) resourceStorage in
    let '(synchro, err) := NewResourceSynchro w (name s) cfg in
    if decide (err ≠ nilError)
    then (ResourceSyncStatusPending, "SynchroCreateFailed",
          fmt_Sprintf "new resource synchro failed" err)
    else (ResourceSyncStatusUnknown, "", "").

(** The calls of the first loop over a list of plan entries. *)
Definition pendingCalls (w : World)
    (M : gmap GroupVersionResource (gset GroupVersionResource))
    (s : ClusterSynchro) (l : list (GroupVersionResource * ResourceSyncConfig))
  : list Event :=
  concat (map (fun e =>
                 match storageResourceSynchros s !! e.1 with
                 | Some _ => []
                 | None => creationCalls w M s e.1 e.2
                 end) l).

(** The calls one refresh makes. *)
Definition refreshCalls (w : World) (s : ClusterSynchro) : list Event :=
  drop (length (trace s)) (trace (refreshSyncResources w s)).

(** The calls a refresh makes when it neither starts nor stops anything:
    the negotiation, constructor calls, and updates of the status. *)
Definition quietEvent (e : Event) : Prop :=
  match e with
  | EvNegotiateSyncResources _ | EvNewResourceStorage _ _ | EvNewResourceSynchro _ _
  | EvUpdateSyncCondition _ _ _ _ | EvDeleteVersion _ => True
  | _ => False
  end.

Definition isSynchroRun (e : Event) : bool :=
  match e with EvSynchroRun _ => true | _ => false end.

(** The calls of the second and third loop and of the final deletions. *)
Definition tailEvent (e : Event) : Prop :=
  match e with
  | EvSynchroClose _ | EvDeleteSynchro _ | EvUpdateSyncCondition _ _ _ _
  | EvCleanClusterResource _ _ | EvDeleteVersion _ => True
  | _ => False
  end.

Definition runsIn (evs : list Event) : nat :=
  length (filter (fun e => isSynchroRun e = true) evs).

(** ** The sync conditions of a cluster status *)

(** The conditions of a status in the order they are listed, each with the
    group and resource it is listed under. *)
Definition conditionsOf (statuses : list ClusterGroupResourcesStatus)
  : list (GroupResource * ClusterResourceSyncCondition) :=
  concat (map (fun g =>
    concat (map (fun r =>
      map (fun c => (GR (grpGroup g) (resName r), c)) (SyncConditions r))
      (grpResources g))) statuses).

(** ** The last publication of [Shutdown] *)

(** A status whose running condition is the terminal one stored at [now]
    has been handed to the status updater. *)
Definition publishedShutdown (now : metav1_Time) (s : ClusterSynchro) : Prop :=
  exists cluster status,
    EvUpdateClusterStatus cluster status ∈ trace s /\
    head (Conditions status) = Some (shutdownCondition now).

(** [closed] is closed only once the status channel is closed and empty. *)
Definition drained (s : ClusterSynchro) : Prop :=
  chan_closed (closed s) = true ->
  chan_closed (updateStatusCh s) = true /\ chan_len (updateStatusCh s) = 0.

(** From the store of the terminal condition by the call at index [i] on:
    the condition stays, and once that call is past [updateStatus] a
    notification is pending or the terminal status has been published. *)
Definition pastStore (now : metav1_Time) (s : ClusterSynchro) (c : ShutdownCall) : Prop :=
  match sdPC c with
  | AtUpdateStatus => True
  | AtCloseStatusCh | AtClosed | AtReturn =>
      1 <= chan_len (updateStatusCh s) \/ publishedShutdown now s
  | _ => False
  end.

Definition flushing (now : metav1_Time) (i : nat) (sys : System) : Prop :=
  runningCondition (synchro sys) = shutdownCondition now /\
  exists c,
    shutdowns sys !! i = Some c /\ sdOwner c = true /\ sdUpdateStatus c = true /\
    pastStore now (synchro sys) c.

(** ** [GetMetricsWriterList] *)

Definition MetricsWriter : Type := string.

(** [GetMetricsWriterList]: the named result starts as the nil slice and
    gets the writer of every registered synchro whose [GetMetricsWriter()]
    is not nil.  What that method returns for the synchro stored under a
    storage GVR is the argument [GetMetricsWriter]. *)
Definition GetMetricsWriterList
    (GetMetricsWriter : GroupVersionResource -> Synchro -> option MetricsWriter)
    (s : ClusterSynchro) : option (list MetricsWriter) :=
  foldl (fun writers kv =>
           match GetMetricsWriter kv.1 kv.2 with
           | Some writer => Some (default [] writers ++ [writer])
           | None => writers
           end)
        None (map_to_list (storageResourceSynchros s)).

(** ** The report of the goroutine that [Shutdown] spawns *)

(** The body of the [Range] in the goroutine that the once function of
    [Shutdown] spawns: a synchro whose status is Stop with an empty reason
    is counted as shut down; any other is listed, as group/version/resource,
    under the key made of its status, its reason and its stage. *)
Definition reportSynchro (acc : nat * gmap string (list string))
    (kv : GroupVersionResource * Synchro) : nat * gmap string (list string) :=
  let '(shutdownCount, statuses) := acc in
  let status := synchroStatus kv.2 in
  if decide (condStatus status = ResourceSyncStatusStop /\ condReason status = "")
  then (S shutdownCount, statuses)
  else
    let sr := condStatus status +:+ "," +:+ condReason status +:+ "," +:+ synchroStage kv.2 in
    let msg := Group kv.1 +:+ "/" +:+ Version kv.1 +:+ "/" +:+ Resource kv.1 in
    (shutdownCount, <[sr := default [] (statuses !! sr) ++ [msg]]> statuses).

(** What one round of that goroutine logs: [shutdownCount] and [statuses]. *)
Definition shutdownBlockReport (s : ClusterSynchro) : nat * gmap string (list string) :=
  foldl reportSynchro (0, ∅) (map_to_list (storageResourceSynchros s)).

(** A synchro that the report counts as shut down. *)
Definition stopped (synchro : Synchro) : Prop :=
  condStatus (synchroStatus synchro) = ResourceSyncStatusStop /\
  condReason (synchroStatus synchro) = "".

(** The number of synchros listed in [statuses]. *)
Definition listed (statuses : gmap string (list string)) : nat :=
  map_fold (fun _ l n => length l + n) 0 statuses.

(** ** The runner, [startRunner] and [stopRunner] *)

(** [startRunner] and [stopRunner] replace the channels [startRunnerCh] and
    [stopRunnerCh] while the runner and the goroutine it spawns may be parked
    on the channels they read earlier, so these channels are kept in a store
    and the two fields hold addresses.  A channel that is never sent to is
    ready to receive exactly when it is closed. *)
Definition closedAt (chans : list Chan) (a : nat) : bool :=
  match chans !! a with
  | Some ch => chan_closed ch
  | None => false
  end.

(** [close(ch)] for the channel at an address. *)
Definition closeAt (chans : list Chan) (a : nat) : outcome (list Chan) :=
  match chans !! a with
  | Some ch =>
      match chan_close ch with
      | Next ch' => Next (<[a := ch']> chans)
      | _ => Panic
      end
  | None => Panic
  end.

(** Where the goroutine running [runner] stands: not started, at the top
    of the loop, parked in the first [select] on the start channel it read,
    at the second [select], before the locked block, at
    [<-s.handlerStopCh], or returned. *)
Inductive RunnerPC : Type :=
| RNotStarted | RTop | RAwaitStart (a : nat) | RCheckStop | RBegin | RAwaitHandler
| RReturned.

#[global] Instance RunnerPC_eq_dec : EqDecision RunnerPC.
Proof. solve_decision. Defined.

(** Where a goroutine spawned in the locked block stands: before its
    [select], parked in it on the stop channel it read, before
    [close(s.handlerStopCh)], or done. *)
Inductive WatcherPC : Type :=
| WStart | WWait (a : nat) | WClose | WDone.

#[global] Instance WatcherPC_eq_dec : EqDecision WatcherPC.
Proof. solve_decision. Defined.

(** Where the goroutine that calls [startRunner] and [stopRunner] stands:
    outside these methods, or between the two [select]s of one of them. *)
Inductive SwitchPC : Type :=
| SIdle | SStarting | SStopping.

#[global] Instance SwitchPC_eq_dec : EqDecision SwitchPC.
Proof. solve_decision. Defined.

(** The synchro with its goroutines, the channels of the runner, and the
    number of calls of [dynamicDiscovery.Start]. *)
Record RunnerSystem : Type := {
  base : System;
  chans : list Chan;
  startRunnerCh : nat;
  stopRunnerCh : nat;
  runnerPC : RunnerPC;
  watchers : list WatcherPC;
  switchPC : SwitchPC;
  discoveryStarts : nat
}.

Definition set_base (v : System) (r : RunnerSystem) : RunnerSystem :=
  {| base := v; chans := chans r; startRunnerCh := startRunnerCh r;
     stopRunnerCh := stopRunnerCh r; runnerPC := runnerPC r; watchers := watchers r;
     switchPC := switchPC r; discoveryStarts := discoveryStarts r |}.

Definition set_runnerPC (v : RunnerPC) (r : RunnerSystem) : RunnerSystem :=
  {| base := base r; chans := chans r; startRunnerCh := startRunnerCh r;
     stopRunnerCh := stopRunnerCh r; runnerPC := v; watchers := watchers r;
     switchPC := switchPC r; discoveryStarts := discoveryStarts r |}.

Definition set_watchers (v : list WatcherPC) (r : RunnerSystem) : RunnerSystem :=
  {| base := base r; chans := chans r; startRunnerCh := startRunnerCh r;
     stopRunnerCh := stopRunnerCh r; runnerPC := runnerPC r; watchers := v;
     switchPC := switchPC r; discoveryStarts := discoveryStarts r |}.

Definition set_switchPC (v : SwitchPC) (r : RunnerSystem) : RunnerSystem :=
  {| base := base r; chans := chans r; startRunnerCh := startRunnerCh r;
     stopRunnerCh := stopRunnerCh r; runnerPC := runnerPC r; watchers := watchers r;
     switchPC := v; discoveryStarts := discoveryStarts r |}.

Definition set_synchro (v : ClusterSynchro) (r : RunnerSystem) : RunnerSystem :=
  set_base {| synchro := v; shutdowns := shutdowns (base r) |} r.

(** The first [select] of [startRunner]: a closed stop channel is replaced
    by a new one. *)
Definition startRunner_reset (r : RunnerSystem) : RunnerSystem :=
  if closedAt (chans r) (stopRunnerCh r)
  then {| base := base r; chans := chans r ++ [make_chan 0];
          startRunnerCh := startRunnerCh r; stopRunnerCh := length (chans r);
          runnerPC := runnerPC r; watchers := watchers r;
          switchPC := switchPC r; discoveryStarts := discoveryStarts r |}
  else r.

(** The second [select] of [startRunner]: the start channel is closed
    unless it is closed already. *)
Definition startRunner_close (r : RunnerSystem) : outcome RunnerSystem :=
  if closedAt (chans r) (startRunnerCh r) then Next r
  else
    match closeAt (chans r) (startRunnerCh r) with
    | Next chans' =>
        Next {| base := base r; chans := chans';
                startRunnerCh := startRunnerCh r; stopRunnerCh := stopRunnerCh r;
                runnerPC := runnerPC r; watchers := watchers r;
                switchPC := switchPC r; discoveryStarts := discoveryStarts r |}
    | _ => Panic
    end.

Definition startRunner (r : RunnerSystem) : outcome RunnerSystem :=
  startRunner_close (startRunner_reset r).

(** [stopRunner], the same with the two channels exchanged. *)
Definition stopRunner_reset (r : RunnerSystem) : RunnerSystem :=
  if closedAt (chans r) (startRunnerCh r)
  then {| base := base r; chans := chans r ++ [make_chan 0];
          startRunnerCh := length (chans r); stopRunnerCh := stopRunnerCh r;
          runnerPC := runnerPC r; watchers := watchers r;
          switchPC := switchPC r; discoveryStarts := discoveryStarts r |}
  else r.

Definition stopRunner_close (r : RunnerSystem) : outcome RunnerSystem :=
  if closedAt (chans r) (stopRunnerCh r) then Next r
  else
    match closeAt (chans r) (stopRunnerCh r) with
    | Next chans' =>
        Next {| base := base r; chans := chans';
                startRunnerCh := startRunnerCh r; stopRunnerCh := stopRunnerCh r;
                runnerPC := runnerPC r; watchers := watchers r;
                switchPC := switchPC r; discoveryStarts := discoveryStarts r |}
    | _ => Panic
    end.

Definition stopRunner (r : RunnerSystem) : outcome RunnerSystem :=
  stopRunner_close (stopRunner_reset r).

(** A [select] with two receive cases: the case that is taken when the
    first, the second or both are ready ([first] settles the choice Go makes
    at random), or none. *)
Definition select2 (first : bool) (ready1 ready2 : bool) : option bool :=
  match ready1, ready2 with
  | true, true => Some first
  | true, false => Some true
  | false, true => Some false
  | false, false => None
  end.

(** The locked block of [runner]: a new [handlerStopCh], the goroutine that
    will close it, the discovery manager and every registered synchro
    started with it. *)
Definition beginRound (r : RunnerSystem) : RunnerSystem :=
  let s := synchro (base r) in
  let s := set_handlerStopCh (Some (make_chan 0)) s in
  let s := foldl (fun s kv => emit (EvSynchroStart kv.1) s) s
             (map_to_list (storageResourceSynchros s)) in
  {| base := {| synchro := s; shutdowns := shutdowns (base r) |};
     chans := chans r; startRunnerCh := startRunnerCh r; stopRunnerCh := stopRunnerCh r;
     runnerPC := RAwaitHandler; watchers := watchers r ++ [WStart];
     switchPC := switchPC r; discoveryStarts := S (discoveryStarts r) |}.

(** One step of the goroutine running [runner]. *)
Definition runner (first : bool) (r : RunnerSystem) : outcome RunnerSystem :=
  let s := synchro (base r) in
  match runnerPC r with
  | RNotStarted => Blocked
  | RTop => Next (set_runnerPC (RAwaitStart (startRunnerCh r)) r)
  | RAwaitStart a =>
      match select2 first (closedAt (chans r) a) (chan_closed (closer s)) with
      | Some true => Next (set_runnerPC RCheckStop r)
      | Some false => Next (set_runnerPC RReturned r)
      | None => Blocked
      end
  | RCheckStop =>
      match select2 first (closedAt (chans r) (stopRunnerCh r)) (chan_closed (closer s)) with
      | Some true => Next (set_runnerPC RTop r)
      | Some false => Next (set_runnerPC RReturned r)
      | None => Next (set_runnerPC RBegin r)
      end
  | RBegin => Next (beginRound r)
  | RAwaitHandler =>
      match handlerStopCh s with
      | Some ch => if chan_closed ch then Next (set_runnerPC RTop r) else Blocked
      | None => Blocked
      end
  | RReturned => Blocked
  end.

(** One step of the [i]-th goroutine spawned in the locked block. *)
Definition watcher (i : nat) (r : RunnerSystem) : outcome RunnerSystem :=
  let s := synchro (base r) in
  match watchers r !! i with
  | Some WStart => Next (set_watchers (<[i := WWait (stopRunnerCh r)]> (watchers r)) r)
  | Some (WWait a) =>
      if chan_closed (closer s) || closedAt (chans r) a
      then Next (set_watchers (<[i := WClose]> (watchers r)) r)
      else Blocked
  | Some WClose =>
      match handlerStopCh s with
      | Some ch =>
          match chan_close ch with
          | Next ch' =>
              Next (set_watchers (<[i := WDone]> (watchers r))
                      (set_synchro (set_handlerStopCh (Some ch') s) r))
          | _ => Panic
          end
      | None => Panic
      end
  | Some WDone | None => Blocked
  end.

(** The steps of the system: a step of the synchro's other goroutines ([Run]
    starts the runner; a second call of [Run], which would start a second
    runner, is outside this system), the two halves of a call of
    [startRunner] or [stopRunner] by the one goroutine that calls them, a
    step of the runner, a step of a goroutine it spawned. *)
Inductive RLabel : Type :=
| REnv (l : Label)
| RStartRunner
| RStopRunner
| RSwitch
| RRunner (first : bool)
| RWatcher (i : nat).

Definition rstep (l : RLabel) (r : RunnerSystem) : outcome RunnerSystem :=
  match l with
  | REnv l =>
      match step l (base r) with
      | Some sys' =>
          if isRun l
          then match runnerPC r with
               | RNotStarted => Next (set_runnerPC RTop (set_base sys' r))
               | _ => Blocked
               end
          else Next (set_base sys' r)
      | None => Blocked
      end
  | RStartRunner =>
      match switchPC r with
      | SIdle => Next (set_switchPC SStarting (startRunner_reset r))
      | _ => Blocked
      end
  | RStopRunner =>
      match switchPC r with
      | SIdle => Next (set_switchPC SStopping (stopRunner_reset r))
      | _ => Blocked
      end
  | RSwitch =>
      match switchPC r with
      | SIdle => Blocked
      | SStarting =>
          match startRunner_close r with
          | Next r' => Next (set_switchPC SIdle r')
          | o => o
          end
      | SStopping =>
          match stopRunner_close r with
          | Next r' => Next (set_switchPC SIdle r')
          | o => o
          end
      end
  | RRunner first => runner first r
  | RWatcher i => watcher i r
  end.

Fixpoint rrun (ls : list RLabel) (r : RunnerSystem) : option RunnerSystem :=
  match ls with
  | [] => Some r
  | l :: ls' =>
      match rstep l r with
      | Next r' => rrun ls' r'
      | _ => None
      end
  end.

(** The system as [New] leaves it, and the systems a run leads to. *)
Definition rinitial (r : RunnerSystem) : Prop :=
  initial (base r) /\
  chans r = [make_chan 0; make_chan 0] /\ startRunnerCh r = 0 /\ stopRunnerCh r = 1 /\
  runnerPC r = RNotStarted /\ watchers r = [] /\ switchPC r = SIdle /\
  discoveryStarts r = 0.

Definition rreachable (r : RunnerSystem) : Prop :=
  exists ls r0, rinitial r0 /\ rrun ls r0 = Some r.

(** The goroutines spawned in the locked block that have not finished. *)
Definition liveWatchers (r : RunnerSystem) : list WatcherPC :=
  filter (fun w => w <> WDone) (watchers r).

(** The steps of the runner and of the goroutines it spawned. *)
Definition ofRunner (l : RLabel) : Prop :=
  match l with
  | RRunner _ | RWatcher _ => True
  | _ => False
  end.

(** The two fields hold the addresses of two different channels. *)
Definition switchOK (r : RunnerSystem) : Prop :=
  startRunnerCh r < length (chans r) /\ stopRunnerCh r < length (chans r) /\
  startRunnerCh r <> stopRunnerCh r.

(** [r'] is [r] up to the channels of the runner, and no channel that was
    closed in [r] is open in [r']. *)
Definition sameGoroutines (r r' : RunnerSystem) : Prop :=
  base r' = base r /\ runnerPC r' = runnerPC r /\ watchers r' = watchers r /\
  switchPC r' = switchPC r /\ discoveryStarts r' = discoveryStarts r /\
  forall a, closedAt (chans r) a = true -> closedAt (chans r') a = true.

(** What holds of the runner in every system a run leads to: it has
    returned only if the closer is closed; while it is parked at
    [<-s.handlerStopCh] the channel is open and one spawned goroutine is
    still to close it, or it is closed and none is left; anywhere else no
    spawned goroutine is left and [handlerStopCh] is nil or closed; each
    round started the discovery manager once. *)
Definition runnerOK (r : RunnerSystem) : Prop :=
  let s := synchro (base r) in
  switchOK r /\
  (runnerPC r = RReturned -> chan_closed (closer s) = true) /\
  match runnerPC r with
  | RAwaitHandler =>
      exists ch, handlerStopCh s = Some ch /\
        length (liveWatchers r) = if chan_closed ch then 0 else 1
  | RNotStarted => handlerStopCh s = None /\ watchers r = []
  | _ =>
      length (liveWatchers r) = 0 /\
      forall ch, handlerStopCh s = Some ch -> chan_closed ch = true
  end /\
  discoveryStarts r = length (watchers r).

(** ** Further concrete inputs *)

Module Cases.

(** A call of [Shutdown] on a synchro whose [Run] was never called: the once
    function runs to its end and the call parks at [<-s.closed]. *)
Definition shutdownBeforeRun : list Label :=
  [ LUpdateStatus; LShutdownCall false; LShutdown 0 3; LShutdown 0 3; LShutdown 0 3;
    LShutdown 0 3; LShutdown 0 3 ].

Definition shutdownUnrun : System :=
  Eval vm_compute in default Scenario.system0 (run shutdownBeforeRun Scenario.system0).

(** Two sync GVRs stored under one storage GVR whose synchro can be built. *)
Definition cronjobsFine : World :=
  Scenario.world
    {[ Scenario.cronjobs := Scenario.pending Scenario.cronjobs Scenario.cronjobs;
       Scenario.cronjobs_v1beta1 :=
         Scenario.pending Scenario.cronjobs_v1beta1 Scenario.cronjobs ]}
    {[ Scenario.cronjobs := Scenario.planEntry Scenario.cronjobs true ]} [] [] true.

(** The same synchro while the runner holds an open [handlerStopCh]. *)
Definition wantsCronjobsRunning : ClusterSynchro :=
  set_handlerStopCh (Some (make_chan 0)) Scenario.wantsCronjobs.

(** The synchro of [New] is asked to sync deployments and their events;
    its watermark map holds the entry loaded for deployments. *)
Definition wantsDeployments : ClusterSynchro :=
  set_syncResources
    (Some [ {| cgrGroup := "apps"; cgrVersions := ["v1"];
               cgrResources := ["deployments"] |} ])
    Scenario.c1.

Definition resumeDeployments : World :=
  Scenario.world
    {[ Scenario.deployments := Scenario.pending Scenario.deployments Scenario.deployments ]}
    {[ Scenario.deployments := Scenario.planEntry Scenario.deployments true ]} [] [] true.

(** The run of [Scenario.shutdownTwice] up to the point where the first
    call is about to store the terminal condition, and the rest of it. *)
Definition beforeStore : list Label :=
  [ LRun 2; LUpdateStatus; LShutdownCall true; LShutdown 0 3; LWorkerDone; LWorkerDone;
    LShutdown 0 3 ].

Definition afterStore : list Label :=
  [ LShutdown 0 3; LShutdown 0 3; LShutdownCall false; LShutdown 1 4;
    LStatusLoop (Scenario.podsOnly [] true); LStatusLoop (Scenario.podsOnly [] true);
    LShutdown 1 4; LShutdown 0 4 ].

Definition storing : System :=
  Eval vm_compute in default Scenario.system0 (run beforeStore Scenario.system0).

(** As [Scenario.deps], but the storage layer fails to load the watermarks
    with an error it marks as recoverable. *)
Definition depsStorageDown : Deps :=
  {| NewDynamicDiscoveryManager := fun _ _ => nilError;
     GetResourceVersions := fun _ => (∅, NewRecoverableException Scenario.refused);
     NewDynamicListerWatcherFactory := fun _ => nilError;
     HealthCheckerWithStandaloneTCP := false;
     newHealthChecker := fun _ => nilError;
     NewForConfig := fun _ => nilError;
     storageIsSynchroFactory := false;
     clock := 1 |}.

(** The synchro of [New] with the channels of its runner. *)
Definition runner0 : RunnerSystem :=
  {| base := Scenario.system0; chans := [make_chan 0; make_chan 0];
     startRunnerCh := 0; stopRunnerCh := 1; runnerPC := RNotStarted; watchers := [];
     switchPC := SIdle; discoveryStarts := 0 |}.

(** [Run], [startRunner], a round of the runner, then [Shutdown] closes the
    closer while the runner is parked at [<-s.handlerStopCh]. *)
Definition roundThenShutdown : list RLabel :=
  [ REnv (LRun 2); RStartRunner; RSwitch; RRunner true; RRunner true; RRunner true;
    RRunner true; RWatcher 0; REnv (LShutdownCall true); REnv (LShutdown 0 3) ].

Definition parkedInRound : RunnerSystem :=
  Eval vm_compute in default runner0 (rrun roundThenShutdown runner0).

End Cases.

(** * Proofs *)

(** ** Error markers *)

Lemma IsRecoverableException_true_inv (e : error) :
  IsRecoverableException e = true -> exists inner, e = storageRecoverableExceptionError inner.
Proof. destruct e; simpl; intros H; try discriminate. eauto. Qed.

(** C9: an error made by [NewRecoverableException] passes
    [IsRecoverableException]; the test fails exactly on the values that are
    not a [storageRecoverableExceptionError] themselves; and the wrapper
    reports the message of the error it wraps, so the test cannot be one on
    the message. *)
Theorem IsRecoverableException_by_marker (e : error) :
  IsRecoverableException (NewRecoverableException e) = true /\
  (IsRecoverableException e = false <->
     forall inner, e <> storageRecoverableExceptionError inner) /\
  Error (NewRecoverableException e) = Error e.
Proof.
  split; [reflexivity|]. split; [|reflexivity]. split.
  - intros Hf inner ->. discriminate.
  - intros Hne. destruct (IsRecoverableException e) eqn:Ht; [|reflexivity].
    apply IsRecoverableException_true_inv in Ht as [inner ->].
    by destruct (Hne inner).
Qed.

(** ** The constructor *)

(** Every error [New] returns passes the assertion to [RetryableError]. *)
Lemma New_error_retryable d name config syncConfig e :
  New d name config syncConfig = (None, e) -> assertRetryableError e = true.
Proof.
  unfold New. intros H.
  repeat (case_decide; [by inversion H|]).
  destruct (GetResourceVersions d name) as [rvs err].
  repeat (case_decide; [by inversion H|]).
  discriminate.
Qed.

(** C5, at the failing input: when only the lister-watcher factory fails,
    [New] returns an error that passes the type assertion to
    [RetryableError], as the error for a failed discovery manager does. *)
Theorem New_plain_error_is_retryable :
  exists plain marked,
    New Scenario.depsListWatchFails "c1" Scenario.restConfig Scenario.clusterSyncConfig
      = (None, plain) /\
    New Scenario.depsDiscoveryFails "c1" Scenario.restConfig Scenario.clusterSyncConfig
      = (None, marked) /\
    Unwrap plain = Scenario.refused /\ Unwrap marked = Scenario.refused /\
    assertRetryableError plain = true /\
    assertRetryableError marked = true.
Proof. do 2 eexists. repeat split; reflexivity. Qed.

(** ** The loops of the refresh in closed form *)

Lemma foldl_callUpdateSyncCondition status reason message l s :
  foldl (callUpdateSyncCondition status reason message) s l =
  set_trace (trace s ++ updateEvents status reason message l)
    (set_groupResourceStatus
       (updateAll status reason message l <$> groupResourceStatus s) s).
Proof.
  revert s. induction l as [|gvr l IH]; intros s.
  - destruct s as [? ? ? ? ? ? ? ? ? ? ? ? ? ? ? grs ? ? ? ?]; simpl.
    unfold set_trace, set_groupResourceStatus; simpl.
    rewrite app_nil_r. by destruct grs.
  - simpl. rewrite IH. unfold callUpdateSyncCondition, emit, set_trace, set_groupResourceStatus.
    simpl. rewrite <- app_assoc. simpl. by destruct (groupResourceStatus s).
Qed.

Lemma updateSyncConditions_eq M g status reason message s :
  updateSyncConditions M g status reason message s =
  set_trace (trace s ++ updateEvents status reason message (elements (default ∅ (M !! g))))
    (set_groupResourceStatus
       (updateAll status reason message (elements (default ∅ (M !! g)))
          <$> groupResourceStatus s) s).
Proof. apply foldl_callUpdateSyncCondition. Qed.

Lemma foldl_callDeleteVersion l s :
  foldl callDeleteVersion s l =
  set_trace (trace s ++ map EvDeleteVersion l)
    (set_groupResourceStatus (deleteAll l <$> groupResourceStatus s) s).
Proof.
  revert s. induction l as [|gvr l IH]; intros s.
  - destruct s as [? ? ? ? ? ? ? ? ? ? ? ? ? ? ? grs ? ? ? ?]; simpl.
    unfold set_trace, set_groupResourceStatus; simpl.
    rewrite app_nil_r. by destruct grs.
  - simpl. rewrite IH. unfold callDeleteVersion, emit, set_trace, set_groupResourceStatus.
    simpl. rewrite <- app_assoc. simpl. by destruct (groupResourceStatus s).
Qed.

(** ** What a refresh leaves alone *)

Lemma frame_createSynchro w M s e : frame (createSynchro w M s e) = frame s.
Proof.
  unfold createSynchro, startSynchro, ensureResourceVersions.
  repeat (case_match || case_decide); simplify_eq; rewrite ?updateSyncConditions_eq; reflexivity.
Qed.

Lemma frame_foldl {A} (f : ClusterSynchro -> A -> ClusterSynchro) (l : list A) s :
  (forall s a, frame (f s a) = frame s) -> frame (foldl f s l) = frame s.
Proof.
  intros Hf. revert s. induction l as [|a l IH]; intros s; simpl; [done|].
  by rewrite IH, Hf.
Qed.

Lemma frame_closeSynchros w M l s : frame (closeSynchros w M l s).1 = frame s.
Proof.
  revert s. induction l as [|g l IH]; intros s; simpl; [done|].
  repeat case_match; simpl; rewrite ?IH, ?updateSyncConditions_eq; done.
Qed.

Lemma frame_cleanResources w M plan l deleted s :
  frame (cleanResources w M plan l deleted s).1.1 = frame s.
Proof.
  revert deleted s. induction l as [|g l IH]; intros deleted s; simpl; [done|].
  repeat (case_match || case_decide); simpl; rewrite ?IH, ?updateSyncConditions_eq; done.
Qed.

Lemma frame_refreshSyncResources w s : frame (refreshSyncResources w s) = frame s.
Proof.
  unfold refreshSyncResources, refreshSyncResources_exit.
  destruct (syncResources s) as [rs|] eqn:Hrs; [|done].
  destruct (NegotiateSyncResources _ _ _) as [status plan].
  destruct (Merge _ _) as [merged deleted].
  set (M := GetStorageGVRToSyncGVRs merged).
  set (s1 := foldl _ _ _).
  assert (frame s1 = frame s) as H1.
  { unfold s1. rewrite frame_foldl by (intros; apply frame_createSynchro). reflexivity. }
  pose proof (frame_closeSynchros w M
    (filter (fun g => plan !! g = None) (map_to_list (storageResourceSynchros s1)).*1) s1) as H2.
  destruct (closeSynchros _ _ _ _) as [s2 exit2]. simpl in H2.
  pose proof (frame_cleanResources w M plan (map_to_list (storageResourceVersions s2)).*1
                deleted s2) as H3.
  destruct (cleanResources _ _ _ _ _ _) as [[s3 deleted3] exit3]. simpl in H3.
  destruct exit2, exit3; simpl; rewrite ?foldl_callDeleteVersion;
    unfold frame in *; simpl in *; congruence.
Qed.

(** ** Runs *)

(** An invariant of the steps whose labels satisfy [Q] holds after a run of
    such labels. *)
Lemma run_invariant (Q : Label -> Prop) (P : System -> Prop) :
  (forall l a b, Q l -> P a -> step l a = Some b -> P b) ->
  forall ls sys sys', Forall Q ls -> P sys -> run ls sys = Some sys' -> P sys'.
Proof.
  intros Hstep ls. induction ls as [|l ls IH]; intros sys sys' HQ HP Hrun; simpl in Hrun.
  - by simplify_eq.
  - inversion HQ; subst. destruct (step l sys) as [sys1|] eqn:Hs; [|done].
    eapply (IH sys1); [done| |done]. eapply Hstep; eauto.
Qed.

Lemma reachable_invariant (P : System -> Prop) :
  (forall sys, initial sys -> P sys) ->
  (forall l a b, P a -> step l a = Some b -> P b) ->
  forall sys, reachable sys -> P sys.
Proof.
  intros Hinit Hstep sys (ls & sys0 & H0 & Hrun).
  eapply (run_invariant (fun _ => True) P); [| |by apply Hinit|exact Hrun].
  - intros; eapply Hstep; eauto.
  - by apply Forall_true.
Qed.

(** ** The state [New] returns *)

Lemma frame_versions_foldl_init l s :
  frame_versions
    (foldl (fun s (e : GroupVersionResource * ClusterResourceVersions) =>
              set_storageResourceVersions
                (<[e.1 := initResourceVersions e.2]> (storageResourceVersions s)) s) s l)
  = frame_versions s.
Proof. revert s. induction l as [|e l IH]; intros s; simpl; [done|]. by rewrite IH. Qed.

Lemma frame_versions_init rvs s :
  frame_versions (initWithResourceVersions rvs s) = frame_versions s.
Proof.
  unfold initWithResourceVersions. case_decide; [done|]. apply frame_versions_foldl_init.
Qed.

Lemma initResourceVersions_initialised rvs : initialised (initResourceVersions rvs).
Proof. destruct rvs as [[?|] [?|]]; split; simpl; eauto. Qed.

Lemma foldl_init_lookup l s g x :
  storageResourceVersions
    (foldl (fun s (e : GroupVersionResource * ClusterResourceVersions) =>
              set_storageResourceVersions
                (<[e.1 := initResourceVersions e.2]> (storageResourceVersions s)) s) s l)
    !! g = Some x ->
  (exists rvs, (g, rvs) ∈ l /\ x = initResourceVersions rvs) \/
  storageResourceVersions s !! g = Some x.
Proof.
  revert s. induction l as [|[g' r] l IH]; intros s H; simpl in *; [by right|].
  apply IH in H as [(rvs & Hin & ->)|H].
  - left. exists rvs. split; [by right|done].
  - simpl in H. destruct (decide (g' = g)) as [->|Hne].
    + rewrite lookup_insert_eq in H. simplify_eq. left. eexists; split; [by left|done].
    + rewrite lookup_insert_ne in H by done. by right.
Qed.

Lemma initWithResourceVersions_initialised rvs s :
  watermarksInitialised s -> watermarksInitialised (initWithResourceVersions rvs s).
Proof.
  intros Hs g x. unfold initWithResourceVersions. case_decide; [apply Hs|].
  intros [(r & _ & ->)|Hold]%foldl_init_lookup.
  - apply initResourceVersions_initialised.
  - by eapply Hs.
Qed.

Lemma foldl_init_lookup_other l s g :
  g ∉ l.*1 ->
  storageResourceVersions
    (foldl (fun s (e : GroupVersionResource * ClusterResourceVersions) =>
              set_storageResourceVersions
                (<[e.1 := initResourceVersions e.2]> (storageResourceVersions s)) s) s l)
    !! g = storageResourceVersions s !! g.
Proof.
  revert s. induction l as [|[g' r'] l IH]; intros s Hn; simpl in *; [done|].
  apply not_elem_of_cons in Hn as [Hne Hn]. rewrite IH by done. simpl.
  by rewrite lookup_insert_ne.
Qed.

(** [initWithResourceVersions] files every loaded entry, with nil submaps
    replaced by empty ones. *)
Lemma initWithResourceVersions_lookup rvs s g r :
  rvs !! g = Some r ->
  storageResourceVersions (initWithResourceVersions rvs s) !! g
    = Some (initResourceVersions r).
Proof.
  intros Hg. unfold initWithResourceVersions. case_decide as Hsz.
  { apply map_size_empty_iff in Hsz. subst. by rewrite lookup_empty in Hg. }
  apply elem_of_map_to_list in Hg.
  pose proof (NoDup_fst_map_to_list rvs) as Hnd.
  revert s Hg Hnd. generalize (map_to_list rvs). clear Hsz.
  intros l. induction l as [|[g' r'] l IH]; intros s Hin Hnd; [by apply elem_of_nil in Hin|].
  simpl in *. apply NoDup_cons in Hnd as [Hnotin Hnd].
  apply elem_of_cons in Hin as [Heq|Hin].
  - inversion Heq; subst g' r'. rewrite foldl_init_lookup_other by done.
    simpl. apply lookup_insert_eq.
  - by apply IH.
Qed.

Lemma New_Some d n config syncConfig s e :
  New d n config syncConfig = (Some s, e) ->
  e = nilError /\
  exists rvs s0,
    s = initWithResourceVersions rvs s0 /\
    (GetResourceVersions d n).1 = rvs /\
    storageResourceVersions s0 = ∅ /\ storageResourceSynchros s0 = ∅ /\
    syncResources s0 = None /\ groupResourceStatus s0 = None /\
    closeOnce s0 = OnceFresh /\ closer s0 = make_chan 0 /\ closed s0 = make_chan 0 /\
    updateStatusCh s0 = make_chan 1 /\ statusLoops s0 = 0 /\ trace s0 = [].
Proof.
  unfold New. intros H.
  repeat (case_decide; [by inversion H|]).
  destruct (GetResourceVersions d n) as [rvs err].
  repeat (case_decide; [by inversion H|]).
  inversion H; subst. split; [done|]. do 2 eexists. split; [reflexivity|]. simpl.
  repeat split; reflexivity.
Qed.

Ltac new_inv H rvs s0 :=
  let F := fresh "F" in
  apply New_Some in H as (_ & rvs & s0 & -> & _ & ? & ? & ? & ? & ? & ? & ? & ? & ? & ?);
  pose proof (frame_versions_init rvs s0) as F;
  unfold frame_versions, frame in F; simplify_eq.

Ltac refresh_frame w s :=
  let F := fresh "F" in
  pose proof (frame_refreshSyncResources w s) as F;
  unfold frame in F; simpl in F; simplify_eq.

Ltac refresh_frame_goal :=
  match goal with
  | |- context [refreshSyncResources ?w ?s] => refresh_frame w s
  end.

Ltac step_unfold :=
  unfold step, with_synchro, SetResources, resetSyncResources, updateStatus, statusLoop,
    Shutdown, chan_try_send, chan_recv, chan_close in *.

Ltac step_inv H :=
  step_unfold; simpl in H;
  repeat (first [case_match | case_decide]; simplify_eq; step_unfold);
  simplify_eq; simpl in *.

(** ** Before any resources are set *)

Lemma refresh_nil w s :
  syncResources s = None -> refreshSyncResources_exit w s = (s, Returned).
Proof. unfold refreshSyncResources_exit. by intros ->. Qed.

Lemma no_resources_invariant ls sys :
  reachable_by ls sys -> Forall (fun l => ~ storesResources l) ls ->
  syncResources (synchro sys) = None /\ groupResourceStatus (synchro sys) = None.
Proof.
  intros (sys0 & (d & n & cfg & sc & s & HNew & ->) & Hrun) Hls.
  eapply (run_invariant (fun l => ~ storesResources l)
            (fun sys => syncResources (synchro sys) = None /\
                        groupResourceStatus (synchro sys) = None)); [| |  |exact Hrun]; eauto.
  - clear. intros l a b Hl [Hs Hg] Hstep.
    destruct l as [rs all| |w|now| |w| |g new|u|i now]; step_inv Hstep; try done.
    + destruct rs; [by destruct Hl|done].
    + destruct rs; [by destruct Hl|done].
    + unfold refreshSyncResources. rewrite refresh_nil by done. done.
  - simpl. new_inv HNew rvs s0. split; congruence.
Qed.

(** C10: as long as [SetResources] has not stored a non-nil resource list,
    a refresh returns at once and leaves the synchro (registry, watermarks,
    status, trace of calls) as it was, and [genClusterStatus] reports the
    running and healthy conditions and no sync resources. *)
Theorem refresh_before_resources_is_noop (ls : list Label) (sys : System) (w : World) :
  reachable_by ls sys ->
  Forall (fun l => ~ storesResources l) ls ->
  refreshSyncResources_exit w (synchro sys) = (synchro sys, Returned) /\
  groupResourceStatus (synchro sys) = None /\
  genClusterStatus w (synchro sys) =
    {| csVersion := ServerVersion w;
       Conditions := [runningCondition (synchro sys); healthyCondition (synchro sys)];
       SyncResources := [] |}.
Proof.
  intros Hreach Hls.
  destruct (no_resources_invariant ls sys Hreach Hls) as [Hs Hg].
  split; [by apply refresh_nil|]. split; [done|].
  unfold genClusterStatus. by rewrite Hg.
Qed.

Lemma refresh_before_resources_is_noop_witness :
  refreshSyncResources_exit (Scenario.podsOnly [] true) Scenario.c1
    = (Scenario.c1, Returned) /\
  groupResourceStatus Scenario.c1 = None /\
  genClusterStatus (Scenario.podsOnly [] true) Scenario.c1 =
    {| csVersion := "v1.30.0";
       Conditions := [runningCondition Scenario.c1; healthyCondition Scenario.c1];
       SyncResources := [] |}.
Proof.
  apply (refresh_before_resources_is_noop [] Scenario.system0).
  - exists Scenario.system0. split; [|reflexivity].
    exists Scenario.deps, "c1", Scenario.restConfig, Scenario.clusterSyncConfig, Scenario.c1.
    split; [vm_compute; reflexivity|reflexivity].
  - constructor.
Defined.

(** ** The status channel *)

Lemma set_updateStatusCh_id s : set_updateStatusCh (updateStatusCh s) s = s.
Proof. by destruct s. Qed.

Lemma statusChOK_step l a b :
  statusChOK (synchro a) -> step l a = Some b -> statusChOK (synchro b).
Proof.
  unfold statusChOK. intros [Hcap Hlen] Hstep.
  destruct l as [rs all| |w|now| |w| |g new|u|i now]; step_inv Hstep;
    try (split; simpl; lia); try done.
  refresh_frame_goal.
  split; congruence.
Qed.

Lemma statusLoops_step l a b :
  step l a = Some b ->
  statusLoops (synchro b) <= (if isRun l then 1 else 0) + statusLoops (synchro a).
Proof.
  intros Hstep.
  destruct l as [rs all| |w|now| |w| |g new|u|i now]; step_inv Hstep; try lia.
  refresh_frame_goal.
  lia.
Qed.

Lemma statusLoops_run ls a b :
  run ls a = Some b ->
  statusLoops (synchro b) <= length (filter (fun l => isRun l = true) ls) + statusLoops (synchro a).
Proof.
  revert a. induction ls as [|l ls IH]; intros a Hrun; simpl in Hrun.
  - simplify_eq. simpl. lia.
  - destruct (step l a) as [a1|] eqn:Hs; [|done].
    apply IH in Hrun. apply statusLoops_step in Hs.
    rewrite filter_cons. destruct (decide (isRun l = true)) as [E|E].
    + rewrite E in Hs. simpl. lia.
    + apply not_true_is_false in E. rewrite E in Hs. simpl in *. lia.
Qed.

Lemma statusChOK_reachable sys : reachable sys -> statusChOK (synchro sys).
Proof.
  apply (reachable_invariant (fun sys => statusChOK (synchro sys))).
  - intros sys0 (d & n & cfg & sc & s0 & HNew & ->). simpl.
    new_inv HNew rvs s1. unfold statusChOK.
    replace (updateStatusCh (initWithResourceVersions rvs s1)) with (make_chan 1)
      by congruence.
    simpl; lia.
  - intros; eapply statusChOK_step; eauto.
Qed.

(** C8: in every reachable system the status channel has capacity one and
    holds at most one notification; [updateStatus] never parks, and with a
    notification pending it leaves the synchro as it is; each turn of the
    status goroutine either takes one notification and makes one call of
    [UpdateClusterStatus], or ends the loop without a call; and only [Run]
    spawns such goroutines, one per call. *)
Theorem status_channel_single_slot (ls : list Label) (sys : System) :
  reachable_by ls sys ->
  let s := synchro sys in
  chan_cap (updateStatusCh s) = 1 /\
  chan_len (updateStatusCh s) <= 1 /\
  updateStatus s <> Blocked /\
  (chan_closed (updateStatusCh s) = false ->
     exists s', updateStatus s = Next s' /\ chan_len (updateStatusCh s') = 1 /\
                (chan_len (updateStatusCh s) = 1 -> s' = s)) /\
  (forall w s', statusLoop w s = Next s' ->
     (chan_len (updateStatusCh s) = 1 /\ chan_len (updateStatusCh s') = 0 /\
      exists status, trace s' = trace s ++ [EvUpdateClusterStatus (name s) status]) \/
     (chan_len (updateStatusCh s) = 0 /\ chan_closed (updateStatusCh s) = true /\
      trace s' = trace s /\ statusLoops s = S (statusLoops s'))) /\
  statusLoops s <= length (filter (fun l => isRun l = true) ls) /\
  (forall now, statusLoops (Run now s) = S (statusLoops s)).
Proof.
  intros (sys0 & Hinit & Hrun) s.
  assert (statusChOK s) as [Hcap Hlen].
  { apply statusChOK_reachable. exists ls, sys0. done. }
  split; [done|]. split; [done|].
  split; [|split; [|split; [|split]]].
  - unfold updateStatus, chan_try_send. repeat (case_match || case_decide); congruence.
  - intros Hopen. unfold updateStatus, chan_try_send. rewrite Hopen.
    case_decide as Hlt.
    + eexists; split; [reflexivity|]. simpl. split; [lia|]. intros; lia.
    + eexists; split; [reflexivity|]. rewrite set_updateStatusCh_id.
      split; [lia|done].
  - intros w s' Hloop. unfold statusLoop, chan_recv, chan_close in Hloop.
    destruct (statusLoops s) as [|n] eqn:Hn; [done|].
    destruct (chan_len (updateStatusCh s)) as [|m] eqn:Hm.
    + destruct (chan_closed (updateStatusCh s)) eqn:Hc; [|done].
      destruct (chan_closed (closed s)); [done|]. simplify_eq. by right.
    + simplify_eq. left. split; [lia|]. simpl. split; [lia|]. eexists. reflexivity.
  - apply statusLoops_run in Hrun.
    destruct Hinit as (d & n & cfg & sc & s0 & HNew & ->). simpl in Hrun.
    new_inv HNew rvs s1. subst s.
    replace (statusLoops (initWithResourceVersions rvs s1)) with 0 in Hrun by congruence.
    lia.
  - reflexivity.
Qed.

Lemma status_channel_single_slot_witness :
  chan_cap (updateStatusCh (synchro Scenario.notifiedTwice)) = 1 /\
  chan_len (updateStatusCh (synchro Scenario.notifiedTwice)) <= 1.
Proof.
  destruct (status_channel_single_slot [LRun 2; LUpdateStatus; LUpdateStatus]
              Scenario.notifiedTwice) as (Hcap & Hlen & _).
  - exists Scenario.system0. split; [|vm_compute; reflexivity].
    exists Scenario.deps, "c1", Scenario.restConfig, Scenario.clusterSyncConfig, Scenario.c1.
    split; [vm_compute; reflexivity|reflexivity].
  - split; [exact Hcap|exact Hlen].
Defined.

(** ** Shutdown *)

Lemma callOK_mono s s' c :
  closeOnce s' = closeOnce s ->
  (chan_closed (closed s) = true -> chan_closed (closed s') = true) ->
  callOK s c -> callOK s' c.
Proof.
  unfold callOK. intros -> Hc. destruct (sdPC c); try done. intros [? ?]; auto.
Qed.

(** The steps of the goroutines other than the callers of [Shutdown]. *)
Lemma lifecycle_other l a b :
  (forall i now, l <> LShutdown i now) -> (forall u, l <> LShutdownCall u) ->
  step l a = Some b ->
  shutdowns b = shutdowns a /\
  closeOnce (synchro b) = closeOnce (synchro a) /\
  chan_closed (closer (synchro b)) = chan_closed (closer (synchro a)) /\
  chan_closed (updateStatusCh (synchro b)) = chan_closed (updateStatusCh (synchro a)) /\
  chan_len (closed (synchro b)) = chan_len (closed (synchro a)) /\
  (chan_closed (closed (synchro b)) = chan_closed (closed (synchro a)) \/
   chan_closed (closed (synchro b)) = true /\
   chan_closed (updateStatusCh (synchro a)) = true).
Proof.
  intros Hl1 Hl2 Hstep.
  destruct l as [rs all| |w|now| |w| |g new|u|i now];
    try (by destruct (Hl1 i now)); try (by destruct (Hl2 u)); clear Hl1 Hl2.
  all: step_inv Hstep; try naive_solver.
  refresh_frame_goal.
  repeat match goal with H : _ = _ |- _ => rewrite H end. naive_solver.
Qed.

Lemma shutdownOK_other l a b :
  (forall i now, l <> LShutdown i now) -> (forall u, l <> LShutdownCall u) ->
  lifecycleOK (synchro a) -> step l a = Some b ->
  shutdowns b = shutdowns a /\
  closeOnce (synchro b) = closeOnce (synchro a) /\
  lifecycleOK (synchro b) /\
  (chan_closed (closed (synchro a)) = true -> chan_closed (closed (synchro b)) = true).
Proof.
  intros Hl1 Hl2 Hlc Hstep.
  destruct (lifecycle_other l a b Hl1 Hl2 Hstep) as (Hs & Ho & Hcr & Hch & Hlen & Hcl).
  split; [done|]. split; [done|]. unfold lifecycleOK in *.
  rewrite Ho, Hcr, Hch, Hlen.
  destruct Hcl as [Hcl|[Hcl Hx]]; [rewrite Hcl; tauto|].
  rewrite Hcl. rewrite Hx in Hlc.
  destruct (closeOnce (synchro a)); destruct Hlc as [Hlc ?]; [by destruct Hlc as (_ & ? & _)..|].
  tauto.
Qed.

Lemma oneOwner_app_fresh calls u :
  oneOwner calls ->
  oneOwner (calls ++ [ {| sdUpdateStatus := u; sdOwner := false; sdPC := AtOnce |} ]).
Proof.
  intros H i j c c' Hi Hj Hc Hc'.
  apply lookup_app_Some in Hi as [Hi|[_ Hi]]; last first.
  { apply list_lookup_singleton_Some in Hi as [_ <-]. done. }
  apply lookup_app_Some in Hj as [Hj|[_ Hj]]; last first.
  { apply list_lookup_singleton_Some in Hj as [_ <-]. done. }
  eauto.
Qed.

Lemma oneOwner_insert_same calls i c c' :
  oneOwner calls -> calls !! i = Some c -> sdOwner c' = sdOwner c ->
  oneOwner (<[i := c']> calls).
Proof.
  intros H Hi Ho j k d d' Hj Hk Hd Hd'.
  destruct (decide (j = i)) as [->|Hji], (decide (k = i)) as [->|Hki]; [done| | |].
  - rewrite list_lookup_insert_eq in Hj by (by eapply lookup_lt_Some).
    rewrite list_lookup_insert_ne in Hk by done. simplify_eq.
    eapply H; eauto; congruence.
  - rewrite list_lookup_insert_eq in Hk by (by eapply lookup_lt_Some).
    rewrite list_lookup_insert_ne in Hj by done. simplify_eq.
    eapply H; eauto; congruence.
  - rewrite list_lookup_insert_ne in Hj, Hk by done. eauto.
Qed.

Lemma shutdownOK_step l a b : shutdownOK a -> step l a = Some b -> shutdownOK b.
Proof.
  intros (Hlc & Hcalls & Hone) Hstep.
  assert ((forall i now, l <> LShutdown i now) -> (forall u, l <> LShutdownCall u) ->
          shutdownOK b) as Hother.
  { intros Hn1 Hn2.
    destruct (shutdownOK_other l a b) as (Hs & Ho & Hlc' & Hcl); eauto.
    split; [done|]. rewrite Hs. split; [|done].
    eapply Forall_impl; [exact Hcalls|]. intros c. by apply callOK_mono. }
  destruct l as [rs all| |w|now0| |w| |g new|u|i now];
    try (apply Hother; intros; discriminate); clear Hother.
  { simpl in Hstep. simplify_eq. split; [done|]. simpl. split.
    - apply Forall_app. split; [done|]. by repeat constructor.
    - by apply oneOwner_app_fresh. }
  simpl in Hstep.
  destruct (shutdowns a !! i) as [c|] eqn:Hi; [|done].
  destruct (Shutdown now c (synchro a)) as [[c' s']| |] eqn:Hsd; [|done|done].
  simplify_eq.
  pose proof (proj1 (Forall_lookup _ _) Hcalls) as Hall.
  pose proof (Hall i c Hi) as Hc.
  assert (i < length (shutdowns a)) as Hlt by (by eapply lookup_lt_Some).
  unfold shutdownOK, lifecycleOK, Shutdown, updateStatus, chan_close, chan_try_send, chan_recv
    in *. simpl.
  destruct (sdPC c) eqn:Hpc; unfold callOK in Hc; rewrite Hpc in Hc.
  - (* closeOnce.Do *)
    destruct (closeOnce (synchro a)) eqn:Honce; [|done|].
    + destruct Hlc as ((Hcloser & Hch & Hcl) & Hlen). rewrite Hcloser in Hsd. simplify_eq.
      simpl. split; [done|].
      assert (forall j d, shutdowns a !! j = Some d -> sdPC d = AtOnce /\ sdOwner d = false)
        as Hfresh.
      { intros j d Hj. specialize (Hall j d Hj). unfold callOK in Hall.
        rewrite Honce in Hall. destruct (sdPC d); try done; by destruct Hall. }
      split.
      * apply Forall_lookup. intros j d Hj.
        destruct (decide (j = i)) as [->|Hne].
        -- rewrite list_lookup_insert_eq in Hj by done. simplify_eq. by unfold callOK.
        -- rewrite list_lookup_insert_ne in Hj by done.
           destruct (Hfresh j d Hj) as [Hd1 Hd2]. unfold callOK. by rewrite Hd1.
      * intros j k d d' Hj Hk Hd Hd'.
        destruct (decide (j = i)) as [->|Hji], (decide (k = i)) as [->|Hki]; [done| | |].
        -- rewrite list_lookup_insert_ne in Hk by done.
           destruct (Hfresh k d' Hk); congruence.
        -- rewrite list_lookup_insert_ne in Hj by done.
           destruct (Hfresh j d Hj); congruence.
        -- rewrite list_lookup_insert_ne in Hj by done.
           destruct (Hfresh j d Hj); congruence.
    + simplify_eq. rewrite Honce. split; [done|]. split.
      * apply Forall_insert; [done|]. by unfold callOK.
      * by eapply oneOwner_insert_same.
  - (* waitGroup.Wait() *)
    case_decide; simplify_eq. split; [done|]. split.
    + apply Forall_insert; [done|]. by unfold callOK.
    + by eapply oneOwner_insert_same.
  - (* the store of the running condition *)
    simplify_eq. simpl. split; [done|]. split.
    + apply Forall_insert; [|by unfold callOK].
      eapply Forall_impl; [exact Hcalls|]. intros d. by apply callOK_mono.
    + by eapply oneOwner_insert_same.
  - (* if updateStatus *)
    destruct Hc as [Hown Honce]. rewrite Honce in Hlc.
    destruct Hlc as ((Hcloser & Hch & Hcl) & Hlen).
    rewrite Hch in Hsd.
    assert (closeOnce s' = OnceRunning /\ chan_closed (closer s') = true /\
            chan_closed (updateStatusCh s') = false /\ closed s' = closed (synchro a) /\
            c' = at_pc AtCloseStatusCh c) as (Ho' & ? & ? & Hcl' & ->).
    { repeat (case_match || case_decide); simplify_eq; simpl; done. }
    rewrite Ho', Hcl'. split; [done|]. split.
    + apply Forall_insert; [|by unfold callOK].
      eapply Forall_impl; [exact Hcalls|]. intros d.
      apply callOK_mono; [congruence|]. by rewrite Hcl'.
    + by eapply oneOwner_insert_same.
  - (* close(s.updateStatusCh) *)
    destruct Hc as [Hown Honce]. rewrite Honce in Hlc.
    destruct Hlc as ((Hcloser & Hch & Hcl) & Hlen).
    rewrite Hch in Hsd. simplify_eq. simpl. split; [done|]. split.
    + apply Forall_lookup. intros j d Hj.
      destruct (decide (j = i)) as [->|Hne].
      * rewrite list_lookup_insert_eq in Hj by done. simplify_eq. by unfold callOK.
      * rewrite list_lookup_insert_ne in Hj by done.
        specialize (Hall j d Hj). unfold callOK in *. rewrite Honce in Hall. simpl.
        destruct (sdPC d) eqn:Hd; try done; try (by destruct Hall).
        all: destruct Hall as [Hdo _]; destruct Hne; eapply Hone; eauto.
    + by eapply oneOwner_insert_same.
  - (* <-s.closed *)
    rewrite Hc in Hlc. destruct Hlc as ((Hcloser & Hch) & Hlen). rewrite Hlen in Hsd.
    destruct (chan_closed (closed (synchro a))) eqn:Hcl; [|done]. simplify_eq.
    rewrite Hc. split; [done|]. split.
    + apply Forall_insert; [done|]. unfold callOK. simpl. done.
    + by eapply oneOwner_insert_same.
  - done.
Qed.

Lemma shutdownOK_reachable sys : reachable sys -> shutdownOK sys.
Proof.
  apply reachable_invariant.
  - intros sys0 (d & n & cfg & sc & s & HNew & ->). new_inv HNew rvs s1.
    unfold shutdownOK, lifecycleOK, oneOwner. simpl.
    replace (closeOnce (initWithResourceVersions rvs s1)) with OnceFresh by congruence.
    replace (closer (initWithResourceVersions rvs s1)) with (make_chan 0) by congruence.
    replace (closed (initWithResourceVersions rvs s1)) with (make_chan 0) by congruence.
    replace (updateStatusCh (initWithResourceVersions rvs s1)) with (make_chan 1)
      by congruence.
    simpl. repeat split; try done.
  - intros; eapply shutdownOK_step; eauto.
Qed.

(** C1: in every reachable system at most one call of [Shutdown] runs the
    once function; a step of any other call leaves the synchro as it is; the
    call that enters a fresh once, with the wait group drained, closes the
    closer, stores the terminal running condition, publishes if asked, and
    closes the status channel, in five steps; and a call has returned only
    if the once function is done and [closed] is closed. *)
Theorem Shutdown_idempotent (sys : System) :
  reachable sys ->
  let s := synchro sys in
  oneOwner (shutdowns sys) /\
  (forall i now c c' s',
     shutdowns sys !! i = Some c -> Shutdown now c s = Next (c', s') ->
     sdOwner c' = false -> s' = s) /\
  (forall now u,
     closeOnce s = OnceFresh -> waitGroup s = 0 ->
     exists c' s',
       ShutdownSteps 5 now {| sdUpdateStatus := u; sdOwner := false; sdPC := AtOnce |} s
         = Next (c', s') /\
       sdOwner c' = true /\ sdPC c' = AtClosed /\
       closeOnce s' = OnceDone /\
       chan_closed (closer s') = true /\
       runningCondition s' = shutdownCondition now /\
       chan_closed (updateStatusCh s') = true /\
       chan_len (updateStatusCh s') = (if u then 1 else chan_len (updateStatusCh s)) /\
       closed s' = closed s /\ trace s' = trace s) /\
  (forall c, c ∈ shutdowns sys -> returned c ->
     closeOnce s = OnceDone /\ chan_closed (closer s) = true /\
     chan_closed (updateStatusCh s) = true /\ chan_closed (closed s) = true).
Proof.
  intros Hreach.
  pose proof (shutdownOK_reachable sys Hreach) as (Hlc & Hcalls & Hone).
  pose proof (statusChOK_reachable sys Hreach) as [Hcap Hlen].
  clear Hreach. destruct sys as [s calls]. simpl in *.
  split; [done|]. split; [|split].
  - intros i now c c' s' Hi Hsd Hown.
    pose proof (proj1 (Forall_lookup _ _) Hcalls i c Hi) as Hc.
    unfold callOK in Hc.
    unfold Shutdown, updateStatus, chan_try_send, chan_close, chan_recv in Hsd.
    destruct (sdPC c) eqn:Hpc;
      repeat (first [case_match | case_decide]; simplify_eq);
      unfold at_pc in *; simplify_eq; simpl in *;
      try done; try (destruct Hc; congruence).
  - intros now u Honce Hwg. unfold lifecycleOK in Hlc. rewrite Honce in Hlc.
    destruct Hlc as ((Hcloser & Hch & Hcl) & Hl0).
    unfold ShutdownSteps, Shutdown, updateStatus, chan_try_send, chan_close. simpl.
    rewrite Honce, Hcloser. simpl. rewrite Hwg. simpl. rewrite Hch.
    destruct u; simpl.
    + case_decide; simpl; rewrite ?Hch; do 2 eexists;
        (split; [reflexivity|]); simpl; repeat split; try done; lia.
    + rewrite Hch. do 2 eexists. split; [reflexivity|]. simpl. done.
  - intros c Hin Hret. unfold returned in Hret.
    pose proof (proj1 (Forall_forall _ _) Hcalls c Hin) as Hc.
    unfold callOK in Hc. rewrite Hret in Hc. destruct Hc as [Hdone Hclosed].
    unfold lifecycleOK in Hlc. rewrite Hdone in Hlc. tauto.
Qed.

Lemma Shutdown_idempotent_witness :
  closeOnce (synchro Scenario.afterShutdown) = OnceDone /\
  chan_closed (closer (synchro Scenario.afterShutdown)) = true /\
  chan_closed (updateStatusCh (synchro Scenario.afterShutdown)) = true /\
  chan_closed (closed (synchro Scenario.afterShutdown)) = true.
Proof.
  eapply (Shutdown_idempotent Scenario.afterShutdown).
  - exists Scenario.shutdownTwice, Scenario.system0. split; [|vm_compute; reflexivity].
    exists Scenario.deps, "c1", Scenario.restConfig, Scenario.clusterSyncConfig, Scenario.c1.
    split; [vm_compute; reflexivity|reflexivity].
  - apply list_elem_of_here.
  - reflexivity.
Defined.

(** ** The fan-out map and the status updates *)

Lemma fanout_foldr (l : list (GroupVersionResource * ClusterResourceSyncCondition)) k sg :
  k ∈ fanout (foldr recordSyncGVR ∅ l) sg
  <-> exists c, (k, c) ∈ l /\ condStorageGVR c = sg.
Proof.
  unfold fanout. induction l as [|[k' c'] l IH]; simpl.
  - rewrite lookup_empty. simpl. split; [set_solver|]. intros (c & Hin & _).
    by apply elem_of_nil in Hin.
  - unfold recordSyncGVR at 1. unfold StorageGVR. simpl.
    destruct (decide (condStorageGVR c' = sg)) as [<-|Hne].
    + rewrite lookup_insert_eq. simpl. rewrite elem_of_union, elem_of_singleton, IH.
      split.
      * intros [->|(c & Hin & Hc)]; [exists c'; split; [by left|done]|].
        exists c. split; [by right|done].
      * intros (c & [Heq|Hin]%elem_of_cons & Hc); [left; congruence|right; eauto].
    + rewrite lookup_insert_ne by done. rewrite IH. split.
      * intros (c & Hin & Hc). exists c. split; [by right|done].
      * intros (c & [Heq|Hin]%elem_of_cons & Hc); [congruence|eauto].
Qed.

(** A sync GVR is in the fan-out of the storage GVR its condition names. *)
Lemma elem_of_fanout grs k sg :
  k ∈ fanout (GetStorageGVRToSyncGVRs grs) sg
  <-> exists c, grs !! k = Some c /\ condStorageGVR c = sg.
Proof.
  unfold GetStorageGVRToSyncGVRs. rewrite fanout_foldr.
  by setoid_rewrite elem_of_map_to_list.
Qed.

Lemma fanout_disjoint grs k sg sg' :
  k ∈ fanout (GetStorageGVRToSyncGVRs grs) sg ->
  k ∈ fanout (GetStorageGVRToSyncGVRs grs) sg' -> sg = sg'.
Proof.
  rewrite !elem_of_fanout. intros (c & Hc & <-) (c' & Hc' & <-). congruence.
Qed.

Lemma updateAll_lookup status reason message l grs k :
  updateAll status reason message l grs !! k =
  if decide (k ∈ l) then withStatus status reason message <$> grs !! k else grs !! k.
Proof.
  revert grs. induction l as [|g l IH]; intros grs; simpl; [done|].
  rewrite IH. unfold UpdateSyncCondition. rewrite lookup_alter.
  repeat case_decide; simplify_eq; try done;
    try (by destruct (grs !! k)); exfalso;
    repeat match goal with H : _ ∉ _ :: _ |- _ => apply not_elem_of_cons in H as [? ?] end;
    repeat match goal with H : _ ∈ _ :: _ |- _ => apply elem_of_cons in H as [?|?] end;
    congruence.
Qed.

Lemma deleteAll_lookup l grs k :
  deleteAll l grs !! k = if decide (k ∈ l) then None else grs !! k.
Proof.
  revert grs. induction l as [|g l IH]; intros grs; simpl; [done|].
  rewrite IH. unfold DeleteVersion. rewrite lookup_delete.
  repeat case_decide; simplify_eq; try done; exfalso;
    repeat match goal with H : _ ∉ _ :: _ |- _ => apply not_elem_of_cons in H as [? ?] end;
    repeat match goal with H : _ ∈ _ :: _ |- _ => apply elem_of_cons in H as [?|?] end;
    congruence.
Qed.

(** The status after [updateSyncConditions]: the conditions of the fan-out
    get the status, the others stay. *)
Lemma updateSyncConditions_status M g status reason message s :
  groupResourceStatus (updateSyncConditions M g status reason message s) =
  updateAll status reason message (elements (fanout M g)) <$> groupResourceStatus s.
Proof. by rewrite updateSyncConditions_eq. Qed.

(** ** Traces *)

Lemma extends_refl P s : extends P s s.
Proof. exists []. by rewrite app_nil_r. Qed.

Lemma extends_trans P s1 s2 s3 : extends P s1 s2 -> extends P s2 s3 -> extends P s1 s3.
Proof.
  intros (e1 & H1 & F1) (e2 & H2 & F2). exists (e1 ++ e2).
  rewrite H2, H1, app_assoc. split; [done|]. by apply Forall_app.
Qed.

Lemma extends_weaken (P Q : Event -> Prop) s s' :
  (forall e, P e -> Q e) -> extends P s s' -> extends Q s s'.
Proof. intros HPQ (evs & H & F). exists evs. split; [done|]. eapply Forall_impl; eauto. Qed.

Lemma extends_emit (P : Event -> Prop) e s : P e -> extends P s (emit e s).
Proof. intros HP. exists [e]. simpl. split; [done|]. by constructor. Qed.

Lemma extends_same_trace P s s1 s2 :
  extends P s s1 -> trace s2 = trace s1 -> extends P s s2.
Proof. intros (evs & H & F) Ht. exists evs. by rewrite Ht. Qed.

Lemma extends_updateSyncConditions (P : Event -> Prop) M g status reason message s :
  (forall gvr, gvr ∈ fanout M g -> P (EvUpdateSyncCondition gvr status reason message)) ->
  extends P s (updateSyncConditions M g status reason message s).
Proof.
  intros HP. rewrite updateSyncConditions_eq. eexists. split; [reflexivity|].
  unfold updateEvents. apply Forall_fmap, Forall_forall. intros gvr Hin. simpl.
  apply HP. by apply elem_of_elements.
Qed.

Lemma extends_foldl {A} (P : Event -> Prop) (f : ClusterSynchro -> A -> ClusterSynchro) l s :
  (forall s a, a ∈ l -> extends P s (f s a)) -> extends P s (foldl f s l).
Proof.
  revert s. induction l as [|a l IH]; intros s Hf; simpl; [apply extends_refl|].
  eapply extends_trans; [apply Hf; by left|]. apply IH. intros; apply Hf. by right.
Qed.

Lemma extends_set_waitGroup P s s1 v :
  extends P s s1 -> extends P s (set_waitGroup v s1).
Proof. intros H. by eapply extends_same_trace. Qed.

Lemma extends_set_storageResourceSynchros P s s1 v :
  extends P s s1 -> extends P s (set_storageResourceSynchros v s1).
Proof. intros H. by eapply extends_same_trace. Qed.

Lemma extends_set_storageResourceVersions P s s1 v :
  extends P s s1 -> extends P s (set_storageResourceVersions v s1).
Proof. intros H. by eapply extends_same_trace. Qed.

Lemma extends_set_groupResourceStatus P s s1 v :
  extends P s s1 -> extends P s (set_groupResourceStatus v s1).
Proof. intros H. by eapply extends_same_trace. Qed.

(** Peel the calls off a state built by [emit], [updateSyncConditions] and
    field updates; [tac] shows that a call is in the predicate. *)
Ltac peel tac :=
  lazymatch goal with
  | |- extends _ ?s ?s => apply extends_refl
  | |- extends _ _ (emit _ _) =>
      eapply extends_trans; [|apply extends_emit; tac]; peel tac
  | |- extends _ _ (updateSyncConditions _ _ _ _ _ _) =>
      eapply extends_trans; [|apply extends_updateSyncConditions; tac]; peel tac
  | |- extends _ _ (set_waitGroup _ _) => apply extends_set_waitGroup; peel tac
  | |- extends _ _ (set_storageResourceSynchros _ _) =>
      apply extends_set_storageResourceSynchros; peel tac
  | |- extends _ _ (set_storageResourceVersions _ _) =>
      apply extends_set_storageResourceVersions; peel tac
  | |- extends _ _ (set_groupResourceStatus _ _) =>
      apply extends_set_groupResourceStatus; peel tac
  end.

Lemma statusAt_updateSyncConditions M g status reason message s gvr :
  statusAt (updateSyncConditions M g status reason message s) gvr =
  if decide (gvr ∈ fanout M g)
  then withStatus status reason message <$> statusAt s gvr else statusAt s gvr.
Proof.
  unfold statusAt. rewrite updateSyncConditions_status.
  destruct (groupResourceStatus s) as [grs|]; simpl; [|by case_decide].
  rewrite updateAll_lookup. destruct (decide (gvr ∈ fanout M g)).
  - rewrite decide_True; [done|]. by apply elem_of_elements.
  - rewrite decide_False; [done|]. by rewrite elem_of_elements.
Qed.

Lemma conditionIs_statusAt s gvr status reason :
  conditionIs s gvr status reason <->
  exists c, statusAt s gvr = Some c /\ condStatus c = status /\ condReason c = reason.
Proof.
  unfold conditionIs, statusAt. split.
  - intros (grs & c & -> & Hc & ?). exists c. by simpl.
  - intros (c & Hc & ?). destruct (groupResourceStatus s) as [grs|]; [|done].
    exists grs, c. by simpl in Hc.
Qed.

(** ** The first loop: creating synchros *)

Ltac create_cases :=
  unfold createSynchro, startSynchro, ensureResourceVersions; simpl;
  repeat (first [case_match | case_decide]; simplify_eq);
  rewrite ?updateSyncConditions_eq in *; simpl in *.

Lemma createSynchro_registered w M s e syn :
  storageResourceSynchros s !! e.1 = Some syn -> createSynchro w M s e = s.
Proof. unfold createSynchro. by intros ->. Qed.

Lemma createSynchro_registry_other w M s e g :
  g <> e.1 ->
  storageResourceSynchros (createSynchro w M s e) !! g = storageResourceSynchros s !! g.
Proof. intros Hne. create_cases; try done; by rewrite lookup_insert_ne. Qed.

Lemma createSynchro_registry_mono w M s e g syn :
  storageResourceSynchros s !! g = Some syn ->
  storageResourceSynchros (createSynchro w M s e) !! g = Some syn.
Proof.
  intros Hg. destruct (decide (g = e.1)) as [->|Hne].
  - by erewrite createSynchro_registered.
  - by rewrite createSynchro_registry_other.
Qed.

Lemma createSynchro_versions w M s e g x :
  storageResourceVersions (createSynchro w M s e) !! g = Some x ->
  storageResourceVersions s !! g = Some x \/
  g = e.1 /\ x = {| Resources := Some ∅; Events := Some ∅ |}.
Proof.
  create_cases; try (by left).
  all: intros [[-> <-]|[_ ?]]%lookup_insert_Some; [by right|by left].
Qed.

Lemma createSynchro_versions_mono w M s e g x :
  storageResourceVersions s !! g = Some x ->
  storageResourceVersions (createSynchro w M s e) !! g = Some x.
Proof.
  intros Hg. create_cases; try done.
  all: rewrite lookup_insert_ne; [done|congruence].
Qed.

Lemma createSynchro_tracked w M s e g :
  is_Some (storageResourceSynchros (createSynchro w M s e) !! g) ->
  is_Some (storageResourceSynchros s !! g) \/
  is_Some (storageResourceVersions (createSynchro w M s e) !! g).
Proof.
  create_cases; try (by left).
  all: destruct (decide (e.1 = g)) as [<-|Hne];
    [|rewrite lookup_insert_ne by done; by left].
  all: intros _; right; rewrite ?lookup_insert_eq; eauto.
Qed.

Lemma createSynchro_extends w M s e :
  storageResourceSynchros s !! e.1 = None ->
  extends (createEvent M e.1) s (createSynchro w M s e).
Proof.
  intros Hnone. unfold createSynchro, startSynchro, ensureResourceVersions. rewrite Hnone.
  repeat (first [case_match | case_decide]; simplify_eq);
    peel ltac:(first
      [ intros gvr Hin; do 5 right; exists gvr;
        first [ eexists; split; [exact Hin|]; by left
              | exists ""; split; [exact Hin|]; by right ]
      | left; by eexists
      | right; left; by eexists
      | do 2 right; by left
      | do 3 right; by left
      | do 4 right; by left ]).
Qed.

Lemma createSynchro_extends_any (P : Event -> Prop) w M s e :
  (storageResourceSynchros s !! e.1 = None -> forall ev, createEvent M e.1 ev -> P ev) ->
  extends P s (createSynchro w M s e).
Proof.
  intros HP. destruct (storageResourceSynchros s !! e.1) as [syn|] eqn:Hr.
  - erewrite createSynchro_registered by done. apply extends_refl.
  - eapply extends_weaken; [|by apply createSynchro_extends]. by apply HP.
Qed.

Lemma statusAt_createSynchro w M s e gvr :
  gvr ∉ fanout M e.1 -> statusAt (createSynchro w M s e) gvr = statusAt s gvr.
Proof.
  intros Hn. unfold createSynchro, startSynchro, ensureResourceVersions.
  repeat (first [case_match | case_decide]; simplify_eq);
    try done; unfold emit;
    repeat match goal with
    | |- context [statusAt (updateSyncConditions ?M ?g ?a ?b ?c ?s) ?k] =>
        rewrite (statusAt_updateSyncConditions M g a b c s k), decide_False by done
    | |- context [statusAt (set_trace ?t ?s) ?k] =>
        change (statusAt (set_trace t s) k) with (statusAt s k)
    end; done.
Qed.

(** ** The second loop: closing the synchros that left the plan *)

Ltac close_induction l s :=
  revert s; induction l as [|g0 l IH]; intros s; simpl;
  [|destruct (storageResourceSynchros s !! g0) as [syn0|] eqn:Hg0;
    [destruct (closeCompletes _ g0) eqn:Hcc|]].

Lemma closeSynchros_exit w M l s : (closeSynchros w M l s).2 <> Panicked.
Proof. close_induction l s; try done; apply IH. Qed.

Lemma closeSynchros_versions w M l s :
  storageResourceVersions (closeSynchros w M l s).1 = storageResourceVersions s.
Proof.
  close_induction l s; try done; rewrite IH; try done.
  by rewrite updateSyncConditions_eq.
Qed.

Lemma closeSynchros_registry_shrinks w M l s g x :
  storageResourceSynchros (closeSynchros w M l s).1 !! g = Some x ->
  storageResourceSynchros s !! g = Some x.
Proof.
  close_induction l s; try done; intros H%IH; try done.
  rewrite updateSyncConditions_eq in H. simpl in H.
  by apply lookup_delete_Some in H as [_ H].
Qed.

Lemma closeSynchros_registry_other w M l s g :
  g ∉ l ->
  storageResourceSynchros (closeSynchros w M l s).1 !! g = storageResourceSynchros s !! g.
Proof.
  close_induction l s; try done; intros [Hne Hnin]%not_elem_of_cons; rewrite IH by done;
    try done.
  rewrite updateSyncConditions_eq. simpl. by rewrite lookup_delete_ne.
Qed.

Lemma closeSynchros_removed w M l s g :
  (closeSynchros w M l s).2 = Returned -> g ∈ l ->
  storageResourceSynchros (closeSynchros w M l s).1 !! g = None.
Proof.
  close_induction l s.
  - intros _ Hin. by apply elem_of_nil in Hin.
  - intros Hret [->|Hin]%elem_of_cons; [|by apply IH].
    match goal with |- ?X = None => destruct X as [x|] eqn:Hx; [|done] end.
    apply closeSynchros_registry_shrinks in Hx.
    rewrite updateSyncConditions_eq in Hx. simpl in Hx. by rewrite lookup_delete_eq in Hx.
  - done.
  - intros Hret [->|Hin]%elem_of_cons; [|by apply IH].
    match goal with |- ?X = None => destruct X as [x|] eqn:Hx; [|done] end.
    apply closeSynchros_registry_shrinks in Hx. congruence.
Qed.

Lemma closeSynchros_extends w M l s :
  extends (fun e => exists g, g ∈ l /\ closeEvent M g e) s (closeSynchros w M l s).1.
Proof.
  close_induction l s.
  - apply extends_refl.
  - eapply extends_trans; [|eapply extends_weaken; [|apply IH]].
    + peel ltac:(first
        [ intros gvr Hin; exists g0; split; [by left|]; do 2 right; by exists gvr
        | exists g0; split; [by left|]; by left
        | exists g0; split; [by left|]; right; by left ]).
    + intros e (g & Hin & He). exists g. split; [by right|done].
  - simpl. peel ltac:(exists g0; split; [by left|]; by left).
  - eapply extends_weaken; [|apply IH].
    intros e (g & Hin & He). exists g. split; [by right|done].
Qed.

Lemma statusAt_closeSynchros w M l s gvr :
  (forall g, g ∈ l -> gvr ∉ fanout M g) ->
  statusAt (closeSynchros w M l s).1 gvr = statusAt s gvr.
Proof.
  close_induction l s; try done; intros Hn.
  - rewrite IH by (intros; apply Hn; by right).
    change (statusAt (emit ?e ?s) gvr) with (statusAt s gvr).
    change (statusAt (set_storageResourceSynchros ?e ?s) gvr) with (statusAt s gvr).
    rewrite statusAt_updateSyncConditions, decide_False by (apply Hn; by left). done.
  - apply IH. intros; apply Hn; by right.
Qed.

(** A synchro that the loop reaches is closed, its conditions are updated,
    and it is deleted, in this order. *)
Lemma closeSynchros_trace w M l s g syn :
  (closeSynchros w M l s).2 = Returned -> g ∈ l ->
  storageResourceSynchros s !! g = Some syn ->
  closeCompletes w g = true /\
  exists before after,
    trace (closeSynchros w M l s).1 =
      before ++ [EvSynchroClose g] ++
      updateEvents ResourceSyncStatusStop "SynchroRemoved" "the resource synchro is moved"
        (elements (fanout M g)) ++
      [EvDeleteSynchro g] ++ after.
Proof.
  close_induction l s.
  - intros _ Hin. by apply elem_of_nil in Hin.
  - intros Hret Hin Hg. destruct (decide (g = g0)) as [->|Hne].
    + split; [done|].
      destruct (closeSynchros_extends w M l
        (emit (EvDeleteSynchro g0)
           (set_storageResourceSynchros
              (delete g0 (storageResourceSynchros
                 (updateSyncConditions M g0 ResourceSyncStatusStop "SynchroRemoved"
                    "the resource synchro is moved" (emit (EvSynchroClose g0) s))))
              (updateSyncConditions M g0 ResourceSyncStatusStop "SynchroRemoved"
                 "the resource synchro is moved" (emit (EvSynchroClose g0) s)))))
        as (evs & Ht & _).
      rewrite Ht. rewrite updateSyncConditions_eq. simpl.
      exists (trace s), evs. by rewrite <- !app_assoc.
    + apply elem_of_cons in Hin as [?|Hin]; [done|]. apply IH; [done..|].
      rewrite updateSyncConditions_eq. simpl. by rewrite lookup_delete_ne.
  - done.
  - intros Hret Hin Hg. apply elem_of_cons in Hin as [->|Hin]; [congruence|]. by apply IH.
Qed.

(** ** The third loop: cleaning the resources that left the plan *)

Ltac clean_induction l deleted s :=
  revert deleted s; induction l as [|g0 l IH]; intros deleted s; simpl;
  [|destruct (_ !! g0) as [cfg0|] eqn:Hg0;
    [|destruct (decide (CleanClusterResource _ _ g0 = nilError)) as [Hok|Herr];
      [|destruct (Error (CleanClusterResource _ _ g0)) as [msg|] eqn:Hmsg]]].

Lemma cleanResources_exit w M plan l deleted s :
  (cleanResources w M plan l deleted s).2 <> ShutdownObserved.
Proof. clean_induction l deleted s; try done; apply IH. Qed.

Lemma cleanResources_registry w M plan l deleted s :
  storageResourceSynchros (cleanResources w M plan l deleted s).1.1
    = storageResourceSynchros s.
Proof.
  clean_induction l deleted s; try done; rewrite IH; try done.
  by rewrite updateSyncConditions_eq.
Qed.

Lemma cleanResources_versions_shrink w M plan l deleted s g x :
  storageResourceVersions (cleanResources w M plan l deleted s).1.1 !! g = Some x ->
  storageResourceVersions s !! g = Some x.
Proof.
  clean_induction l deleted s; try done; try (intros H%IH; revert H);
    rewrite ?updateSyncConditions_eq; simpl; try done.
  all: by intros [_ ?]%lookup_delete_Some.
Qed.

Lemma cleanResources_versions_planned w M plan l deleted s g :
  is_Some (plan !! g) ->
  storageResourceVersions (cleanResources w M plan l deleted s).1.1 !! g
    = storageResourceVersions s !! g.
Proof.
  intros Hp. clean_induction l deleted s; try done; rewrite ?IH;
    rewrite ?updateSyncConditions_eq; simpl; try done.
  all: apply lookup_delete_ne; intros ->; rewrite Hg0 in Hp; by destruct Hp.
Qed.

Lemma cleanResources_versions_removed w M plan l deleted s g :
  (cleanResources w M plan l deleted s).2 = Returned ->
  g ∈ l -> plan !! g = None ->
  storageResourceVersions (cleanResources w M plan l deleted s).1.1 !! g = None.
Proof.
  intros Hret Hin Hp. revert Hret Hin.
  clean_induction l deleted s; intros Hret Hin.
  - by apply elem_of_nil in Hin.
  - apply elem_of_cons in Hin as [->|Hin]; [congruence|]. by apply IH.
  - apply elem_of_cons in Hin as [->|Hin]; [|by apply IH].
    match goal with |- ?X = None => destruct X as [x|] eqn:Hx; [|done] end.
    apply cleanResources_versions_shrink in Hx. simpl in Hx.
    by rewrite lookup_delete_eq in Hx.
  - apply elem_of_cons in Hin as [->|Hin]; [|by apply IH].
    match goal with |- ?X = None => destruct X as [x|] eqn:Hx; [|done] end.
    apply cleanResources_versions_shrink in Hx. rewrite updateSyncConditions_eq in Hx.
    simpl in Hx. by rewrite lookup_delete_eq in Hx.
  - done.
Qed.

Lemma name_closeSynchros w M l s : name (closeSynchros w M l s).1 = name s.
Proof. pose proof (frame_closeSynchros w M l s) as F. unfold frame in F. by simplify_eq. Qed.

Lemma cleanResources_extends w M plan l deleted s :
  extends (fun e => exists g, g ∈ l /\ plan !! g = None /\ cleanEvent w (name s) M g e)
          s (cleanResources w M plan l deleted s).1.1.
Proof.
  clean_induction l deleted s.
  - apply extends_refl.
  - eapply extends_weaken; [|apply IH].
    intros e (g & Hin & He). exists g. split; [by right|done].
  - eapply extends_trans; [|eapply extends_weaken; [|apply IH]].
    + peel ltac:(exists g0; split; [by left|]; split; [done|]; by left).
    + intros e (g & Hin & He). exists g. split; [by right|done].
  - eapply extends_trans; [|eapply extends_weaken; [|apply IH]].
    + peel ltac:(first
        [ intros gvr Hin; exists g0; split; [by left|]; split; [done|]; right;
          exists gvr, msg; done
        | exists g0; split; [by left|]; split; [done|]; by left ]).
    + rewrite updateSyncConditions_eq. simpl.
      intros e (g & Hin & He). exists g. split; [by right|done].
  - simpl. peel ltac:(exists g0; split; [by left|]; split; [done|]; by left).
Qed.

Lemma statusAt_cleanResources w M plan l deleted s gvr :
  (forall g, g ∈ l -> plan !! g = None -> CleanClusterResource w (name s) g <> nilError ->
             gvr ∉ fanout M g) ->
  statusAt (cleanResources w M plan l deleted s).1.1 gvr = statusAt s gvr.
Proof.
  clean_induction l deleted s; try done; intros Hn.
  - apply IH. intros; apply Hn; try done. by right.
  - rewrite IH; [done|]. intros; apply Hn; try done. by right.
  - rewrite IH.
    + rewrite statusAt_updateSyncConditions, decide_False; [done|].
      apply Hn; [by left|done..].
    + rewrite updateSyncConditions_eq. simpl. intros; apply Hn; try done. by right.
Qed.

Lemma cleanResources_deleted_subseteq w M plan l deleted s :
  (cleanResources w M plan l deleted s).1.2 ⊆ deleted.
Proof.
  clean_induction l deleted s; try done; try apply IH.
  etrans; [apply IH|]. by apply subseteq_difference_l.
Qed.

Lemma cleanResources_deleted_keeps w M plan l deleted s gvr :
  gvr ∈ deleted ->
  (forall g, g ∈ l -> plan !! g = None -> CleanClusterResource w (name s) g <> nilError ->
             gvr ∉ fanout M g) ->
  (cleanResources w M plan l deleted s).2 = Returned ->
  gvr ∈ (cleanResources w M plan l deleted s).1.2.
Proof.
  clean_induction l deleted s; try done; intros Hin Hn Hret.
  - apply IH; try done. intros; apply Hn; try done. by right.
  - apply IH; try done. intros; apply Hn; try done. by right.
  - apply IH; try done.
    + apply elem_of_difference. split; [done|]. apply Hn; [by left|done..].
    + rewrite updateSyncConditions_eq. simpl. intros; apply Hn; try done. by right.
Qed.

Lemma name_updateSyncConditions M g status reason message s :
  name (updateSyncConditions M g status reason message s) = name s.
Proof. by rewrite updateSyncConditions_eq. Qed.

(** A resource whose clean-up fails: the conditions of its fan-out are set,
    and its triples leave the deleted set. *)
Lemma cleanResources_failed w M plan l deleted s cluster g gvr :
  name s = cluster ->
  (cleanResources w M plan l deleted s).2 = Returned ->
  NoDup l -> g ∈ l -> plan !! g = None ->
  CleanClusterResource w cluster g <> nilError ->
  gvr ∈ fanout M g ->
  (forall g', g' <> g -> gvr ∉ fanout M g') ->
  exists message,
    Error (CleanClusterResource w cluster g) = Some message /\
    statusAt (cleanResources w M plan l deleted s).1.1 gvr =
      withStatus ResourceSyncStatusStop "CleanResourceFailed" message <$> statusAt s gvr /\
    gvr ∉ (cleanResources w M plan l deleted s).1.2.
Proof.
  intros Hname Hret Hnd Hin Hp Herr0 Hf Hdis. revert Hname Hret Hnd Hin.
  clean_induction l deleted s; intros Hname Hret Hnd Hin.
  - by apply elem_of_nil in Hin.
  - apply NoDup_cons in Hnd as [Hnotin Hnd].
    apply elem_of_cons in Hin as [->|Hin]; [congruence|]. by apply IH.
  - apply NoDup_cons in Hnd as [Hnotin Hnd].
    apply elem_of_cons in Hin as [->|Hin]; [by subst cluster|].
    match goal with |- context [cleanResources _ _ _ _ ?d ?s0] => by apply (IH d s0) end.
  - apply NoDup_cons in Hnd as [Hnotin Hnd].
    apply elem_of_cons in Hin as [->|Hin].
    + exists msg. split; [by subst cluster|]. split.
      * rewrite statusAt_cleanResources.
        -- rewrite statusAt_updateSyncConditions, decide_True by done. done.
        -- intros g' Hg' _ _. apply Hdis. intros ->. done.
      * intros Hd%cleanResources_deleted_subseteq.
        apply elem_of_difference in Hd as [_ Hd]. by apply Hd.
    + assert (g <> g0) as Hne by (intros ->; done).
      destruct (IH (deleted ∖ default ∅ (M !! g0))
                  (updateSyncConditions M g0 ResourceSyncStatusStop "CleanResourceFailed" msg
                     (emit (EvCleanClusterResource (name s) g0)
                        (set_storageResourceVersions
                           (delete g0 (storageResourceVersions s)) s))))
        as (m & Hm & Hst & Hdel); try done.
      { by rewrite name_updateSyncConditions. }
      exists m. split; [done|].
      split; [|done]. rewrite Hst.
      rewrite statusAt_updateSyncConditions, decide_False; [done|]. apply Hdis. congruence.
  - done.
Qed.

Lemma cleanResources_called w M plan l deleted s g :
  (cleanResources w M plan l deleted s).2 = Returned ->
  g ∈ l -> plan !! g = None ->
  EvCleanClusterResource (name s) g ∈ trace (cleanResources w M plan l deleted s).1.1.
Proof.
  intros Hret Hin Hp. revert Hret Hin.
  clean_induction l deleted s; intros Hret Hin.
  - by apply elem_of_nil in Hin.
  - apply elem_of_cons in Hin as [->|Hin]; [congruence|]. by apply IH.
  - apply elem_of_cons in Hin as [->|Hin];
      [|match goal with |- context [cleanResources _ _ _ _ ?d ?s0] => by apply (IH d s0) end].
    match goal with |- _ ∈ trace (cleanResources ?w ?M ?p ?l ?d ?s0).1.1 =>
      destruct (cleanResources_extends w M p l d s0) as (evs & -> & _) end.
    simpl. set_solver.
  - apply elem_of_cons in Hin as [->|Hin].
    + match goal with |- _ ∈ trace (cleanResources ?w ?M ?p ?l ?d ?s0).1.1 =>
        destruct (cleanResources_extends w M p l d s0) as (evs & -> & _) end.
      rewrite updateSyncConditions_eq. simpl. set_solver.
    + specialize (IH (deleted ∖ default ∅ (M !! g0))
                  (updateSyncConditions M g0 ResourceSyncStatusStop "CleanResourceFailed" msg
                     (emit (EvCleanClusterResource (name s) g0)
                        (set_storageResourceVersions
                           (delete g0 (storageResourceVersions s)) s)))).
      rewrite name_updateSyncConditions in IH. simpl in IH. by apply IH.
  - done.
Qed.

(** ** The refresh as the sequence of its loops *)

Lemma refresh_unfold w s rs :
  syncResources s = Some rs ->
  refreshSyncResources_exit w s =
    if decide ((refreshClosed w s).2 = ShutdownObserved)
    then ((refreshClosed w s).1, ShutdownObserved)
    else if decide ((refreshCleaned w s).2 = Panicked)
         then ((refreshCleaned w s).1.1, Panicked)
         else (foldl callDeleteVersion (refreshCleaned w s).1.1
                 (elements (refreshCleaned w s).1.2), Returned).
Proof.
  intros Hrs.
  unfold refreshSyncResources_exit, refreshCleaned, refreshClosed, refreshCreated,
    refreshNegotiated, refreshFanout, refreshMerged, refreshPlan.
  rewrite Hrs.
  destruct (NegotiateSyncResources _ _ _) as [status plan]. simpl.
  destruct (Merge status (groupResourceStatus s)) as [merged deleted]. simpl.
  destruct (closeSynchros _ _ _ _) as [s2 exit2]. simpl.
  destruct exit2; simpl; try done.
  all: destruct (cleanResources _ _ _ _ _ _) as [[s3 deleted3] exit3]; simpl;
    by destruct exit3.
Qed.

Lemma refresh_exit_cases w s rs :
  syncResources s = Some rs ->
  ((refreshClosed w s).2 = ShutdownObserved /\
   refreshSyncResources_exit w s = ((refreshClosed w s).1, ShutdownObserved)) \/
  ((refreshClosed w s).2 = Returned /\ (refreshCleaned w s).2 = Panicked /\
   refreshSyncResources_exit w s = ((refreshCleaned w s).1.1, Panicked)) \/
  ((refreshClosed w s).2 = Returned /\ (refreshCleaned w s).2 = Returned /\
   refreshSyncResources_exit w s =
     (foldl callDeleteVersion (refreshCleaned w s).1.1 (elements (refreshCleaned w s).1.2),
      Returned)).
Proof.
  intros Hrs. rewrite (refresh_unfold w s rs Hrs).
  pose proof (closeSynchros_exit w (refreshFanout w s)
    (filter (fun g => refreshPlan w s !! g = None)
            (map_to_list (storageResourceSynchros (refreshCreated w s))).*1)
    (refreshCreated w s)) as H2.
  pose proof (cleanResources_exit w (refreshFanout w s) (refreshPlan w s)
    (map_to_list (storageResourceVersions (refreshClosed w s).1)).*1
    (refreshMerged w s).2 (refreshClosed w s).1) as H3.
  fold (refreshClosed w s) in H2. fold (refreshCleaned w s) in H3.
  destruct (refreshClosed w s).2 eqn:E2; try done;
    destruct (refreshCleaned w s).2 eqn:E3; try done; simpl; eauto 10.
Qed.

(** ** The registry and the watermarks through the loops *)

Lemma refreshNegotiated_fields w s :
  storageResourceSynchros (refreshNegotiated w s) = storageResourceSynchros s /\
  storageResourceVersions (refreshNegotiated w s) = storageResourceVersions s /\
  name (refreshNegotiated w s) = name s.
Proof. unfold refreshNegotiated. by destruct (syncResources s). Qed.

Lemma foldl_createSynchro_registry_mono w M l s g syn :
  storageResourceSynchros s !! g = Some syn ->
  storageResourceSynchros (foldl (createSynchro w M) s l) !! g = Some syn.
Proof.
  revert s. induction l as [|e l IH]; intros s H; simpl; [done|].
  by apply IH, createSynchro_registry_mono.
Qed.

Lemma foldl_createSynchro_registry_other w M l s g :
  g ∉ l.*1 ->
  storageResourceSynchros (foldl (createSynchro w M) s l) !! g
    = storageResourceSynchros s !! g.
Proof.
  revert s. induction l as [|e l IH]; intros s H; simpl in *; [done|].
  apply not_elem_of_cons in H as [Hne H]. rewrite IH by done.
  by apply createSynchro_registry_other.
Qed.

Lemma foldl_createSynchro_versions_mono w M l s g x :
  storageResourceVersions s !! g = Some x ->
  storageResourceVersions (foldl (createSynchro w M) s l) !! g = Some x.
Proof.
  revert s. induction l as [|e l IH]; intros s H; simpl; [done|].
  by apply IH, createSynchro_versions_mono.
Qed.

Lemma foldl_createSynchro_invariant w M l s :
  watermarksInitialised s -> registryTracked s ->
  watermarksInitialised (foldl (createSynchro w M) s l) /\
  registryTracked (foldl (createSynchro w M) s l).
Proof.
  revert s. induction l as [|e l IH]; intros s Hw Hr; simpl; [done|].
  apply IH.
  - intros g x [Hx|[_ ->]]%createSynchro_versions; [by eapply Hw|].
    split; simpl; eauto.
  - intros g [Hg|Hg]%createSynchro_tracked; [|done].
    destruct (Hr g Hg) as [x Hx]. exists x. by apply createSynchro_versions_mono.
Qed.

Lemma refreshClosed_registry w s g :
  is_Some (storageResourceSynchros (refreshClosed w s).1 !! g) ->
  (refreshClosed w s).2 = Returned ->
  is_Some (refreshPlan w s !! g).
Proof.
  intros [x Hx] Hret. destruct (refreshPlan w s !! g) as [cfg|] eqn:Hp; [eauto|].
  unfold refreshClosed in *.
  rewrite closeSynchros_removed in Hx; [done..|].
  apply closeSynchros_registry_shrinks in Hx.
  apply list_elem_of_filter. split; [done|].
  apply list_elem_of_fmap. exists (g, x). split; [done|]. by apply elem_of_map_to_list.
Qed.

(** Invariant 1 is kept by a refresh, however the collaborators answer. *)
Lemma refresh_invariant w s :
  watermarksInitialised s -> registryTracked s ->
  watermarksInitialised (refreshSyncResources w s) /\
  registryTracked (refreshSyncResources w s).
Proof.
  intros Hw Hr. unfold refreshSyncResources.
  destruct (syncResources s) as [rs|] eqn:Hrs; [|by rewrite refresh_nil].
  destruct (refreshNegotiated_fields w s) as (HR0 & HV0 & _).
  assert (watermarksInitialised (refreshCreated w s) /\ registryTracked (refreshCreated w s))
    as [Hw1 Hr1].
  { apply foldl_createSynchro_invariant.
    - intros g x. rewrite HV0. apply Hw.
    - intros g. rewrite HR0, HV0. apply Hr. }
  assert (watermarksInitialised (refreshClosed w s).1 /\ registryTracked (refreshClosed w s).1)
    as [Hw2 Hr2].
  { unfold refreshClosed. split.
    - intros g x. rewrite closeSynchros_versions. apply Hw1.
    - intros g [x Hx]. rewrite closeSynchros_versions.
      apply closeSynchros_registry_shrinks in Hx. apply Hr1. eauto. }
  assert ((refreshClosed w s).2 = Returned ->
          watermarksInitialised (refreshCleaned w s).1.1 /\
          registryTracked (refreshCleaned w s).1.1) as H3.
  { intros Hret. unfold refreshCleaned. split.
    - intros g x Hx%cleanResources_versions_shrink. by eapply Hw2.
    - intros g. rewrite cleanResources_registry. intros Hg.
      rewrite cleanResources_versions_planned; [by apply Hr2|].
      by apply refreshClosed_registry. }
  destruct (refresh_exit_cases w s rs Hrs) as [[_ ->]|[(E2 & _ & ->)|(E2 & _ & ->)]]; simpl.
  - done.
  - by apply H3.
  - rewrite foldl_callDeleteVersion. destruct (H3 E2) as [Hw3 Hr3]. split.
    + intros g x. apply Hw3.
    + intros g. apply Hr3.
Qed.

Lemma watermarks_step l a b :
  watermarksInitialised (synchro a) /\ registryTracked (synchro a) ->
  step l a = Some b ->
  watermarksInitialised (synchro b) /\ registryTracked (synchro b).
Proof.
  intros [Hw Hr] Hstep.
  destruct l as [rs all| |w|now| |w| |g new|u|i now]; step_inv Hstep; try done.
  - apply refresh_invariant; done.
  - split; [done|]. intros g' Hg'. apply Hr. unfold set_storageResourceSynchros in Hg'.
    simpl in Hg'. destruct (decide (g = g')) as [->|Hne]; [eauto|].
    by rewrite lookup_insert_ne in Hg'.
Qed.

Lemma watermarks_reachable sys :
  reachable sys ->
  watermarksInitialised (synchro sys) /\ registryTracked (synchro sys).
Proof.
  apply (reachable_invariant
           (fun sys => watermarksInitialised (synchro sys) /\ registryTracked (synchro sys))).
  - intros sys0 (d & n & cfg & sc & s & HNew & ->). simpl.
    apply New_Some in HNew as (_ & rvs & s0 & -> & _ & HV & HR & _).
    pose proof (frame_versions_init rvs s0) as F. unfold frame_versions in F.
    split.
    + apply initWithResourceVersions_initialised. intros g x. by rewrite HV, lookup_empty.
    + intros g [x Hx]. replace (storageResourceSynchros (initWithResourceVersions rvs s0))
        with (storageResourceSynchros s0) in Hx by congruence.
      by rewrite HR, lookup_empty in Hx.
  - intros l a b. apply watermarks_step.
Qed.

(** C2: in every reachable system each storage GVR of the registry has a
    watermark entry with both submaps; [initWithResourceVersions] files each
    loaded entry with nil submaps replaced by empty maps; and the first loop
    of a refresh registers a synchro only under a storage GVR that has such
    an entry by then. *)
Theorem watermarks_cover_registry (sys : System) :
  reachable sys ->
  watermarksCoverRegistry (synchro sys) /\
  (forall rvs s0 g r,
     rvs !! g = Some r ->
     storageResourceVersions (initWithResourceVersions rvs s0) !! g
       = Some (initResourceVersions r) /\
     initialised (initResourceVersions r)) /\
  (forall w M e,
     storageResourceSynchros (synchro sys) !! e.1 = None ->
     is_Some (storageResourceSynchros (createSynchro w M (synchro sys) e) !! e.1) ->
     exists rvs,
       storageResourceVersions (createSynchro w M (synchro sys) e) !! e.1 = Some rvs /\
       initialised rvs).
Proof.
  intros [Hw Hr]%watermarks_reachable. split; [|split].
  - intros g Hg. destruct (Hr g Hg) as [x Hx]. exists x. split; [done|]. by eapply Hw.
  - intros rvs s0 g r Hg. split;
      [by apply initWithResourceVersions_lookup|apply initResourceVersions_initialised].
  - intros w M e Hnone Hsome.
    destruct (foldl_createSynchro_invariant w M [e] (synchro sys) Hw Hr) as [Hw' Hr'].
    simpl in *. destruct (Hr' e.1 Hsome) as [x Hx]. exists x. split; [done|].
    by eapply Hw'.
Qed.

Lemma watermarks_cover_registry_witness :
  watermarksCoverRegistry (synchro Scenario.refreshedOnce).
Proof.
  apply watermarks_cover_registry.
  exists [LSetResources (syncResources Scenario.synced) false;
          LRefresh (Scenario.podsOnly [] true)], Scenario.system0.
  split; [|vm_compute; reflexivity].
  exists Scenario.deps, "c1", Scenario.restConfig, Scenario.clusterSyncConfig, Scenario.c1.
  split; [vm_compute; reflexivity|reflexivity].
Defined.

(** ** The calls of a refresh *)

Lemma extends_foldl_createSynchro (P : Event -> Prop) w M l s0 s :
  (forall g syn, storageResourceSynchros s0 !! g = Some syn ->
                 storageResourceSynchros s !! g = Some syn) ->
  (forall e ev, e ∈ l -> storageResourceSynchros s0 !! e.1 = None ->
                createEvent M e.1 ev -> P ev) ->
  extends P s (foldl (createSynchro w M) s l).
Proof.
  revert s. induction l as [|e l IH]; intros s Hmono HP; simpl; [apply extends_refl|].
  eapply extends_trans.
  - apply createSynchro_extends_any. intros Hnone ev Hev. apply (HP e); [by left| |done].
    destruct (storageResourceSynchros s0 !! e.1) as [syn|] eqn:H0; [|done].
    apply Hmono in H0. congruence.
  - apply IH.
    + intros g syn Hg. by apply createSynchro_registry_mono, Hmono.
    + intros e' ev Hin. apply HP. by right.
Qed.

Lemma refreshNegotiated_extends w s :
  extends (refreshEvent w s) s (refreshNegotiated w s).
Proof.
  unfold refreshNegotiated. destruct (syncResources s) as [rs|]; [|apply extends_refl].
  peel ltac:(left; by eexists).
Qed.

Lemma refreshCreated_extends w s :
  extends (refreshEvent w s) (refreshNegotiated w s) (refreshCreated w s).
Proof.
  destruct (refreshNegotiated_fields w s) as (HR & _).
  apply (extends_foldl_createSynchro _ _ _ _ (refreshNegotiated w s)); [done|].
  intros [g cfg] ev Hin Hnone Hev. simpl in *. right; left. exists g.
  apply elem_of_map_to_list in Hin. rewrite HR in Hnone. eauto.
Qed.

Lemma refreshClosed_extends w s :
  extends (refreshEvent w s) (refreshCreated w s) (refreshClosed w s).1.
Proof.
  eapply extends_weaken; [|apply closeSynchros_extends].
  intros e (g & [Hp _]%list_elem_of_filter & He). do 2 right; left. eauto.
Qed.

Lemma name_refreshCreated w s : name (refreshCreated w s) = name s.
Proof.
  unfold refreshCreated.
  pose proof (frame_foldl (createSynchro w (refreshFanout w s))
                (map_to_list (refreshPlan w s)) (refreshNegotiated w s)
                (fun s1 e => frame_createSynchro w (refreshFanout w s) s1 e)) as F.
  unfold frame in F. destruct (refreshNegotiated_fields w s) as (_ & _ & Hn).
  simplify_eq. congruence.
Qed.

Lemma name_refreshClosed w s : name (refreshClosed w s).1 = name s.
Proof. unfold refreshClosed. by rewrite name_closeSynchros, name_refreshCreated. Qed.

Lemma refreshCleaned_extends w s :
  extends (refreshEvent w s) (refreshClosed w s).1 (refreshCleaned w s).1.1.
Proof.
  eapply extends_weaken; [|apply cleanResources_extends].
  intros e (g & _ & Hp & He). rewrite name_refreshClosed in He. do 3 right; left. eauto.
Qed.

Lemma extends_foldl_callDeleteVersion w s0 l s :
  extends (refreshEvent w s0) s (foldl callDeleteVersion s l).
Proof.
  rewrite foldl_callDeleteVersion. eexists. split; [reflexivity|].
  apply Forall_fmap, Forall_forall. intros gvr _. simpl. do 4 right. by eexists.
Qed.

(** Every call a refresh makes is one its loops can make. *)
Lemma refresh_extends w s : extends (refreshEvent w s) s (refreshSyncResources w s).
Proof.
  unfold refreshSyncResources.
  destruct (syncResources s) as [rs|] eqn:Hrs; [|rewrite refresh_nil by done; apply extends_refl].
  pose proof (extends_trans _ _ _ _ (refreshNegotiated_extends w s)
                (refreshCreated_extends w s)) as H1.
  pose proof (extends_trans _ _ _ _ H1 (refreshClosed_extends w s)) as H2.
  pose proof (extends_trans _ _ _ _ H2 (refreshCleaned_extends w s)) as H3.
  destruct (refresh_exit_cases w s rs Hrs) as [[_ ->]|[(_ & _ & ->)|(_ & _ & ->)]]; simpl;
    try done.
  eapply extends_trans; [exact H3|]. apply extends_foldl_callDeleteVersion.
Qed.

(** ** A synchro that stays in the plan *)

Lemma refresh_registry_kept w s g syn :
  is_Some (refreshPlan w s !! g) ->
  storageResourceSynchros s !! g = Some syn ->
  storageResourceSynchros (refreshSyncResources w s) !! g = Some syn.
Proof.
  intros Hp Hg. unfold refreshSyncResources.
  destruct (syncResources s) as [rs|] eqn:Hrs; [|by rewrite refresh_nil].
  destruct (refreshNegotiated_fields w s) as (HR & _).
  assert (storageResourceSynchros (refreshCreated w s) !! g = Some syn) as H1.
  { apply foldl_createSynchro_registry_mono. by rewrite HR. }
  assert (storageResourceSynchros (refreshClosed w s).1 !! g = Some syn) as H2.
  { unfold refreshClosed. rewrite closeSynchros_registry_other; [done|].
    intros [Hn _]%list_elem_of_filter. rewrite Hn in Hp. by destruct Hp. }
  assert (storageResourceSynchros (refreshCleaned w s).1.1 !! g = Some syn) as H3.
  { unfold refreshCleaned. by rewrite cleanResources_registry. }
  destruct (refresh_exit_cases w s rs Hrs) as [[_ ->]|[(_ & _ & ->)|(_ & _ & ->)]]; simpl;
    try done.
  by rewrite foldl_callDeleteVersion.
Qed.

(** C7: a storage GVR that is registered and is in the new plan keeps its
    synchro through the refresh, whatever config the plan holds for it: the
    registry entry is the same value afterwards, and no call of the refresh
    builds a resource storage or a synchro for it, or runs, starts, stores,
    closes or deletes one. *)
Theorem existing_synchro_is_preserved (w : World) (s : ClusterSynchro)
    (g : GroupVersionResource) (config : ResourceSyncConfig) (syn : Synchro) :
  refreshPlan w s !! g = Some config ->
  storageResourceSynchros s !! g = Some syn ->
  storageResourceSynchros (refreshSyncResources w s) !! g = Some syn /\
  exists evs,
    trace (refreshSyncResources w s) = trace s ++ evs /\
    Forall (fun e => ~ touchesSynchro g e) evs.
Proof.
  intros Hp Hg. split; [by eapply refresh_registry_kept|].
  destruct (refresh_extends w s) as (evs & Ht & Hevs). exists evs. split; [done|].
  eapply Forall_impl; [exact Hevs|]. intros e He Htouch.
  destruct He as [(rs & ->)|[(g' & Hp' & Hn' & Hc)|[(g' & Hp' & Hc)|[(g' & Hp' & Hc)|(gvr & ->)]]]];
    try done.
  - assert (g' <> g) as Hne by congruence.
    destruct Hc as [(c & ->)|[(c & ->)|[->|[->|[->|(gvr & m & _ & [->| ->])]]]]]; done.
  - assert (g' <> g) as Hne by congruence.
    destruct Hc as [->|[->|(gvr & _ & ->)]]; done.
  - destruct Hc as [->|(gvr & m & _ & _ & ->)]; done.
Qed.

Lemma existing_synchro_is_preserved_witness :
  storageResourceSynchros
    (refreshSyncResources (Scenario.podsOnly [] true) Scenario.synced) !! Scenario.pods
    = Some (Scenario.synchroOf Scenario.pods) /\
  exists evs,
    trace (refreshSyncResources (Scenario.podsOnly [] true) Scenario.synced)
      = trace Scenario.synced ++ evs /\
    Forall (fun e => ~ touchesSynchro Scenario.pods e) evs.
Proof.
  apply (existing_synchro_is_preserved (Scenario.podsOnly [] true) Scenario.synced
           Scenario.pods (Scenario.planEntry Scenario.pods false)
           (Scenario.synchroOf Scenario.pods)); vm_compute; reflexivity.
Defined.

(** ** A synchro that left the plan *)

(** C3: a storage GVR that is registered and is not in the new plan: unless
    the refresh returns from the [select] that saw the closer closed, the
    [Close()] of its synchro is called and seen to complete, then every sync
    GVR of its fan-out gets [UpdateSyncCondition] with Stop and
    SynchroRemoved, then the synchro is deleted from the registry; and it is
    not registered after the refresh. *)
Theorem removed_synchro_is_closed (w : World) (s : ClusterSynchro)
    (rs : list ClusterGroupResources) (g : GroupVersionResource) (syn : Synchro) :
  syncResources s = Some rs ->
  refreshPlan w s !! g = None ->
  storageResourceSynchros s !! g = Some syn ->
  (refreshSyncResources_exit w s).2 = ShutdownObserved \/
  (closeCompletes w g = true /\
   storageResourceSynchros (refreshSyncResources w s) !! g = None /\
   exists before after,
     trace (refreshSyncResources w s) =
       before ++ [EvSynchroClose g] ++
       updateEvents ResourceSyncStatusStop "SynchroRemoved" "the resource synchro is moved"
         (elements (fanout (refreshFanout w s) g)) ++
       [EvDeleteSynchro g] ++ after).
Proof.
  intros Hrs Hp Hg.
  destruct (refreshNegotiated_fields w s) as (HR & _).
  assert (storageResourceSynchros (refreshCreated w s) !! g = Some syn) as H1.
  { apply foldl_createSynchro_registry_mono. by rewrite HR. }
  assert (g ∈ filter (fun g => refreshPlan w s !! g = None)
                (map_to_list (storageResourceSynchros (refreshCreated w s))).*1) as Hin.
  { apply list_elem_of_filter. split; [done|]. apply list_elem_of_fmap.
    exists (g, syn). split; [done|]. by apply elem_of_map_to_list. }
  unfold refreshSyncResources.
  destruct (refresh_exit_cases w s rs Hrs) as [[_ ->]|Hcases]; [by left|]. right.
  assert ((refreshClosed w s).2 = Returned) as E2 by (destruct Hcases as [[? _]|[? _]]; done).
  destruct (closeSynchros_trace w (refreshFanout w s) _ (refreshCreated w s) g syn E2 Hin H1)
    as (Hcc & before & after & Ht).
  fold (refreshClosed w s) in Ht.
  pose proof (closeSynchros_removed w (refreshFanout w s) _ (refreshCreated w s) g E2 Hin)
    as Hgone.
  fold (refreshClosed w s) in Hgone.
  split; [done|].
  destruct (refreshCleaned_extends w s) as (evs3 & Ht3 & _).
  assert (storageResourceSynchros (refreshCleaned w s).1.1 !! g = None) as Hgone3.
  { unfold refreshCleaned. by rewrite cleanResources_registry. }
  destruct Hcases as [(_ & _ & ->)|(_ & _ & ->)]; simpl.
  - split; [done|]. exists before, (after ++ evs3). rewrite Ht3, Ht.
    by rewrite <- !app_assoc.
  - rewrite foldl_callDeleteVersion. simpl. split; [done|].
    eexists before, (after ++ evs3 ++ _). rewrite Ht3, Ht.
    rewrite <- !app_assoc. reflexivity.
Qed.

Lemma removed_synchro_is_closed_witness :
  (refreshSyncResources_exit (Scenario.podsOnly [] true) Scenario.synced).2
    = ShutdownObserved \/
  (closeCompletes (Scenario.podsOnly [] true) Scenario.deployments = true /\
   storageResourceSynchros
     (refreshSyncResources (Scenario.podsOnly [] true) Scenario.synced)
     !! Scenario.deployments = None /\
   exists before after,
     trace (refreshSyncResources (Scenario.podsOnly [] true) Scenario.synced) =
       before ++ [EvSynchroClose Scenario.deployments] ++
       updateEvents ResourceSyncStatusStop "SynchroRemoved" "the resource synchro is moved"
         (elements (fanout (refreshFanout (Scenario.podsOnly [] true) Scenario.synced)
                      Scenario.deployments)) ++
       [EvDeleteSynchro Scenario.deployments] ++ after).
Proof.
  apply (removed_synchro_is_closed (Scenario.podsOnly [] true) Scenario.synced
           [ {| cgrGroup := ""; cgrVersions := ["v1"]; cgrResources := ["pods"] |} ]
           Scenario.deployments (Scenario.synchroOf Scenario.deployments));
    vm_compute; reflexivity.
Defined.

(** ** The status through the loops *)

Lemma extends_elem P s s' e : extends P s s' -> e ∈ trace s -> e ∈ trace s'.
Proof. intros (evs & -> & _) Hin. apply elem_of_app. by left. Qed.

Lemma statusAt_foldl_createSynchro w M l s gvr :
  (forall e, e ∈ l -> gvr ∉ fanout M e.1) ->
  statusAt (foldl (createSynchro w M) s l) gvr = statusAt s gvr.
Proof.
  revert s. induction l as [|e l IH]; intros s Hn; simpl; [done|].
  rewrite IH by (intros; apply Hn; by right).
  apply statusAt_createSynchro, Hn. by left.
Qed.

Lemma statusAt_foldl_callDeleteVersion l s gvr :
  statusAt (foldl callDeleteVersion s l) gvr =
  if decide (gvr ∈ l) then None else statusAt s gvr.
Proof.
  rewrite foldl_callDeleteVersion. unfold statusAt. simpl.
  destruct (groupResourceStatus s) as [grs|]; simpl; [apply deleteAll_lookup|by case_decide].
Qed.

Lemma trace_updateSyncConditions M g status reason message s gvr :
  gvr ∈ fanout M g ->
  EvUpdateSyncCondition gvr status reason message
    ∈ trace (updateSyncConditions M g status reason message s).
Proof.
  intros Hin. rewrite updateSyncConditions_eq. simpl. apply elem_of_app. right.
  apply list_elem_of_fmap. exists gvr. split; [done|]. by apply elem_of_elements.
Qed.

(** A plan entry whose resource storage or synchro cannot be built. *)
Lemma createSynchro_failed w M s e :
  storageResourceSynchros s !! e.1 = None ->
  (NewResourceStorage w (resourceStorageConfig e.2)).2 <> nilError \/
  (forall c, cfgGroupVersionResource c = syncResource e.2 ->
             (NewResourceSynchro w (name s) c).2 <> nilError) ->
  exists message,
    (forall gvr,
       statusAt (createSynchro w M s e) gvr =
       if decide (gvr ∈ fanout M e.1)
       then withStatus ResourceSyncStatusPending "SynchroCreateFailed" message
              <$> statusAt s gvr
       else statusAt s gvr) /\
    (forall gvr, gvr ∈ fanout M e.1 ->
       EvUpdateSyncCondition gvr ResourceSyncStatusPending "SynchroCreateFailed" message
         ∈ trace (createSynchro w M s e)).
Proof.
  intros Hnone Hfail. unfold createSynchro. rewrite Hnone.
  destruct (NewResourceStorage w _) as [resourceStorage err] eqn:Hst. simpl in Hfail.
  case_decide as Herr.
  { eexists. split.
    - intros gvr. by rewrite statusAt_updateSyncConditions.
    - intros gvr Hin. by apply trace_updateSyncConditions. }
  destruct Hfail as [Hfail|Hfail]; [done|].
  destruct (ensureResourceVersions e.1 _) as [rvs s1] eqn:Hens.
  assert ((forall gvr, statusAt s1 gvr = statusAt s gvr) /\ name s1 = name s) as [Hs1 Hn1].
  { unfold ensureResourceVersions in Hens. repeat case_match; by simplify_eq. }
  destruct (NewResourceSynchro w _ _) as [synchro err2] eqn:Hsy.
  case_decide as Herr2.
  - eexists. split.
    + intros gvr. rewrite statusAt_updateSyncConditions.
      change (statusAt (emit ?e ?s) gvr) with (statusAt s gvr). by rewrite Hs1.
    + intros gvr Hin. by apply trace_updateSyncConditions.
  - specialize (Hfail (synchroConfig s1 e.2 rvs resourceStorage) eq_refl).
    simpl in Hsy. rewrite Hn1 in Hsy. rewrite Hsy in Hfail. simpl in Hfail.
    by destruct Herr2.
Qed.

Lemma merged_statusAt w s rs gvr :
  syncResources s = Some rs ->
  statusAt (refreshNegotiated w s) gvr = (refreshMerged w s).1 !! gvr.
Proof. intros Hrs. unfold refreshNegotiated. by rewrite Hrs. Qed.

(** C6: [updateSyncConditions] calls [UpdateSyncCondition] for every sync
    GVR of the storage GVR's fan-out, sets the status and reason of each of
    their conditions and leaves the other conditions alone; and when
    [NewResourceStorage] fails for a planned, unregistered storage GVR, or
    [NewResourceSynchro] fails for its sync resource, every sync GVR of its
    fan-out gets the call with Pending and SynchroCreateFailed, and after
    the refresh its condition has this status and reason, unless it is a
    triple of the deleted set that the refresh has dropped. *)
Theorem status_updates_fan_out (w : World) (s : ClusterSynchro)
    (g : GroupVersionResource) (config : ResourceSyncConfig) :
  refreshPlan w s !! g = Some config ->
  storageResourceSynchros s !! g = None ->
  (NewResourceStorage w (resourceStorageConfig config)).2 <> nilError \/
  (forall c, cfgGroupVersionResource c = syncResource config ->
             (NewResourceSynchro w (name s) c).2 <> nilError) ->
  (forall M g' status reason message s0 gvr,
     (gvr ∈ fanout M g' ->
        EvUpdateSyncCondition gvr status reason message
          ∈ trace (updateSyncConditions M g' status reason message s0) /\
        (is_Some (statusAt s0 gvr) ->
         conditionIs (updateSyncConditions M g' status reason message s0) gvr status reason)) /\
     (gvr ∉ fanout M g' ->
        statusAt (updateSyncConditions M g' status reason message s0) gvr = statusAt s0 gvr)) /\
  (forall gvr,
     gvr ∈ fanout (refreshFanout w s) g ->
     (exists message,
        EvUpdateSyncCondition gvr ResourceSyncStatusPending "SynchroCreateFailed" message
          ∈ trace (refreshSyncResources w s)) /\
     (conditionIs (refreshSyncResources w s) gvr
        ResourceSyncStatusPending "SynchroCreateFailed" \/
      gvr ∈ (refreshMerged w s).2 /\ statusAt (refreshSyncResources w s) gvr = None)).
Proof.
  intros Hp Hg Hfail. split.
  { intros M g' status reason message s0 gvr. split.
    - intros Hin. split; [by apply trace_updateSyncConditions|].
      intros [c Hc]. apply conditionIs_statusAt.
      rewrite statusAt_updateSyncConditions, decide_True, Hc by done. simpl. eauto.
    - intros Hn. by rewrite statusAt_updateSyncConditions, decide_False. }
  intros gvr Hin.
  destruct (syncResources s) as [rs|] eqn:Hrs; last first.
  { unfold refreshPlan in Hp. rewrite Hrs in Hp. by rewrite lookup_empty in Hp. }
  set (M := refreshFanout w s) in *.
  assert (forall g', g' <> g -> gvr ∉ fanout M g') as Hdis.
  { intros g' Hne Hin'. apply Hne. eapply fanout_disjoint; eauto. }
  assert (forall g', refreshPlan w s !! g' = None -> gvr ∉ fanout M g') as Hdis'.
  { intros g' Hn. apply Hdis. congruence. }
  (* the plan entry in the enumeration of the plan *)
  pose proof (NoDup_fst_map_to_list (refreshPlan w s)) as Hnd.
  pose proof Hp as Hsplit.
  apply elem_of_map_to_list, list_elem_of_split in Hsplit as (l1 & l2 & Hl).
  rewrite Hl in Hnd. rewrite fmap_app, fmap_cons in Hnd. simpl in Hnd.
  apply NoDup_app in Hnd as (_ & Hl1 & [Hl2 _]%NoDup_cons).
  assert (g ∉ l1.*1) as Hgl1 by (intros Hx; eapply Hl1; [exact Hx|by left]).
  set (sa := foldl (createSynchro w M) (refreshNegotiated w s) l1).
  set (sb := createSynchro w M sa (g, config)).
  assert (refreshCreated w s = foldl (createSynchro w M) sb l2) as Hcreated.
  { unfold refreshCreated. fold M. by rewrite Hl, foldl_app. }
  assert (storageResourceSynchros sa !! g = None) as Hga.
  { unfold sa. rewrite foldl_createSynchro_registry_other by done.
    destruct (refreshNegotiated_fields w s) as (-> & _). done. }
  assert (name sa = name s) as Hna.
  { pose proof (frame_foldl (createSynchro w M) l1 (refreshNegotiated w s)
                  (fun s1 e => frame_createSynchro w M s1 e)) as F.
    fold sa in F. unfold frame in F.
    destruct (refreshNegotiated_fields w s) as (_ & _ & Hn). simplify_eq. congruence. }
  rewrite <- Hna in Hfail.
  destruct (createSynchro_failed w M sa (g, config) Hga Hfail) as (message & Hst & Hev).
  fold sb in Hst, Hev. simpl in Hst, Hev.
  (* the condition when the entry is reached, and from then on *)
  destruct (proj1 (elem_of_fanout _ _ _) Hin) as (c0 & Hc0 & _).
  assert (statusAt sa gvr = Some c0) as Hsa.
  { unfold sa. rewrite statusAt_foldl_createSynchro.
    - by rewrite (merged_statusAt w s rs).
    - intros e He. apply Hdis. intros Heq. apply Hgl1. rewrite <- Heq.
      apply list_elem_of_fmap. eauto. }
  set (c1 := withStatus ResourceSyncStatusPending "SynchroCreateFailed" message c0).
  assert (statusAt sb gvr = Some c1) as Hsb.
  { by rewrite Hst, decide_True, Hsa. }
  assert (statusAt (refreshCreated w s) gvr = Some c1) as H1.
  { rewrite Hcreated, statusAt_foldl_createSynchro; [done|].
    intros e He. apply Hdis. intros Heq. apply Hl2. rewrite <- Heq.
    apply list_elem_of_fmap. eauto. }
  assert (statusAt (refreshClosed w s).1 gvr = Some c1) as H2.
  { unfold refreshClosed. rewrite statusAt_closeSynchros; [done|].
    intros g' [Hn _]%list_elem_of_filter. by apply Hdis'. }
  assert (statusAt (refreshCleaned w s).1.1 gvr = Some c1) as H3.
  { unfold refreshCleaned. rewrite statusAt_cleanResources; [done|].
    intros g' _ Hn _. by apply Hdis'. }
  (* the calls made from then on *)
  assert (extends (fun _ => True) sb (refreshCreated w s)) as E1.
  { rewrite Hcreated. apply extends_foldl.
    intros s0 e _. by apply createSynchro_extends_any. }
  assert (extends (fun _ => True) sb (refreshClosed w s).1) as E2.
  { eapply extends_trans; [exact E1|].
    eapply extends_weaken; [|apply refreshClosed_extends]. done. }
  assert (extends (fun _ => True) sb (refreshCleaned w s).1.1) as E3.
  { eapply extends_trans; [exact E2|].
    eapply extends_weaken; [|apply refreshCleaned_extends]. done. }
  assert (c1 = c1 -> condStatus c1 = ResourceSyncStatusPending /\
          condReason c1 = "SynchroCreateFailed") as Hc1 by done.
  unfold refreshSyncResources.
  destruct (refresh_exit_cases w s rs Hrs) as [[_ ->]|[(_ & _ & ->)|(_ & _ & ->)]]; simpl.
  - split; [exists message; eapply extends_elem; [exact E2|by apply Hev]|].
    left. apply conditionIs_statusAt. eauto.
  - split; [exists message; eapply extends_elem; [exact E3|by apply Hev]|].
    left. apply conditionIs_statusAt. eauto.
  - split.
    + exists message. eapply extends_elem; [|by apply Hev].
      eapply extends_trans; [exact E3|].
      eapply extends_weaken; [|apply (extends_foldl_callDeleteVersion w s)]. done.
    + rewrite conditionIs_statusAt, statusAt_foldl_callDeleteVersion.
      case_decide as Hd; [right|left; eauto].
      split; [|done]. apply elem_of_elements in Hd.
      by apply (cleanResources_deleted_subseteq w M (refreshPlan w s) _ _ _) in Hd.
Qed.

Lemma status_updates_fan_out_witness :
  (exists message,
     EvUpdateSyncCondition Scenario.cronjobs_v1beta1
       ResourceSyncStatusPending "SynchroCreateFailed" message
       ∈ trace (refreshSyncResources Scenario.cronjobsBroken Scenario.wantsCronjobs)) /\
  (conditionIs (refreshSyncResources Scenario.cronjobsBroken Scenario.wantsCronjobs)
     Scenario.cronjobs_v1beta1 ResourceSyncStatusPending "SynchroCreateFailed" \/
   Scenario.cronjobs_v1beta1
     ∈ (refreshMerged Scenario.cronjobsBroken Scenario.wantsCronjobs).2 /\
   statusAt (refreshSyncResources Scenario.cronjobsBroken Scenario.wantsCronjobs)
     Scenario.cronjobs_v1beta1 = None).
Proof.
  apply (proj2 (status_updates_fan_out Scenario.cronjobsBroken Scenario.wantsCronjobs
                  Scenario.cronjobs (Scenario.planEntry Scenario.cronjobs false)
                  ltac:(vm_compute; reflexivity) ltac:(vm_compute; reflexivity)
                  ltac:(left; vm_compute; discriminate))).
  vm_compute; reflexivity.
Defined.

(** ** The watermarks of resources that left the plan *)

Lemma is_Some_statusAt_updateSyncConditions M g status reason message s gvr :
  is_Some (statusAt s gvr) ->
  is_Some (statusAt (updateSyncConditions M g status reason message s) gvr).
Proof.
  intros [c Hc]. rewrite statusAt_updateSyncConditions, Hc. case_decide; simpl; eauto.
Qed.

Lemma is_Some_statusAt_createSynchro w M s e gvr :
  is_Some (statusAt s gvr) -> is_Some (statusAt (createSynchro w M s e) gvr).
Proof.
  intros H. unfold createSynchro, startSynchro, ensureResourceVersions.
  repeat (first [case_match | case_decide]; simplify_eq); try done; unfold emit;
    repeat first
      [ apply is_Some_statusAt_updateSyncConditions
      | match goal with
        | |- is_Some (statusAt (set_trace ?t ?s) ?k) =>
            change (is_Some (statusAt s k))
        | |- is_Some (statusAt (set_storageResourceSynchros ?t ?s) ?k) =>
            change (is_Some (statusAt s k))
        | |- is_Some (statusAt (set_storageResourceVersions ?t ?s) ?k) =>
            change (is_Some (statusAt s k))
        | |- is_Some (statusAt (set_waitGroup ?t ?s) ?k) =>
            change (is_Some (statusAt s k))
        end ]; done.
Qed.

Lemma is_Some_statusAt_foldl_createSynchro w M l s gvr :
  is_Some (statusAt s gvr) -> is_Some (statusAt (foldl (createSynchro w M) s l) gvr).
Proof.
  revert s. induction l as [|e l IH]; intros s H; simpl; [done|].
  by apply IH, is_Some_statusAt_createSynchro.
Qed.

Lemma is_Some_statusAt_closeSynchros w M l s gvr :
  is_Some (statusAt s gvr) -> is_Some (statusAt (closeSynchros w M l s).1 gvr).
Proof.
  close_induction l s; try done; intros H; apply IH; try done.
  change (is_Some (statusAt (updateSyncConditions M g0 ResourceSyncStatusStop "SynchroRemoved"
            "the resource synchro is moved" (emit (EvSynchroClose g0) s)) gvr)).
  by apply is_Some_statusAt_updateSyncConditions.
Qed.

Lemma refreshCleaned_versions w s g :
  (refreshCleaned w s).2 = Returned ->
  refreshPlan w s !! g = None ->
  storageResourceVersions (refreshCleaned w s).1.1 !! g = None.
Proof.
  intros Hret Hp. unfold refreshCleaned in *.
  destruct (storageResourceVersions (refreshClosed w s).1 !! g) as [x|] eqn:Hx.
  - apply cleanResources_versions_removed; [done| |done].
    apply list_elem_of_fmap. exists (g, x). split; [done|]. by apply elem_of_map_to_list.
  - match goal with |- ?X = None => destruct X as [y|] eqn:Hy; [|done] end.
    apply cleanResources_versions_shrink in Hy. congruence.
Qed.

Lemma refreshClosed_tracked w s g x :
  storageResourceVersions s !! g = Some x ->
  storageResourceVersions (refreshClosed w s).1 !! g = Some x.
Proof.
  intros Hx. unfold refreshClosed. rewrite closeSynchros_versions.
  apply foldl_createSynchro_versions_mono.
  destruct (refreshNegotiated_fields w s) as (_ & -> & _). done.
Qed.

(** C4, as amended: a refresh that returns from its last statement leaves no
    watermark entry for a storage GVR that is not in the new plan, whatever
    [CleanClusterResource] answers; for such a GVR that was tracked,
    [CleanClusterResource] is called; when it fails, every sync GVR of the
    fan-out is kept in the status with Stop and CleanResourceFailed; when it
    succeeds, no such update is made for them and those in the deleted set
    are dropped from the status. *)
Theorem unplanned_watermarks_are_dropped (w : World) (s : ClusterSynchro)
    (rs : list ClusterGroupResources) (g : GroupVersionResource) :
  syncResources s = Some rs ->
  (refreshSyncResources_exit w s).2 = Returned ->
  refreshPlan w s !! g = None ->
  storageResourceVersions (refreshSyncResources w s) !! g = None /\
  (is_Some (storageResourceVersions s !! g) ->
   EvCleanClusterResource (name s) g ∈ trace (refreshSyncResources w s) /\
   forall gvr, gvr ∈ fanout (refreshFanout w s) g ->
     (CleanClusterResource w (name s) g <> nilError ->
        conditionIs (refreshSyncResources w s) gvr
          ResourceSyncStatusStop "CleanResourceFailed") /\
     (CleanClusterResource w (name s) g = nilError ->
        (forall evs message,
           trace (refreshSyncResources w s) = trace s ++ evs ->
           EvUpdateSyncCondition gvr ResourceSyncStatusStop "CleanResourceFailed" message
             ∉ evs) /\
        (gvr ∈ (refreshMerged w s).2 -> statusAt (refreshSyncResources w s) gvr = None))).
Proof.
  intros Hrs Hexit Hp. unfold refreshSyncResources in *.
  destruct (refresh_exit_cases w s rs Hrs) as [[_ E]|[(_ & _ & E)|(E2 & E3 & E)]];
    rewrite E in Hexit |- *; simpl in *; try done. clear Hexit.
  rewrite foldl_callDeleteVersion. simpl. split; [by apply refreshCleaned_versions|].
  intros [x Hx]. pose proof (refreshClosed_tracked w s g x Hx) as Hx2.
  assert (g ∈ (map_to_list (storageResourceVersions (refreshClosed w s).1)).*1) as Hin.
  { apply list_elem_of_fmap. exists (g, x). split; [done|]. by apply elem_of_map_to_list. }
  split.
  { apply elem_of_app. left. rewrite <- (name_refreshClosed w s).
    by apply cleanResources_called. }
  intros gvr Hf.
  assert (forall g', g' <> g -> gvr ∉ fanout (refreshFanout w s) g') as Hdis.
  { intros g' Hne Hin'. apply Hne. eapply fanout_disjoint; eauto. }
  split.
  - (* the clean-up fails *)
    intros Herr.
    destruct (cleanResources_failed w (refreshFanout w s) (refreshPlan w s)
                (map_to_list (storageResourceVersions (refreshClosed w s).1)).*1
                (refreshMerged w s).2
                (refreshClosed w s).1 (name s) g gvr) as (message & _ & Hst & Hdel);
      try done.
    { apply name_refreshClosed. }
    { apply NoDup_fst_map_to_list. }
    fold (refreshCleaned w s) in Hst, Hdel.
    assert (is_Some (statusAt (refreshClosed w s).1 gvr)) as [c Hc].
    { apply is_Some_statusAt_closeSynchros, is_Some_statusAt_foldl_createSynchro.
      rewrite (merged_statusAt w s rs gvr Hrs).
      destruct (proj1 (elem_of_fanout _ _ _) Hf) as (c0 & Hc0 & _). eauto. }
    apply conditionIs_statusAt.
    exists (withStatus ResourceSyncStatusStop "CleanResourceFailed" message c).
    split; [|done].
    pose proof (statusAt_foldl_callDeleteVersion (elements (refreshCleaned w s).1.2)
                  (refreshCleaned w s).1.1 gvr) as Hfinal.
    rewrite foldl_callDeleteVersion in Hfinal.
    unfold statusAt in Hfinal |- *. simpl in *. rewrite Hfinal.
    rewrite decide_False by (by rewrite elem_of_elements).
    unfold statusAt in Hst, Hc. by rewrite Hst, Hc.
  - (* the clean-up succeeds *)
    intros Hok. split.
    + intros evs message Ht Hev.
      destruct (refresh_extends w s) as (evs0 & Ht0 & Hevs0).
      unfold refreshSyncResources in Ht0. rewrite E in Ht0. simpl in Ht0.
      rewrite foldl_callDeleteVersion in Ht0. simpl in Ht0.
      rewrite Ht0 in Ht. apply app_inv_head in Ht. subst evs0.
      pose proof (proj1 (Forall_forall _ _) Hevs0 _ Hev) as He.
      destruct He as [(? & ?)|[(g' & _ & _ & Hc)|[(g' & _ & Hc)|[(g' & _ & Hc)|(? & ?)]]]];
        try done.
      * destruct Hc as [(? & ?)|[(? & ?)|[?|[?|[?|(? & ? & _ & [?|?])]]]]]; done.
      * destruct Hc as [?|[?|(? & _ & ?)]]; done.
      * destruct Hc as [?|(gvr' & m & Hin' & Herr' & Heq)]; [done|].
        simplify_eq.
        destruct (decide (g' = g)) as [->|Hne]; [done|]. by eapply Hdis.
    + intros Hd.
      pose proof (statusAt_foldl_callDeleteVersion (elements (refreshCleaned w s).1.2)
                    (refreshCleaned w s).1.1 gvr) as Hfinal.
      rewrite foldl_callDeleteVersion in Hfinal.
      unfold statusAt in Hfinal |- *. simpl in *. rewrite Hfinal.
      rewrite decide_True; [done|]. apply elem_of_elements.
      apply cleanResources_deleted_keeps; [done| |done].
      intros g' _ _ Herr'. apply Hdis. intros ->.
      rewrite name_refreshClosed in Herr'. done.
Qed.

Lemma unplanned_watermarks_are_dropped_witness :
  storageResourceVersions
    (refreshSyncResources (Scenario.podsOnly [Scenario.deployments] true) Scenario.synced)
    !! Scenario.deployments = None /\
  conditionIs
    (refreshSyncResources (Scenario.podsOnly [Scenario.deployments] true) Scenario.synced)
    Scenario.deployments ResourceSyncStatusStop "CleanResourceFailed".
Proof.
  destruct (unplanned_watermarks_are_dropped
              (Scenario.podsOnly [Scenario.deployments] true) Scenario.synced
              [ {| cgrGroup := ""; cgrVersions := ["v1"]; cgrResources := ["pods"] |} ]
              Scenario.deployments
              ltac:(vm_compute; reflexivity) ltac:(vm_compute; reflexivity)
              ltac:(vm_compute; reflexivity)) as [Hgone Htracked].
  split; [exact Hgone|].
  destruct (Htracked ltac:(vm_compute; eauto)) as [_ Hfan].
  apply (Hfan Scenario.deployments ltac:(vm_compute; reflexivity)).
  vm_compute. discriminate.
Defined.

(** C4, as stated, fails: when the refresh returns from the [select] that saw
    the closer closed, a tracked storage GVR that is not in the new plan
    keeps its watermark entry. *)
Lemma unplanned_watermark_survives_shutdown :
  ~ (forall (w : World) (s : ClusterSynchro) (g : GroupVersionResource),
       is_Some (syncResources s) ->
       refreshPlan w s !! g = None ->
       is_Some (storageResourceVersions s !! g) ->
       storageResourceVersions (refreshSyncResources w s) !! g = None).
Proof.
  intros H.
  specialize (H (Scenario.podsOnly [] false) Scenario.synced Scenario.deployments
                ltac:(vm_compute; eauto) ltac:(vm_compute; reflexivity)
                ltac:(vm_compute; eauto)).
  vm_compute in H. discriminate H.
Qed.

(** * Further properties of the code *)

(** ** The constructor *)

(** [New] returns a synchro and a nil error when none of the five
    constructors it calls fails; otherwise it returns no synchro and an
    error that wraps the error of the first constructor that failed, in the
    order discovery manager, watermark load, lister-watcher factory, health
    checker, client: [errors.Unwrap] gives that cause, and the message is a
    prefix, a colon and the message of the cause. *)
Theorem New_fails_with_first_failure (d : Deps) (n : string) (config : RestConfig)
    (sc : ClusterSyncConfig) :
  match head (filter (fun e => e <> nilError) (constructorErrors d n config)) with
  | None => exists s, New d n config sc = (Some s, nilError) /\ name s = n
  | Some cause =>
      exists e prefix,
        New d n config sc = (None, e) /\ e <> nilError /\ Unwrap e = cause /\
        Error e = Some (prefix +:+ ": " +:+ fmt_verb cause)
  end.
Proof.
  unfold constructorErrors, New, checkerConfig, RetryableError.
  destruct (GetResourceVersions d n) as [rvs err]. simpl.
  rewrite !filter_cons, filter_nil.
  repeat (case_decide; simpl;
          [do 2 eexists; split; [reflexivity|]; by repeat split|]).
  eexists. split; [reflexivity|].
  pose proof (frame_versions_init rvs) as F.
  match goal with
  | |- name (initWithResourceVersions _ ?s0) = _ =>
      specialize (F s0); unfold frame_versions, frame in F; by simplify_eq
  end.
Qed.

(** No error [New] returns passes [IsRecoverableException], also when the
    constructor that failed returned an error the storage layer marked as
    recoverable: [New] wraps the cause with [fmt.Errorf], the test is a type
    assertion on the outer value, and only [errors.Unwrap] leads to the
    cause, which is the non-nil error of one of the five constructors. *)
Theorem New_hides_recoverable_exceptions (d : Deps) (n : string) (config : RestConfig)
    (sc : ClusterSyncConfig) (e : error) :
  New d n config sc = (None, e) ->
  IsRecoverableException e = false /\
  Unwrap e <> nilError /\
  (Unwrap e ∈ constructorErrors d n config).
Proof.
  unfold constructorErrors, New, checkerConfig, RetryableError.
  destruct (GetResourceVersions d n) as [rvs err]. simpl. intros H.
  repeat (case_decide;
          [inversion H; subst; simpl; split_and!; try done;
           repeat first [apply list_elem_of_here | apply list_elem_of_further]|]).
  discriminate.
Qed.

Lemma New_hides_recoverable_exceptions_witness :
  exists e,
    New Cases.depsStorageDown "c1" Scenario.restConfig Scenario.clusterSyncConfig
      = (None, e) /\
    IsRecoverableException (Unwrap e) = true /\
    IsRecoverableException e = false /\
    Unwrap e <> nilError /\
    (Unwrap e ∈ constructorErrors Cases.depsStorageDown "c1" Scenario.restConfig).
Proof.
  eexists. split; [vm_compute; reflexivity|]. split; [reflexivity|].
  apply (New_hides_recoverable_exceptions Cases.depsStorageDown "c1" Scenario.restConfig
           Scenario.clusterSyncConfig).
  vm_compute. reflexivity.
Defined.

(** The watermark map of a new synchro has the keys that
    [GetResourceVersions] returned and no other; under each key the maps
    that were loaded are kept as they are and a nil map is replaced by an
    empty one.  [initWithResourceVersions] on any synchro overwrites the
    entries of the loaded keys in this way and leaves the other keys. *)
Theorem New_loads_watermarks (d : Deps) (n : string) (config : RestConfig)
    (sc : ClusterSyncConfig) (s : ClusterSynchro) (e : error) :
  New d n config sc = (Some s, e) ->
  (forall g,
     storageResourceVersions s !! g =
     (fun r => {| Resources := Some (default ∅ (Resources r));
                  Events := Some (default ∅ (Events r)) |})
       <$> (GetResourceVersions d n).1 !! g) /\
  (forall rvs s0 g,
     storageResourceVersions (initWithResourceVersions rvs s0) !! g =
     match rvs !! g with
     | Some r => Some {| Resources := Some (default ∅ (Resources r));
                         Events := Some (default ∅ (Events r)) |}
     | None => storageResourceVersions s0 !! g
     end).
Proof.
  intros HN.
  assert (Hinit : forall rvs s0 g,
     storageResourceVersions (initWithResourceVersions rvs s0) !! g =
     match rvs !! g with
     | Some r => Some {| Resources := Some (default ∅ (Resources r));
                         Events := Some (default ∅ (Events r)) |}
     | None => storageResourceVersions s0 !! g
     end).
  { intros rvs s0 g. destruct (rvs !! g) as [r|] eqn:Hg.
    - rewrite (initWithResourceVersions_lookup rvs s0 g r Hg).
      unfold initResourceVersions. by destruct (Resources r), (Events r).
    - unfold initWithResourceVersions. case_decide; [done|].
      apply foldl_init_lookup_other.
      intros Hin. apply list_elem_of_fmap in Hin as ([g' r] & -> & Hin).
      apply elem_of_map_to_list in Hin. simpl in Hg. congruence. }
  split; [|exact Hinit].
  intros g. apply New_Some in HN as (_ & rvs & s0 & -> & <- & Hv & _).
  rewrite Hinit, Hv, lookup_empty. by destruct (_ !! g).
Qed.

Lemma New_loads_watermarks_witness :
  storageResourceVersions Scenario.c1 !! Scenario.deployments =
    Some {| Resources := Some ∅; Events := Some {[ "u1" := "10" ]} |}.
Proof.
  pose proof (proj1 (New_loads_watermarks Scenario.deps "c1" Scenario.restConfig
    Scenario.clusterSyncConfig Scenario.c1 nilError ltac:(vm_compute; reflexivity))
    Scenario.deployments) as H.
  rewrite H. vm_compute. reflexivity.
Defined.

(** ** Wake-ups of the refresher *)

Lemma wakeOK_step l a b :
  wakeOK (synchro a) -> step l a = Some b -> wakeOK (synchro b).
Proof.
  unfold wakeOK. destruct a as [s calls]. simpl. intros (Hcap & Hlen & Hcl) Hstep.
  destruct l; try (step_inv Hstep; simpl in *; repeat split; (done || lia)).
  step_inv Hstep. refresh_frame_goal.
  match goal with H : setSyncResourcesCh _ = _ |- _ => rewrite H end.
  simpl in *. repeat split; (done || lia).
Qed.

Lemma New_setSyncResourcesCh d n config sc s e :
  New d n config sc = (Some s, e) -> setSyncResourcesCh s = make_chan 1.
Proof.
  unfold New. intros H.
  repeat (case_decide; [by inversion H|]).
  destruct (GetResourceVersions d n) as [rvs err].
  repeat (case_decide; [by inversion H|]).
  inversion H as [[Hs He]].
  match goal with
  | |- setSyncResourcesCh (initWithResourceVersions ?r ?s0) = _ =>
      pose proof (frame_versions_init r s0) as F
  end.
  unfold frame_versions, frame in F. by simplify_eq.
Qed.

Lemma wakeOK_reachable sys : reachable sys -> wakeOK (synchro sys).
Proof.
  revert sys. apply reachable_invariant.
  - intros sys (d & n & config & sc & s & HN & ->). simpl.
    apply New_setSyncResourcesCh in HN. unfold wakeOK. rewrite HN. simpl. lia.
  - intros l a b. apply wakeOK_step.
Qed.

(** In every reachable system, also after [Shutdown], [SetResources] neither
    parks nor panics: it stores its two arguments and leaves one wake-up in
    the channel.  Wake-ups coalesce: a second call before the refresher has
    run gives the state that this second call alone gives. *)
Theorem SetResources_coalesces (sys : System)
    (r1 r2 : option (list ClusterGroupResources)) (a1 a2 : bool) :
  reachable sys ->
  exists s1,
    SetResources r1 a1 (synchro sys) = Next s1 /\
    syncResources s1 = r1 /\ syncAllCustomResources s1 = a1 /\
    chan_len (setSyncResourcesCh s1) = 1 /\
    SetResources r2 a2 s1 = SetResources r2 a2 (synchro sys).
Proof.
  intros Hr. destruct (wakeOK_reachable sys Hr) as (Hcap & Hlen & Hcl).
  destruct sys as [s calls]. simpl in *.
  unfold SetResources, resetSyncResources, chan_try_send. simpl.
  rewrite Hcl. destruct (setSyncResourcesCh s) as [cap len cl] eqn:Hch. simpl in *.
  subst cap cl.
  case_decide.
  - eexists. split; [reflexivity|]. simpl.
    assert (len = 0) as -> by lia. simpl.
    split_and!; try done; repeat case_decide; try lia; reflexivity.
  - eexists. split; [reflexivity|]. simpl. rewrite ?Hch. simpl.
    split_and!; try done; try lia; repeat case_decide; try lia; try reflexivity.
Qed.

Lemma SetResources_coalesces_witness :
  exists s1,
    SetResources (syncResources Scenario.synced) false (synchro Scenario.afterShutdown)
      = Next s1 /\
    syncResources s1 = syncResources Scenario.synced /\
    syncAllCustomResources s1 = false /\
    chan_len (setSyncResourcesCh s1) = 1 /\
    SetResources None true s1 = SetResources None true (synchro Scenario.afterShutdown).
Proof.
  apply (SetResources_coalesces Scenario.afterShutdown).
  exists Scenario.shutdownTwice, Scenario.system0. split; [|vm_compute; reflexivity].
  exists Scenario.deps, "c1", Scenario.restConfig, Scenario.clusterSyncConfig, Scenario.c1.
  split; [vm_compute; reflexivity|reflexivity].
Defined.

Lemma refreshes_run ls a b :
  wakeOK (synchro a) -> run ls a = Some b ->
  length (filter (fun l => isRefresh l = true) ls) + chan_len (setSyncResourcesCh (synchro b))
  <= length (filter (fun l => isWakeup l = true) ls) + chan_len (setSyncResourcesCh (synchro a)).
Proof.
  revert a. induction ls as [|l ls IH]; intros a Hok Hrun; simpl in Hrun.
  - simplify_eq. simpl. lia.
  - destruct (step l a) as [a'|] eqn:Hstep; [|done].
    pose proof (wakeOK_step l a a' Hok Hstep) as Hok'.
    specialize (IH a' Hok' Hrun).
    assert (Hl : (if isRefresh l then 1 else 0) + chan_len (setSyncResourcesCh (synchro a'))
                 <= (if isWakeup l then 1 else 0) + chan_len (setSyncResourcesCh (synchro a))).
    { clear IH Hrun Hok'. destruct Hok as (Hcap & Hlen & Hcl).
      destruct a as [s calls]. simpl in *.
      destruct l; try (step_inv Hstep; simpl in *; lia).
      step_inv Hstep. refresh_frame_goal.
      match goal with H : setSyncResourcesCh _ = _ |- _ => rewrite H end.
      simpl in *. lia. }
    rewrite !filter_cons.
    destruct (isRefresh l) eqn:Hr, (isWakeup l) eqn:Hw;
      repeat case_decide; simpl; try congruence; lia.
Qed.

(** The refresher runs [refreshSyncResources] only on a wake-up, and
    wake-ups are not queued: along every run, the refreshes made plus the
    wake-up still pending are at most the calls of [SetResources] and the
    resource mutations. *)
Theorem refreshes_follow_wakeups (ls : list Label) (sys : System) :
  reachable_by ls sys ->
  length (filter (fun l => isRefresh l = true) ls)
    + chan_len (setSyncResourcesCh (synchro sys))
  <= length (filter (fun l => isWakeup l = true) ls).
Proof.
  intros (sys0 & Hinit & Hrun).
  assert (Hok : wakeOK (synchro sys0)).
  { apply wakeOK_reachable. exists [], sys0. split; [done|reflexivity]. }
  pose proof (refreshes_run ls sys0 sys Hok Hrun) as H.
  destruct Hinit as (d & n & config & sc & s & HN & ->). simpl in *.
  apply New_setSyncResourcesCh in HN. rewrite HN in H. simpl in H. lia.
Qed.

Lemma refreshes_follow_wakeups_witness :
  1 + chan_len (setSyncResourcesCh (synchro Scenario.refreshedOnce)) <= 1.
Proof.
  apply (refreshes_follow_wakeups
           [LSetResources (syncResources Scenario.synced) false;
            LRefresh (Scenario.podsOnly [] true)] Scenario.refreshedOnce).
  exists Scenario.system0. split; [|vm_compute; reflexivity].
  exists Scenario.deps, "c1", Scenario.restConfig, Scenario.clusterSyncConfig, Scenario.c1.
  split; [vm_compute; reflexivity|reflexivity].
Defined.

(** ** [Shutdown] without [Run], and [updateStatus] after [Shutdown] *)

(** Only the goroutine that [Run] spawns closes [s.closed]: in a run in
    which [Run] is never called, [closed] stays open and no call of
    [Shutdown] returns. *)
Theorem Shutdown_needs_Run (ls : list Label) (sys : System) :
  reachable_by ls sys ->
  Forall (fun l => isRun l = false) ls ->
  chan_closed (closed (synchro sys)) = false /\
  forall c, c ∈ shutdowns sys -> ~ returned c.
Proof.
  intros Hreach Hno.
  assert (Hclosed : statusLoops (synchro sys) = 0 /\ chan_closed (closed (synchro sys)) = false).
  { destruct Hreach as (sys0 & Hinit & Hrun).
    eapply (run_invariant (fun l => isRun l = false)
              (fun sys => statusLoops (synchro sys) = 0 /\
                          chan_closed (closed (synchro sys)) = false));
      [|exact Hno| |exact Hrun].
    - clear. intros l [s calls] b Hl [Hloops Hcl] Hstep. simpl in *.
      destruct l; try discriminate;
        try (step_inv Hstep; simpl in *; (done || lia)).
      step_inv Hstep. refresh_frame_goal.
      repeat match goal with H : _ (refreshSyncResources _ _) = _ |- _ => rewrite H end.
      done.
    - destruct Hinit as (d & n & config & sc & s & HN & ->). simpl.
      new_inv HN rvs s0.
      repeat match goal with H : _ (initWithResourceVersions _ _) = _ |- _ => rewrite H end.
      repeat match goal with H : _ s0 = _ |- _ => rewrite H end. done. }
  split; [tauto|].
  intros c Hin Hret.
  assert (Hr : reachable sys) by (by exists ls).
  destruct (shutdownOK_reachable sys Hr) as (_ & Hcalls & _).
  pose proof (proj1 (Forall_forall _ _) Hcalls c Hin) as Hc.
  unfold callOK in Hc. unfold returned in Hret. rewrite Hret in Hc.
  destruct Hclosed. destruct Hc. congruence.
Qed.

Lemma Shutdown_needs_Run_witness :
  chan_closed (closed (synchro Cases.shutdownUnrun)) = false /\
  forall c, c ∈ shutdowns Cases.shutdownUnrun -> ~ returned c.
Proof.
  apply (Shutdown_needs_Run Cases.shutdownBeforeRun Cases.shutdownUnrun).
  - exists Scenario.system0. split; [|vm_compute; reflexivity].
    exists Scenario.deps, "c1", Scenario.restConfig, Scenario.clusterSyncConfig, Scenario.c1.
    split; [vm_compute; reflexivity|reflexivity].
  - unfold Cases.shutdownBeforeRun. repeat constructor.
Defined.

(** Once a call of [Shutdown] has returned, the status channel is closed
    for good: [updateStatus] panics with a send on a closed channel, and the
    status goroutine has nothing left to publish. *)
Theorem updateStatus_after_Shutdown_panics (sys : System) (c : ShutdownCall) :
  reachable sys -> c ∈ shutdowns sys -> returned c ->
  updateStatus (synchro sys) = Panic /\
  step LUpdateStatus sys = None /\
  chan_len (updateStatusCh (synchro sys)) = 0.
Proof.
  intros Hr Hin Hret.
  destruct (shutdownOK_reachable sys Hr) as (Hlc & Hcalls & _).
  pose proof (proj1 (Forall_forall _ _) Hcalls c Hin) as Hc.
  unfold callOK in Hc. unfold returned in Hret. rewrite Hret in Hc.
  destruct Hc as [Hdone Hcl]. unfold lifecycleOK in Hlc. rewrite Hdone in Hlc.
  destruct Hlc as ((_ & Hch) & _).
  assert (Hlen : chan_closed (closed (synchro sys)) = true ->
                 chan_closed (updateStatusCh (synchro sys)) = true /\
                 chan_len (updateStatusCh (synchro sys)) = 0).
  { clear -Hr. revert sys Hr. apply (reachable_invariant
      (fun sys => chan_closed (closed (synchro sys)) = true ->
                  chan_closed (updateStatusCh (synchro sys)) = true /\
                  chan_len (updateStatusCh (synchro sys)) = 0)).
    - intros sys (d & n & config & sc & s & HN & ->). simpl.
      new_inv HN rvs s0.
      repeat match goal with H : _ (initWithResourceVersions _ _) = _ |- _ => rewrite H end.
      repeat match goal with H : _ s0 = _ |- _ => rewrite H end. done.
    - intros l [s calls] b IH Hstep. simpl in *.
      destruct l;
        try (step_inv Hstep; simpl in *;
             (done || lia || solve [auto] || solve [intros Hc; destruct (IH Hc); congruence])).
      step_inv Hstep. refresh_frame_goal.
      repeat match goal with H : _ (refreshSyncResources _ _) = _ |- _ => rewrite H end.
      done. }
  destruct (Hlen Hcl) as [_ Hl0].
  unfold step, with_synchro, updateStatus, chan_try_send. rewrite Hch. auto.
Qed.

Lemma updateStatus_after_Shutdown_panics_witness :
  updateStatus (synchro Scenario.afterShutdown) = Panic /\
  step LUpdateStatus Scenario.afterShutdown = None /\
  chan_len (updateStatusCh (synchro Scenario.afterShutdown)) = 0.
Proof.
  eapply (updateStatus_after_Shutdown_panics Scenario.afterShutdown).
  - exists Scenario.shutdownTwice, Scenario.system0. split; [|vm_compute; reflexivity].
    exists Scenario.deps, "c1", Scenario.restConfig, Scenario.clusterSyncConfig, Scenario.c1.
    split; [vm_compute; reflexivity|reflexivity].
  - apply list_elem_of_here.
  - reflexivity.
Defined.

(** ** One plan entry in the first loop *)

Lemma synchroConfig_frame s s' config rvs st :
  frame s' = frame s -> synchroConfig s' config rvs st = synchroConfig s config rvs st.
Proof.
  unfold frame, synchroConfig. intros F. simplify_eq.
  repeat match goal with H : _ s' = _ s |- _ => rewrite H; clear H end. done.
Qed.

Lemma plannedSynchro_ext w s s' g config :
  frame s' = frame s ->
  storageResourceVersions s' !! g = storageResourceVersions s !! g ->
  plannedSynchro w s' g config = plannedSynchro w s g config.
Proof.
  intros F V. unfold plannedSynchro, watermarksFor. rewrite V.
  destruct (NewResourceStorage w _) as [st err].
  rewrite (synchroConfig_frame s s') by done.
  unfold frame in F. simplify_eq.
  repeat match goal with H : _ s' = _ s |- _ => rewrite H; clear H end. done.
Qed.

Lemma creationCalls_ext w M s s' g config :
  frame s' = frame s ->
  storageResourceVersions s' !! g = storageResourceVersions s !! g ->
  creationCalls w M s' g config = creationCalls w M s g config.
Proof.
  intros F V. unfold creationCalls, watermarksFor. rewrite V.
  destruct (NewResourceStorage w _) as [st err].
  rewrite (synchroConfig_frame s s') by done.
  unfold frame in F. simplify_eq.
  repeat match goal with H : _ s' = _ s |- _ => rewrite H; clear H end. done.
Qed.

Lemma createSynchro_versions_other w M s e g :
  g <> e.1 ->
  storageResourceVersions (createSynchro w M s e) !! g = storageResourceVersions s !! g.
Proof. intros Hne. create_cases; try done; by rewrite lookup_insert_ne. Qed.

Ltac normal_config s :=
  repeat match goal with
  | |- context [synchroConfig ?s1 ?c ?r ?t] =>
      lazymatch s1 with
      | s => fail
      | _ => rewrite (synchroConfig_frame s s1 c r t) by reflexivity
      end
  end; simpl name.

Ltac split_synchro s :=
  normal_config s;
  match goal with
  | |- context [NewResourceSynchro ?w0 (name s) ?c] =>
      destruct (NewResourceSynchro w0 (name s) c) as [syn err']
  end;
  case_decide.

Ltac created_trace s :=
  split_synchro s;
  [ rewrite updateSyncConditions_eq; simpl; rewrite <- ?app_assoc; simpl; done
  | unfold startSynchro; rewrite updateSyncConditions_eq; simpl;
    destruct (handlerStopCh s) as [ch|]; [destruct (chan_closed ch)|]; simpl;
    rewrite <- ?app_assoc; simpl; rewrite <- ?app_assoc; simpl; rewrite ?app_nil_r;
    done ].

Lemma createSynchro_trace w M s e :
  storageResourceSynchros s !! e.1 = None ->
  trace (createSynchro w M s e) = trace s ++ creationCalls w M s e.1 e.2.
Proof.
  intros Hnone.
  unfold creationCalls, watermarksFor, freshResourceVersions, fanout, createSynchro.
  rewrite Hnone. destruct (NewResourceStorage w _) as [st err].
  case_decide.
  { rewrite updateSyncConditions_eq. simpl. by rewrite <- app_assoc. }
  unfold ensureResourceVersions. simpl.
  destruct (storageResourceVersions s !! e.1) as [rvs|] eqn:Hv; simpl.
  - created_trace s.
  - created_trace s.
Qed.

Lemma createSynchro_registry_self w M s e :
  storageResourceSynchros s !! e.1 = None ->
  storageResourceSynchros (createSynchro w M s e) !! e.1 = plannedSynchro w s e.1 e.2.
Proof.
  intros Hnone.
  unfold plannedSynchro, watermarksFor, freshResourceVersions, createSynchro.
  rewrite Hnone. destruct (NewResourceStorage w _) as [st err].
  case_decide.
  { by rewrite updateSyncConditions_eq. }
  unfold ensureResourceVersions. simpl.
  destruct (storageResourceVersions s !! e.1) as [rvs|] eqn:Hv; simpl.
  all: split_synchro s;
    [ by rewrite updateSyncConditions_eq
    | unfold startSynchro; rewrite updateSyncConditions_eq; simpl;
      destruct (handlerStopCh s) as [ch|]; [destruct (chan_closed ch)|]; simpl;
      by rewrite lookup_insert_eq ].
Qed.

Lemma createSynchro_versions_self w M s e :
  storageResourceVersions (createSynchro w M s e) !! e.1 = plannedVersions w s e.1 e.2.
Proof.
  unfold plannedVersions, freshResourceVersions, createSynchro.
  destruct (storageResourceSynchros s !! e.1) as [syn0|] eqn:Hr.
  { by destruct (storageResourceVersions s !! e.1). }
  destruct (NewResourceStorage w _) as [st err]. simpl.
  case_decide.
  { rewrite updateSyncConditions_eq. simpl.
    destruct (storageResourceVersions s !! e.1); [done|]. by rewrite decide_False. }
  unfold ensureResourceVersions. simpl.
  destruct (storageResourceVersions s !! e.1) as [rvs|] eqn:Hv; simpl.
  all: split_synchro s;
    [ rewrite updateSyncConditions_eq; simpl
    | unfold startSynchro; rewrite updateSyncConditions_eq; simpl;
      destruct (handlerStopCh s) as [ch|]; [destruct (chan_closed ch)|]; simpl ];
    rewrite ?lookup_insert_eq, ?decide_True by (by destruct (decide (err = nilError)));
    done.
Qed.

(** ** The first loop over the plan *)

Lemma frame_foldl_createSynchro w M l s :
  frame (foldl (createSynchro w M) s l) = frame s.
Proof. apply frame_foldl. intros. apply frame_createSynchro. Qed.

Lemma foldl_createSynchro_versions_other w M l s g :
  g ∉ l.*1 ->
  storageResourceVersions (foldl (createSynchro w M) s l) !! g
    = storageResourceVersions s !! g.
Proof.
  revert s. induction l as [|e l IH]; intros s H; simpl in *; [done|].
  apply not_elem_of_cons in H as [Hne H]. rewrite IH by done.
  by apply createSynchro_versions_other.
Qed.

Lemma pendingCalls_ext w M s s' l :
  frame s' = frame s ->
  (forall g, g ∈ l.*1 ->
     storageResourceSynchros s' !! g = storageResourceSynchros s !! g /\
     storageResourceVersions s' !! g = storageResourceVersions s !! g) ->
  pendingCalls w M s' l = pendingCalls w M s l.
Proof.
  intros F H. unfold pendingCalls. f_equal. apply map_ext_in.
  intros e He%list_elem_of_In.
  destruct (H e.1) as [-> Hv]; [apply list_elem_of_fmap; eauto|].
  by rewrite (creationCalls_ext w M s s').
Qed.

Lemma foldl_createSynchro_trace w M l s :
  NoDup l.*1 ->
  trace (foldl (createSynchro w M) s l) = trace s ++ pendingCalls w M s l.
Proof.
  revert s. induction l as [|e l IH]; intros s Hnd; simpl.
  { unfold pendingCalls. simpl. by rewrite app_nil_r. }
  apply NoDup_cons in Hnd as [Hne Hnd]. rewrite IH by done.
  rewrite (pendingCalls_ext w M s (createSynchro w M s e) l).
  - unfold pendingCalls at 2. simpl. fold (pendingCalls w M s l).
    destruct (storageResourceSynchros s !! e.1) as [syn|] eqn:Hr.
    + by erewrite createSynchro_registered.
    + rewrite createSynchro_trace by done. by rewrite <- app_assoc.
  - apply frame_createSynchro.
  - intros g Hg. assert (g <> e.1) by (intros ->; done).
    split; [by apply createSynchro_registry_other|by apply createSynchro_versions_other].
Qed.

Lemma foldl_createSynchro_registry w M l s g config :
  NoDup l.*1 -> (g, config) ∈ l ->
  storageResourceSynchros (foldl (createSynchro w M) s l) !! g =
  match storageResourceSynchros s !! g with
  | Some syn => Some syn
  | None => plannedSynchro w s g config
  end.
Proof.
  revert s. induction l as [|e l IH]; intros s Hnd Hin; simpl.
  { by apply elem_of_nil in Hin. }
  apply NoDup_cons in Hnd as [Hne Hnd].
  apply elem_of_cons in Hin as [<-|Hin].
  - simpl in *. rewrite foldl_createSynchro_registry_other by done.
    destruct (storageResourceSynchros s !! g) as [syn|] eqn:Hr.
    + by erewrite createSynchro_registered.
    + exact (createSynchro_registry_self w M s (g, config) Hr).
  - assert (g <> e.1).
    { intros ->. apply Hne. apply list_elem_of_fmap. by exists (e.1, config). }
    rewrite IH by done. rewrite createSynchro_registry_other by done.
    rewrite (plannedSynchro_ext w s (createSynchro w M s e)); [done| |].
    + apply frame_createSynchro.
    + by apply createSynchro_versions_other.
Qed.

Lemma plannedVersions_ext w s s' g config :
  storageResourceSynchros s' !! g = storageResourceSynchros s !! g ->
  storageResourceVersions s' !! g = storageResourceVersions s !! g ->
  plannedVersions w s' g config = plannedVersions w s g config.
Proof. unfold plannedVersions. by intros -> ->. Qed.

Lemma foldl_createSynchro_versions w M l s g config :
  NoDup l.*1 -> (g, config) ∈ l ->
  storageResourceVersions (foldl (createSynchro w M) s l) !! g = plannedVersions w s g config.
Proof.
  revert s. induction l as [|e l IH]; intros s Hnd Hin; simpl.
  { by apply elem_of_nil in Hin. }
  apply NoDup_cons in Hnd as [Hne Hnd].
  apply elem_of_cons in Hin as [<-|Hin].
  - simpl in *. rewrite foldl_createSynchro_versions_other by done.
    apply (createSynchro_versions_self w M s (g, config)).
  - assert (g <> e.1).
    { intros ->. apply Hne. apply list_elem_of_fmap. by exists (e.1, config). }
    rewrite IH by done.
    apply plannedVersions_ext;
      [by apply createSynchro_registry_other|by apply createSynchro_versions_other].
Qed.

(** ** The registry, the watermarks and the calls of a whole refresh *)

Lemma frame_refreshNegotiated w s : frame (refreshNegotiated w s) = frame s.
Proof. unfold refreshNegotiated. by destruct (syncResources s). Qed.

Lemma refreshCreated_registry w s g config :
  refreshPlan w s !! g = Some config ->
  storageResourceSynchros (refreshCreated w s) !! g =
  match storageResourceSynchros s !! g with
  | Some syn => Some syn
  | None => plannedSynchro w s g config
  end.
Proof.
  intros Hp. destruct (refreshNegotiated_fields w s) as (HR & HV & _).
  unfold refreshCreated.
  rewrite (foldl_createSynchro_registry _ _ _ _ g config);
    [|apply NoDup_fst_map_to_list|by apply elem_of_map_to_list].
  rewrite HR. destruct (storageResourceSynchros s !! g); [done|].
  apply plannedSynchro_ext; [apply frame_refreshNegotiated|by rewrite HV].
Qed.

Lemma refreshCreated_versions w s g config :
  refreshPlan w s !! g = Some config ->
  storageResourceVersions (refreshCreated w s) !! g = plannedVersions w s g config.
Proof.
  intros Hp. destruct (refreshNegotiated_fields w s) as (HR & HV & _).
  unfold refreshCreated.
  rewrite (foldl_createSynchro_versions _ _ _ _ g config);
    [|apply NoDup_fst_map_to_list|by apply elem_of_map_to_list].
  apply plannedVersions_ext; by rewrite ?HR, ?HV.
Qed.

Lemma refreshCreated_unplanned w s g :
  refreshPlan w s !! g = None ->
  storageResourceSynchros (refreshCreated w s) !! g = storageResourceSynchros s !! g /\
  storageResourceVersions (refreshCreated w s) !! g = storageResourceVersions s !! g.
Proof.
  intros Hp. destruct (refreshNegotiated_fields w s) as (HR & HV & _).
  assert (Hn : g ∉ (map_to_list (refreshPlan w s)).*1).
  { intros ([g' c] & -> & Hin%elem_of_map_to_list)%list_elem_of_fmap. simpl in *. congruence. }
  unfold refreshCreated.
  rewrite foldl_createSynchro_registry_other, foldl_createSynchro_versions_other by done.
  by rewrite HR, HV.
Qed.

Lemma planned_not_removed w s g config :
  refreshPlan w s !! g = Some config ->
  g ∉ filter (fun storageGVR => refreshPlan w s !! storageGVR = None)
        (map_to_list (storageResourceSynchros (refreshCreated w s))).*1.
Proof. intros Hp [Hn _]%list_elem_of_filter. congruence. Qed.

(** The fields of the state after the last loops, in each way a refresh
    can end. *)
Lemma refresh_registry_stages w s rs :
  syncResources s = Some rs ->
  storageResourceSynchros (refreshSyncResources w s)
    = storageResourceSynchros (refreshClosed w s).1.
Proof.
  intros Hrs. unfold refreshSyncResources.
  destruct (refresh_exit_cases w s rs Hrs) as [[_ ->]|[(_ & _ & ->)|(_ & _ & ->)]]; simpl.
  - done.
  - unfold refreshCleaned. by rewrite cleanResources_registry.
  - rewrite foldl_callDeleteVersion. simpl.
    unfold refreshCleaned. by rewrite cleanResources_registry.
Qed.

Lemma refresh_versions_stages w s rs :
  syncResources s = Some rs ->
  storageResourceVersions (refreshSyncResources w s) =
    if decide ((refreshSyncResources_exit w s).2 = ShutdownObserved)
    then storageResourceVersions (refreshCreated w s)
    else storageResourceVersions (refreshCleaned w s).1.1.
Proof.
  intros Hrs. unfold refreshSyncResources.
  destruct (refresh_exit_cases w s rs Hrs) as [[_ ->]|[(_ & _ & ->)|(_ & _ & ->)]]; simpl.
  - unfold refreshClosed. by rewrite closeSynchros_versions.
  - done.
  - by rewrite foldl_callDeleteVersion.
Qed.

Lemma refresh_registry_planned w s g config :
  refreshPlan w s !! g = Some config ->
  storageResourceSynchros (refreshSyncResources w s) !! g =
  match storageResourceSynchros s !! g with
  | Some syn => Some syn
  | None => plannedSynchro w s g config
  end.
Proof.
  intros Hp. destruct (syncResources s) as [rs|] eqn:Hrs.
  2:{ unfold refreshPlan in Hp. by rewrite Hrs in Hp. }
  rewrite (refresh_registry_stages w s rs Hrs). unfold refreshClosed.
  rewrite closeSynchros_registry_other by (by eapply planned_not_removed).
  by apply refreshCreated_registry.
Qed.

Lemma refresh_versions_planned w s g config :
  refreshPlan w s !! g = Some config ->
  storageResourceVersions (refreshSyncResources w s) !! g = plannedVersions w s g config.
Proof.
  intros Hp. destruct (syncResources s) as [rs|] eqn:Hrs.
  2:{ unfold refreshPlan in Hp. by rewrite Hrs in Hp. }
  rewrite (refresh_versions_stages w s rs Hrs).
  case_decide.
  - by apply refreshCreated_versions.
  - unfold refreshCleaned. rewrite cleanResources_versions_planned by eauto.
    unfold refreshClosed. rewrite closeSynchros_versions.
    by apply refreshCreated_versions.
Qed.

Lemma refresh_registry_unplanned w s g syn :
  refreshPlan w s !! g = None ->
  storageResourceSynchros (refreshSyncResources w s) !! g = Some syn ->
  storageResourceSynchros s !! g = Some syn.
Proof.
  intros Hp. destruct (syncResources s) as [rs|] eqn:Hrs.
  2:{ unfold refreshSyncResources. by rewrite refresh_nil. }
  rewrite (refresh_registry_stages w s rs Hrs). unfold refreshClosed.
  intros H%closeSynchros_registry_shrinks.
  by rewrite (proj1 (refreshCreated_unplanned w s g Hp)) in H.
Qed.

Lemma refresh_versions_unplanned w s g x :
  refreshPlan w s !! g = None ->
  storageResourceVersions (refreshSyncResources w s) !! g = Some x ->
  storageResourceVersions s !! g = Some x.
Proof.
  intros Hp. destruct (syncResources s) as [rs|] eqn:Hrs.
  2:{ unfold refreshSyncResources. by rewrite refresh_nil. }
  rewrite (refresh_versions_stages w s rs Hrs).
  rewrite <- (proj2 (refreshCreated_unplanned w s g Hp)).
  case_decide; [done|].
  unfold refreshCleaned. intros Hx%cleanResources_versions_shrink.
  unfold refreshClosed in Hx. by rewrite closeSynchros_versions in Hx.
Qed.

Lemma refresh_registry_within_plan w s rs g :
  syncResources s = Some rs ->
  (refreshSyncResources_exit w s).2 <> ShutdownObserved ->
  refreshPlan w s !! g = None ->
  storageResourceSynchros (refreshSyncResources w s) !! g = None.
Proof.
  intros Hrs Hexit Hp. rewrite (refresh_registry_stages w s rs Hrs).
  destruct (storageResourceSynchros (refreshClosed w s).1 !! g) as [syn|] eqn:Hg; [|done].
  assert (Hret : (refreshClosed w s).2 = Returned).
  { destruct (refresh_exit_cases w s rs Hrs) as [[_ E]|[(? & _)|(? & _)]]; try done.
    by rewrite E in Hexit. }
  destruct (refreshClosed_registry w s g) as [c Hc]; [by eexists|done|congruence].
Qed.

Lemma refresh_versions_within_plan w s rs g :
  syncResources s = Some rs ->
  (refreshSyncResources_exit w s).2 = Returned ->
  refreshPlan w s !! g = None ->
  storageResourceVersions (refreshSyncResources w s) !! g = None.
Proof.
  intros Hrs Hexit Hp. rewrite (refresh_versions_stages w s rs Hrs), Hexit.
  rewrite decide_False by done.
  apply refreshCleaned_versions; [|done].
  destruct (refresh_exit_cases w s rs Hrs) as [[_ E]|[(_ & _ & E)|(_ & ? & _)]];
    try done; by rewrite E in Hexit.
Qed.

(** ** The calls of a refresh, loop by loop *)

Lemma closeEvent_tail M g e : closeEvent M g e -> tailEvent e.
Proof. intros [->|[->|(gvr & _ & ->)]]; done. Qed.

Lemma cleanEvent_tail w c M g e : cleanEvent w c M g e -> tailEvent e.
Proof. intros [->|(gvr & m & _ & _ & ->)]; done. Qed.

Lemma refresh_tail w s rs :
  syncResources s = Some rs ->
  extends tailEvent (refreshCreated w s) (refreshSyncResources w s).
Proof.
  intros Hrs.
  assert (E2 : extends tailEvent (refreshCreated w s) (refreshClosed w s).1).
  { eapply extends_weaken; [|apply closeSynchros_extends].
    intros e (g & _ & He). by eapply closeEvent_tail. }
  assert (E3 : extends tailEvent (refreshCreated w s) (refreshCleaned w s).1.1).
  { eapply extends_trans; [exact E2|].
    eapply extends_weaken; [|apply cleanResources_extends].
    intros e (g & _ & _ & He). by eapply cleanEvent_tail. }
  unfold refreshSyncResources.
  destruct (refresh_exit_cases w s rs Hrs) as [[_ ->]|[(_ & _ & ->)|(_ & _ & ->)]]; simpl.
  - done.
  - done.
  - eapply extends_trans; [exact E3|].
    rewrite foldl_callDeleteVersion. eexists. split; [reflexivity|].
    by apply Forall_fmap, Forall_forall.
Qed.

Lemma refreshCreated_trace w s rs :
  syncResources s = Some rs ->
  trace (refreshCreated w s) =
    trace s ++ EvNegotiateSyncResources rs ::
      pendingCalls w (refreshFanout w s) s (map_to_list (refreshPlan w s)).
Proof.
  intros Hrs. unfold refreshCreated.
  rewrite foldl_createSynchro_trace by apply NoDup_fst_map_to_list.
  destruct (refreshNegotiated_fields w s) as (HR & HV & _).
  rewrite (pendingCalls_ext w _ s (refreshNegotiated w s)).
  - unfold refreshNegotiated. rewrite Hrs. simpl. by rewrite <- app_assoc.
  - apply frame_refreshNegotiated.
  - intros g _. by rewrite HR, HV.
Qed.

Lemma refresh_calls w s rs :
  syncResources s = Some rs ->
  exists rest,
    refreshCalls w s =
      EvNegotiateSyncResources rs ::
        pendingCalls w (refreshFanout w s) s (map_to_list (refreshPlan w s)) ++ rest /\
    Forall tailEvent rest.
Proof.
  intros Hrs. destruct (refresh_tail w s rs Hrs) as (rest & Ht & Hrest).
  exists rest. split; [|done].
  unfold refreshCalls. rewrite Ht, (refreshCreated_trace w s rs Hrs).
  rewrite <- app_assoc. by rewrite drop_app_length.
Qed.

Lemma refresh_trace_calls w s :
  trace (refreshSyncResources w s) = trace s ++ refreshCalls w s.
Proof.
  destruct (refresh_extends w s) as (evs & Ht & _).
  unfold refreshCalls. rewrite Ht. by rewrite drop_app_length.
Qed.

(** The calls of the first loop for one entry of the plan, inside the calls
    of the refresh. *)
Lemma pendingCalls_split w M s l g config :
  (g, config) ∈ l -> storageResourceSynchros s !! g = None ->
  exists before after,
    pendingCalls w M s l = before ++ creationCalls w M s g config ++ after.
Proof.
  intros (l1 & l2 & ->)%list_elem_of_split Hr.
  exists (pendingCalls w M s l1), (pendingCalls w M s l2).
  unfold pendingCalls. rewrite map_app, concat_app. simpl. by rewrite Hr.
Qed.

Lemma refresh_calls_creation w s g config :
  refreshPlan w s !! g = Some config ->
  storageResourceSynchros s !! g = None ->
  exists before after,
    refreshCalls w s = before ++ creationCalls w (refreshFanout w s) s g config ++ after.
Proof.
  intros Hp Hr. destruct (syncResources s) as [rs|] eqn:Hrs.
  2:{ unfold refreshPlan in Hp. by rewrite Hrs in Hp. }
  destruct (refresh_calls w s rs Hrs) as (rest & -> & _).
  destruct (pendingCalls_split w (refreshFanout w s) s (map_to_list (refreshPlan w s))
              g config) as (b & a & ->); [by apply elem_of_map_to_list|done|].
  exists (EvNegotiateSyncResources rs :: b), (a ++ rest).
  simpl. by rewrite <- !app_assoc.
Qed.

Lemma elem_of_pendingCalls w M s l e :
  e ∈ pendingCalls w M s l <->
  exists g config, (g, config) ∈ l /\ storageResourceSynchros s !! g = None /\
                   e ∈ creationCalls w M s g config.
Proof.
  unfold pendingCalls. induction l as [|[g config] l IH]; simpl.
  - split; [by intros ?%elem_of_nil|]. by intros (? & ? & ?%elem_of_nil & _).
  - rewrite elem_of_app, IH. split.
    + intros [He|(g' & c' & Hin & Hr & He)].
      * destruct (storageResourceSynchros s !! g) eqn:Hr; [by apply elem_of_nil in He|].
        exists g, config. split_and!; [by left|done..].
      * exists g', c'. split_and!; [by right|done..].
    + intros (g' & c' & [Heq|Hin]%elem_of_cons & Hr & He).
      * simplify_eq. left. by rewrite Hr.
      * right. eauto.
Qed.

Lemma elem_of_updateEvents e status reason message l :
  e ∈ updateEvents status reason message l ->
  exists gvr, e = EvUpdateSyncCondition gvr status reason message.
Proof. intros (gvr & -> & _)%list_elem_of_fmap. eauto. Qed.

Lemma refreshCalls_nil w s : syncResources s = None -> refreshCalls w s = [].
Proof.
  intros Hrs. unfold refreshCalls, refreshSyncResources. rewrite refresh_nil by done.
  simpl. by rewrite drop_all.
Qed.

(** A call of a refresh that is neither the negotiation nor a call of the
    last loops is a call of the creation of one plan entry. *)
Lemma refresh_calls_first_loop w s e :
  ~ tailEvent e -> (forall rs, e <> EvNegotiateSyncResources rs) ->
  (e ∈ refreshCalls w s <->
   exists g config,
     refreshPlan w s !! g = Some config /\ storageResourceSynchros s !! g = None /\
     e ∈ creationCalls w (refreshFanout w s) s g config).
Proof.
  intros Hnt Hnn. destruct (syncResources s) as [rs|] eqn:Hrs; last first.
  { rewrite refreshCalls_nil by done. split; [by intros ?%elem_of_nil|].
    intros (g & config & Hp & _). unfold refreshPlan in Hp. by rewrite Hrs in Hp. }
  split.
  - destruct (refresh_calls w s rs Hrs) as (rest & -> & Hrest).
    intros [->|[Hpend|Hr]%elem_of_app]%elem_of_cons.
    + by destruct (Hnn rs).
    + apply elem_of_pendingCalls in Hpend as (g' & config & Hgc & Hr' & He).
      apply elem_of_map_to_list in Hgc. eauto 6.
    + destruct Hnt. by apply (proj1 (Forall_forall _ _) Hrest).
  - intros (g' & config & Hp & Hr & He).
    destruct (refresh_calls_creation w s g' config Hp Hr) as (b & a & ->).
    apply elem_of_app. right. apply elem_of_app. by left.
Qed.

(** The calls of the creation of one plan entry. *)
Lemma elem_of_creationCalls w M s g config e :
  e ∈ creationCalls w M s g config ->
  e = EvNewResourceStorage g (resourceStorageConfig config) \/
  (exists gvr a b c, e = EvUpdateSyncCondition gvr a b c) \/
  (exists st, NewResourceStorage w (resourceStorageConfig config) = (st, nilError) /\
     e = EvNewResourceSynchro g (synchroConfig s config (watermarksFor s g) st)) \/
  (exists syn, plannedSynchro w s g config = Some syn /\
     (e = EvSynchroRun g \/ e = EvStoreSynchro g \/
      e = EvSynchroStart g /\ handlerOpen s = true)).
Proof.
  unfold creationCalls, plannedSynchro, handlerOpen.
  destruct (NewResourceStorage w _) as [st err].
  intros [->|He]%elem_of_cons; [by left|].
  case_decide as Herr.
  { apply elem_of_updateEvents in He as [gvr ->]. right; left. eauto 6. }
  assert (err = nilError) as -> by (by destruct (decide (err = nilError))).
  apply elem_of_cons in He as [->|He]; [right; right; left; eauto|].
  destruct (NewResourceSynchro w _ _) as [syn err'].
  case_decide.
  { apply elem_of_updateEvents in He as [gvr ->]. right; left. eauto 6. }
  apply elem_of_cons in He as [->|He]; [do 3 right; exists syn; split; [done|by left]|].
  apply elem_of_cons in He as [->|He];
    [do 3 right; exists syn; split; [done|right; by left]|].
  apply elem_of_app in He as [He|He].
  { apply elem_of_updateEvents in He as [gvr ->]. right; left. eauto 6. }
  destruct (handlerStopCh s) as [ch|]; [destruct (chan_closed ch)|];
    try (by apply elem_of_nil in He).
  apply list_elem_of_singleton in He as ->.
  do 3 right. exists syn. split; [done|]. right; right. done.
Qed.

Lemma creationCalls_created w M s g config syn :
  plannedSynchro w s g config = Some syn ->
  exists st,
    NewResourceStorage w (resourceStorageConfig config) = (st, nilError) /\
    creationCalls w M s g config =
      [EvNewResourceStorage g (resourceStorageConfig config);
       EvNewResourceSynchro g (synchroConfig s config (watermarksFor s g) st);
       EvSynchroRun g; EvStoreSynchro g] ++
      updateEvents ResourceSyncStatusUnknown "" "" (elements (fanout M g)) ++
      (if handlerOpen s then [EvSynchroStart g] else []).
Proof.
  unfold creationCalls, plannedSynchro, handlerOpen.
  destruct (NewResourceStorage w _) as [st err].
  case_decide as Herr; [done|].
  assert (err = nilError) as -> by (by destruct (decide (err = nilError))).
  destruct (NewResourceSynchro w _ _) as [syn' err'].
  case_decide; [done|]. intros _. exists st. split; [done|]. simpl.
  do 4 f_equal. destruct (handlerStopCh s) as [ch|]; [|done]. by destruct (chan_closed ch).
Qed.

Lemma creationCalls_storage w M s g config st :
  NewResourceStorage w (resourceStorageConfig config) = (st, nilError) ->
  EvNewResourceSynchro g (synchroConfig s config (watermarksFor s g) st)
    ∈ creationCalls w M s g config.
Proof.
  unfold creationCalls. intros ->. rewrite decide_False by (by intros ?).
  apply list_elem_of_further, list_elem_of_here.
Qed.

(** ** What a refresh does for the storage GVRs of the plan *)

(** The registry after a refresh, key by key.  Under a storage GVR of the
    plan it holds the synchro it held before or, if it held none, the synchro
    that [NewResourceSynchro] returns when both constructors succeed, and
    nothing when one fails: the outcome for a plan entry does not depend on
    the other entries nor on the order in which the plan is visited.  Under
    a storage GVR outside the plan it never gains a synchro, and it holds
    none unless the refresh left on the closer. *)
Theorem refresh_registers_the_plan (w : World) (s : ClusterSynchro)
    (g : GroupVersionResource) :
  (forall config,
     refreshPlan w s !! g = Some config ->
     storageResourceSynchros (refreshSyncResources w s) !! g =
     match storageResourceSynchros s !! g with
     | Some syn => Some syn
     | None => plannedSynchro w s g config
     end) /\
  (refreshPlan w s !! g = None ->
     (forall syn,
        storageResourceSynchros (refreshSyncResources w s) !! g = Some syn ->
        storageResourceSynchros s !! g = Some syn) /\
     (is_Some (syncResources s) ->
      (refreshSyncResources_exit w s).2 <> ShutdownObserved ->
      storageResourceSynchros (refreshSyncResources w s) !! g = None)).
Proof.
  split; [intros config; apply refresh_registry_planned|].
  intros Hp. split.
  - intros syn. by apply refresh_registry_unplanned.
  - intros [rs Hrs] Hexit. by eapply refresh_registry_within_plan.
Qed.

Lemma refresh_registers_the_plan_witness :
  storageResourceSynchros
    (refreshSyncResources Cases.cronjobsFine Scenario.wantsCronjobs) !! Scenario.cronjobs
  = Some (Scenario.synchroOf Scenario.cronjobs) /\
  storageResourceSynchros
    (refreshSyncResources (Scenario.podsOnly [] true) Scenario.synced) !! Scenario.deployments
  = None.
Proof.
  split.
  - pose proof (proj1 (refresh_registers_the_plan Cases.cronjobsFine Scenario.wantsCronjobs
      Scenario.cronjobs) (Scenario.planEntry Scenario.cronjobs true)
      ltac:(vm_compute; reflexivity)) as H.
    rewrite H. vm_compute. reflexivity.
  - apply (proj2 (refresh_registers_the_plan (Scenario.podsOnly [] true) Scenario.synced
                    Scenario.deployments)).
    + vm_compute; reflexivity.
    + eexists. vm_compute; reflexivity.
    + vm_compute. discriminate.
Defined.

(** The watermark map after a refresh, under a storage GVR of the plan: an
    entry that existed is left as it was; where there was none, a fresh
    entry with two empty maps is there exactly when the GVR had no synchro
    and its resource storage was built, also when [NewResourceSynchro] then
    failed.  Under a storage GVR outside the plan a refresh never makes an
    entry. *)
Theorem refresh_keeps_planned_watermarks (w : World) (s : ClusterSynchro)
    (g : GroupVersionResource) :
  (forall config,
     refreshPlan w s !! g = Some config ->
     storageResourceVersions (refreshSyncResources w s) !! g =
     match storageResourceVersions s !! g with
     | Some rvs => Some rvs
     | None =>
         if decide (storageResourceSynchros s !! g = None /\
                    (NewResourceStorage w (resourceStorageConfig config)).2 = nilError)
         then Some {| Resources := Some ∅; Events := Some ∅ |}
         else None
     end) /\
  (refreshPlan w s !! g = None ->
   forall rvs,
     storageResourceVersions (refreshSyncResources w s) !! g = Some rvs ->
     storageResourceVersions s !! g = Some rvs).
Proof.
  split.
  - intros config Hp. rewrite (refresh_versions_planned w s g config Hp).
    unfold plannedVersions, freshResourceVersions.
    destruct (storageResourceVersions s !! g); [done|].
    destruct (storageResourceSynchros s !! g).
    + rewrite decide_False; [done|]. by intros [? _].
    + case_decide; [by rewrite decide_True|]. rewrite decide_False; [done|]. by intros [_ ?].
  - intros Hp rvs. by apply refresh_versions_unplanned.
Qed.

Lemma refresh_keeps_planned_watermarks_witness :
  storageResourceVersions
    (refreshSyncResources (Scenario.podsOnly [] true) Scenario.synced) !! Scenario.pods
  = Some {| Resources := Some ∅; Events := Some ∅ |}.
Proof.
  pose proof (proj1 (refresh_keeps_planned_watermarks (Scenario.podsOnly [] true)
    Scenario.synced Scenario.pods) (Scenario.planEntry Scenario.pods false)
    ltac:(vm_compute; reflexivity)) as H.
  rewrite H. vm_compute. reflexivity.
Defined.

(** ** The calls of the first loop *)

Lemma plannedSynchro_Some w s g config syn :
  plannedSynchro w s g config = Some syn <->
  exists st,
    NewResourceStorage w (resourceStorageConfig config) = (st, nilError) /\
    NewResourceSynchro w (name s) (synchroConfig s config (watermarksFor s g) st)
      = (syn, nilError).
Proof.
  unfold plannedSynchro.
  destruct (NewResourceStorage w _) as [st err]. simpl.
  case_decide as Herr.
  { split; [done|]. intros (st' & H1 & _). by simplify_eq. }
  assert (err = nilError) as -> by (by destruct (decide (err = nilError))).
  destruct (NewResourceSynchro w (name s) (synchroConfig s config (watermarksFor s g) st))
    as [syn' err'] eqn:Hsyn.
  case_decide as Herr'.
  { split; [done|]. intros (st' & H1 & H2). simplify_eq. rewrite Hsyn in H2. by simplify_eq. }
  assert (err' = nilError) as -> by (by destruct (decide (err' = nilError))).
  split.
  - intros H. simplify_eq. exists st. by rewrite Hsyn.
  - intros (st' & H1 & H2). simplify_eq. rewrite Hsyn in H2. by simplify_eq.
Qed.

(** Which calls to the constructors, to [Run] and to [Start] a refresh
    makes.  [NewResourceStorage] is called for the storage GVRs of the plan
    that have no synchro, with the storage configuration of their plan
    entry, and for no other: a creation that failed is tried again by the
    next refresh, and a registered or unplanned GVR is never built.  [Run]
    is started, and the synchro stored, for the GVRs whose two constructors
    succeed.  [Start] is launched for these same GVRs when the runner holds
    a [handlerStopCh] that is not closed, and never otherwise. *)
Theorem refresh_builds_what_is_missing (w : World) (s : ClusterSynchro)
    (g : GroupVersionResource) :
  (forall c,
     EvNewResourceStorage g c ∈ refreshCalls w s <->
     exists config, refreshPlan w s !! g = Some config /\
                    storageResourceSynchros s !! g = None /\
                    c = resourceStorageConfig config) /\
  (EvSynchroRun g ∈ refreshCalls w s <-> created w s g) /\
  (EvStoreSynchro g ∈ refreshCalls w s <-> created w s g) /\
  (EvSynchroStart g ∈ refreshCalls w s <-> created w s g /\ handlerOpen s = true).
Proof.
  assert (Hmk : forall config syn,
            plannedSynchro w s g config = Some syn ->
            EvSynchroRun g ∈ creationCalls w (refreshFanout w s) s g config /\
            EvStoreSynchro g ∈ creationCalls w (refreshFanout w s) s g config /\
            (handlerOpen s = true ->
             EvSynchroStart g ∈ creationCalls w (refreshFanout w s) s g config)).
  { intros config syn Hs.
    destruct (creationCalls_created w (refreshFanout w s) s g config syn Hs) as (st & _ & ->).
    split_and!.
    - do 2 apply list_elem_of_further. apply list_elem_of_here.
    - do 3 apply list_elem_of_further. apply list_elem_of_here.
    - intros ->. apply elem_of_app. right. apply elem_of_app. right. apply list_elem_of_here. }
  unfold created. split_and!.
  - intros c. rewrite refresh_calls_first_loop by (done || by intros ?). split.
    + intros (g' & config & Hp & Hr & He).
      destruct (elem_of_creationCalls _ _ _ _ _ _ He)
        as [?|[(?&?&?&?&?)|[(? & _ & ?)|(? & _ & [?|[?|[? _]]])]]];
        simplify_eq. eauto.
    + intros (config & Hp & Hr & ->). exists g, config. split_and!; try done.
      unfold creationCalls. destruct (NewResourceStorage w _). apply list_elem_of_here.
  - rewrite refresh_calls_first_loop by (done || by intros ?). split.
    + intros (g' & config & Hp & Hr & He).
      destruct (elem_of_creationCalls _ _ _ _ _ _ He)
        as [?|[(?&?&?&?&?)|[(? & _ & ?)|(syn & Hs & [?|[?|[? _]]])]]];
        simplify_eq. eauto.
    + intros (config & syn & Hp & Hr & Hs). exists g, config. split_and!; try done.
      by apply (Hmk config syn).
  - rewrite refresh_calls_first_loop by (done || by intros ?). split.
    + intros (g' & config & Hp & Hr & He).
      destruct (elem_of_creationCalls _ _ _ _ _ _ He)
        as [?|[(?&?&?&?&?)|[(? & _ & ?)|(syn & Hs & [?|[?|[? _]]])]]];
        simplify_eq. eauto.
    + intros (config & syn & Hp & Hr & Hs). exists g, config. split_and!; try done.
      by apply (Hmk config syn).
  - rewrite refresh_calls_first_loop by (done || by intros ?). split.
    + intros (g' & config & Hp & Hr & He).
      destruct (elem_of_creationCalls _ _ _ _ _ _ He)
        as [?|[(?&?&?&?&?)|[(? & _ & ?)|(syn & Hs & [?|[?|[? ?]]])]]];
        simplify_eq. eauto 6.
    + intros [(config & syn & Hp & Hr & Hs) Hopen]. exists g, config. split_and!; try done.
      by apply (Hmk config syn).
Qed.

Lemma refresh_builds_what_is_missing_witness :
  EvSynchroStart Scenario.cronjobs
    ∈ refreshCalls Cases.cronjobsFine Cases.wantsCronjobsRunning /\
  ~ EvSynchroStart Scenario.cronjobs
    ∈ refreshCalls Cases.cronjobsFine Scenario.wantsCronjobs.
Proof.
  split.
  - apply (proj2 (proj2 (proj2 (proj2 (refresh_builds_what_is_missing Cases.cronjobsFine
      Cases.wantsCronjobsRunning Scenario.cronjobs))))).
    split; [|reflexivity].
    exists (Scenario.planEntry Scenario.cronjobs true), (Scenario.synchroOf Scenario.cronjobs).
    split_and!; vm_compute; reflexivity.
  - intros H.
    apply (proj1 (proj2 (proj2 (proj2 (refresh_builds_what_is_missing Cases.cronjobsFine
      Scenario.wantsCronjobs Scenario.cronjobs))))) in H.
    destruct H as [_ H]. discriminate H.
Defined.

(** ** The conditions of a plan entry after the first loop *)

Lemma creationStatus_ext w s s' g config :
  frame s' = frame s ->
  storageResourceVersions s' !! g = storageResourceVersions s !! g ->
  creationStatus w s' g config = creationStatus w s g config.
Proof.
  intros F V. unfold creationStatus, watermarksFor. rewrite V.
  destruct (NewResourceStorage w _) as [st err].
  rewrite (synchroConfig_frame s s') by done.
  unfold frame in F. simplify_eq.
  repeat match goal with H : _ s' = _ s |- _ => rewrite H; clear H end. done.
Qed.

Lemma statusAt_emit e s gvr : statusAt (emit e s) gvr = statusAt s gvr.
Proof. done. Qed.

Lemma handlerStopCh_updateSyncConditions M g a b c s :
  handlerStopCh (updateSyncConditions M g a b c s) = handlerStopCh s.
Proof. by rewrite updateSyncConditions_eq. Qed.

Lemma createSynchro_statusAt_self w M s e gvr :
  storageResourceSynchros s !! e.1 = None ->
  statusAt (createSynchro w M s e) gvr =
  if decide (gvr ∈ fanout M e.1)
  then withStatus (creationStatus w s e.1 e.2).1.1 (creationStatus w s e.1 e.2).1.2
         (creationStatus w s e.1 e.2).2 <$> statusAt s gvr
  else statusAt s gvr.
Proof.
  intros Hnone.
  unfold creationStatus, watermarksFor, freshResourceVersions, createSynchro.
  rewrite Hnone. destruct (NewResourceStorage w _) as [st err].
  case_decide.
  { simpl. by rewrite statusAt_updateSyncConditions. }
  unfold ensureResourceVersions. simpl.
  destruct (storageResourceVersions s !! e.1) as [rvs|] eqn:Hv; simpl.
  - split_synchro s; simpl; [by rewrite statusAt_updateSyncConditions|].
    unfold startSynchro. rewrite handlerStopCh_updateSyncConditions. simpl handlerStopCh.
    destruct (handlerStopCh s) as [ch|]; [destruct (chan_closed ch)|];
      rewrite ?statusAt_emit, statusAt_updateSyncConditions; done.
  - split_synchro s; simpl; [by rewrite statusAt_updateSyncConditions|].
    unfold startSynchro. rewrite handlerStopCh_updateSyncConditions. simpl handlerStopCh.
    destruct (handlerStopCh s) as [ch|]; [destruct (chan_closed ch)|];
      rewrite ?statusAt_emit, statusAt_updateSyncConditions; done.
Qed.

Lemma refreshCreated_statusAt w s rs g config gvr :
  syncResources s = Some rs ->
  refreshPlan w s !! g = Some config ->
  storageResourceSynchros s !! g = None ->
  gvr ∈ fanout (refreshFanout w s) g ->
  statusAt (refreshCreated w s) gvr =
  withStatus (creationStatus w s g config).1.1 (creationStatus w s g config).1.2
    (creationStatus w s g config).2 <$> (refreshMerged w s).1 !! gvr.
Proof.
  intros Hrs Hp Hg Hin.
  set (M := refreshFanout w s) in *.
  assert (forall g', g' <> g -> gvr ∉ fanout M g') as Hdis.
  { intros g' Hne Hin'. apply Hne. eapply fanout_disjoint; eauto. }
  pose proof (NoDup_fst_map_to_list (refreshPlan w s)) as Hnd.
  pose proof Hp as Hsplit.
  apply elem_of_map_to_list, list_elem_of_split in Hsplit as (l1 & l2 & Hl).
  rewrite Hl in Hnd. rewrite fmap_app, fmap_cons in Hnd. simpl in Hnd.
  apply NoDup_app in Hnd as (_ & Hl1 & [Hl2 _]%NoDup_cons).
  assert (g ∉ l1.*1) as Hgl1 by (intros Hx; eapply Hl1; [exact Hx|by left]).
  set (sa := foldl (createSynchro w M) (refreshNegotiated w s) l1).
  destruct (refreshNegotiated_fields w s) as (HR & HV & _).
  assert (refreshCreated w s = foldl (createSynchro w M) (createSynchro w M sa (g, config)) l2)
    as ->.
  { unfold refreshCreated. fold M. by rewrite Hl, foldl_app. }
  assert (storageResourceSynchros sa !! g = None) as Hga.
  { unfold sa. rewrite foldl_createSynchro_registry_other by done. by rewrite HR. }
  assert (creationStatus w sa g config = creationStatus w s g config) as Hcs.
  { apply creationStatus_ext.
    - unfold sa. rewrite frame_foldl_createSynchro. apply frame_refreshNegotiated.
    - unfold sa. rewrite foldl_createSynchro_versions_other by done. by rewrite HV. }
  rewrite statusAt_foldl_createSynchro.
  2:{ intros e He. apply Hdis. intros Heq. apply Hl2. rewrite <- Heq.
      apply list_elem_of_fmap. eauto. }
  rewrite (createSynchro_statusAt_self w M sa (g, config) gvr Hga). simpl.
  rewrite decide_True by done. rewrite Hcs. f_equal.
  unfold sa. rewrite statusAt_foldl_createSynchro.
  - by rewrite (merged_statusAt w s rs).
  - intros e He. apply Hdis. intros Heq. apply Hgl1. rewrite <- Heq.
    apply list_elem_of_fmap. eauto.
Qed.

Lemma refresh_statusAt_planned w s rs g config gvr :
  syncResources s = Some rs ->
  refreshPlan w s !! g = Some config ->
  gvr ∈ fanout (refreshFanout w s) g ->
  statusAt (refreshSyncResources w s) gvr = statusAt (refreshCreated w s) gvr \/
  gvr ∈ (refreshMerged w s).2 /\ statusAt (refreshSyncResources w s) gvr = None.
Proof.
  intros Hrs Hp Hin.
  set (M := refreshFanout w s) in *.
  assert (forall g', refreshPlan w s !! g' = None -> gvr ∉ fanout M g') as Hdis'.
  { intros g' Hn Hin'. assert (g' = g) by (eapply fanout_disjoint; eauto). congruence. }
  assert (statusAt (refreshClosed w s).1 gvr = statusAt (refreshCreated w s) gvr) as H2.
  { unfold refreshClosed. rewrite statusAt_closeSynchros; [done|].
    intros g' [Hn _]%list_elem_of_filter. by apply Hdis'. }
  assert (statusAt (refreshCleaned w s).1.1 gvr = statusAt (refreshCreated w s) gvr) as H3.
  { unfold refreshCleaned. rewrite statusAt_cleanResources; [done|].
    intros g' _ Hn _. by apply Hdis'. }
  unfold refreshSyncResources.
  destruct (refresh_exit_cases w s rs Hrs) as [[_ ->]|[(_ & _ & ->)|(_ & _ & ->)]]; simpl.
  - by left.
  - by left.
  - rewrite statusAt_foldl_callDeleteVersion.
    case_decide as Hd; [right|by left].
    split; [|done]. apply elem_of_elements in Hd.
    by apply (cleanResources_deleted_subseteq w M (refreshPlan w s) _ _ _) in Hd.
Qed.

Lemma plannedSynchro_created w s g config syn :
  plannedSynchro w s g config = Some syn ->
  creationStatus w s g config = (ResourceSyncStatusUnknown, "", "").
Proof.
  unfold plannedSynchro, creationStatus.
  destruct (NewResourceStorage w _) as [st err].
  case_decide; [done|].
  destruct (NewResourceSynchro w _ _) as [syn' err'].
  by case_decide.
Qed.

(** ** A synchro that a refresh builds *)

(** The synchro built for a plan entry resumes from the watermarks of its
    storage GVR: once the resource storage is built, [NewResourceSynchro] is
    called once for the GVR, and the configuration it receives holds the
    [Resources] map of the watermark entry (the one the map had, or the
    fresh entry made for it), its [Events] map with the events
    lister-watcher exactly when the plan entry syncs events, the resource
    storage just built, and the sync resource, kind, convertor and page size
    of the plan entry and the sync configuration.  That watermark entry is
    the one the map holds under the GVR after the refresh. *)
Theorem new_synchro_resumes_from_watermarks (w : World) (s : ClusterSynchro)
    (g : GroupVersionResource) (config : ResourceSyncConfig) (st : ResourceStorage) :
  refreshPlan w s !! g = Some config ->
  storageResourceSynchros s !! g = None ->
  NewResourceStorage w (resourceStorageConfig config) = (st, nilError) ->
  let rvs := default {| Resources := Some ∅; Events := Some ∅ |}
               (storageResourceVersions s !! g) in
  storageResourceVersions (refreshSyncResources w s) !! g = Some rvs /\
  exists cfg,
    EvNewResourceSynchro g cfg ∈ refreshCalls w s /\
    (forall cfg', EvNewResourceSynchro g cfg' ∈ refreshCalls w s -> cfg' = cfg) /\
    cfgResourceVersions cfg = Resources rvs /\
    cfgEvent cfg =
      (if syncEvents config
       then Some {| evListerWatcher := eventsListerWatcher;
                    evResourceVersions := Events rvs |}
       else None) /\
    cfgResourceStorage cfg = st /\
    cfgGroupVersionResource cfg = syncResource config /\
    cfgKind cfg = kind config /\
    cfgListerWatcher cfg = ForResource NamespaceAll (syncResource config) /\
    cfgObjectConvertor cfg = convertor config /\
    cfgPageSizeForInformer cfg = PageSizeForResourceSync (syncConfig s) /\
    cfgMetricsStore cfg =
      match MetricsStoreBuilder (syncConfig s) with
      | Some GetMetricStore => GetMetricStore (name s) (syncResource config)
      | None => None
      end.
Proof.
  intros Hp Hr Hst rvs. split.
  - rewrite (refresh_versions_planned w s g config Hp).
    unfold plannedVersions, rvs, freshResourceVersions. rewrite Hr, Hst. simpl.
    by destruct (storageResourceVersions s !! g).
  - exists (synchroConfig s config (watermarksFor s g) st). split_and!; try done.
    + apply refresh_calls_first_loop; [by intros ?|by intros ?|].
      exists g, config. split_and!; try done. by apply creationCalls_storage.
    + intros cfg' Hin.
      apply refresh_calls_first_loop in Hin as (g' & config' & Hp' & Hr' & He);
        [|by intros ?|by intros ?].
      destruct (elem_of_creationCalls _ _ _ _ _ _ He)
        as [?|[(?&?&?&?&?)|[(st' & Hst' & ?)|(? & _ & [?|[?|[? _]]])]]];
        simplify_eq. rewrite Hst in Hst'. by simplify_eq.
Qed.

Lemma new_synchro_resumes_from_watermarks_witness :
  storageResourceVersions
    (refreshSyncResources Cases.resumeDeployments Cases.wantsDeployments)
    !! Scenario.deployments
  = Some {| Resources := Some ∅; Events := Some {[ "u1" := "10" ]} |} /\
  exists cfg,
    EvNewResourceSynchro Scenario.deployments cfg
      ∈ refreshCalls Cases.resumeDeployments Cases.wantsDeployments /\
    cfgEvent cfg = Some {| evListerWatcher := eventsListerWatcher;
                           evResourceVersions := Some {[ "u1" := "10" ]} |}.
Proof.
  destruct (new_synchro_resumes_from_watermarks Cases.resumeDeployments
              Cases.wantsDeployments Scenario.deployments
              (Scenario.planEntry Scenario.deployments true) "deployments"
              ltac:(vm_compute; reflexivity) ltac:(vm_compute; reflexivity)
              ltac:(vm_compute; reflexivity))
    as (Hv & cfg & Hin & _ & _ & Hev & _).
  split; [rewrite Hv; vm_compute; reflexivity|].
  exists cfg. split; [exact Hin|]. rewrite Hev. vm_compute. reflexivity.
Defined.

(** When both constructors succeed for a plan entry that has no synchro,
    the refresh makes these calls for it, one after the other: it builds
    the resource storage and the synchro, starts the synchro's [Run] under
    the wait group, stores the synchro, resets the condition of every sync
    GVR of the fan-out to Unknown with empty reason and message, and
    launches [Start] if the runner holds an open [handlerStopCh].  The
    synchro is in the registry after the refresh, and each of those
    conditions is Unknown with empty reason and message, unless it is a
    triple of the deleted set that the refresh has dropped. *)
Theorem built_synchro_is_run_stored_and_reset (w : World) (s : ClusterSynchro)
    (g : GroupVersionResource) (config : ResourceSyncConfig) (syn : Synchro) :
  refreshPlan w s !! g = Some config ->
  storageResourceSynchros s !! g = None ->
  plannedSynchro w s g config = Some syn ->
  storageResourceSynchros (refreshSyncResources w s) !! g = Some syn /\
  (exists before cfg after,
     refreshCalls w s =
       before ++
       [EvNewResourceStorage g (resourceStorageConfig config);
        EvNewResourceSynchro g cfg; EvSynchroRun g; EvStoreSynchro g] ++
       updateEvents ResourceSyncStatusUnknown "" ""
         (elements (fanout (refreshFanout w s) g)) ++
       (if handlerOpen s then [EvSynchroStart g] else []) ++ after) /\
  (forall gvr,
     gvr ∈ fanout (refreshFanout w s) g ->
     (exists c, statusAt (refreshSyncResources w s) gvr = Some c /\
                condStatus c = ResourceSyncStatusUnknown /\
                condReason c = "" /\ condMessage c = "") \/
     gvr ∈ (refreshMerged w s).2 /\ statusAt (refreshSyncResources w s) gvr = None).
Proof.
  intros Hp Hr Hs. split_and!.
  - by rewrite (refresh_registry_planned w s g config Hp), Hr.
  - destruct (refresh_calls_creation w s g config Hp Hr) as (b & a & ->).
    destruct (creationCalls_created w (refreshFanout w s) s g config syn Hs)
      as (st & _ & ->).
    exists b, (synchroConfig s config (watermarksFor s g) st), a.
    by rewrite <- !app_assoc.
  - intros gvr Hin.
    destruct (syncResources s) as [rs|] eqn:Hrs.
    2:{ unfold refreshPlan in Hp. by rewrite Hrs in Hp. }
    destruct (refresh_statusAt_planned w s rs g config gvr Hrs Hp Hin) as [->|?];
      [left|by right].
    rewrite (refreshCreated_statusAt w s rs g config gvr Hrs Hp Hr Hin).
    assert (creationStatus w s g config = (ResourceSyncStatusUnknown, "", "")) as ->.
    { apply plannedSynchro_created in Hs. done. }
    destruct (proj1 (elem_of_fanout _ _ _) Hin) as (c0 & -> & _). simpl.
    eexists. split; [reflexivity|]. done.
Qed.

Lemma built_synchro_is_run_stored_and_reset_witness :
  storageResourceSynchros
    (refreshSyncResources Cases.cronjobsFine Cases.wantsCronjobsRunning) !! Scenario.cronjobs
  = Some (Scenario.synchroOf Scenario.cronjobs) /\
  ((exists c,
      statusAt (refreshSyncResources Cases.cronjobsFine Cases.wantsCronjobsRunning)
        Scenario.cronjobs_v1beta1 = Some c /\
      condStatus c = ResourceSyncStatusUnknown /\ condReason c = "" /\ condMessage c = "") \/
   Scenario.cronjobs_v1beta1
     ∈ (refreshMerged Cases.cronjobsFine Cases.wantsCronjobsRunning).2 /\
   statusAt (refreshSyncResources Cases.cronjobsFine Cases.wantsCronjobsRunning)
     Scenario.cronjobs_v1beta1 = None).
Proof.
  destruct (built_synchro_is_run_stored_and_reset Cases.cronjobsFine
              Cases.wantsCronjobsRunning Scenario.cronjobs
              (Scenario.planEntry Scenario.cronjobs true)
              (Scenario.synchroOf Scenario.cronjobs)
              ltac:(vm_compute; reflexivity) ltac:(vm_compute; reflexivity)
              ltac:(vm_compute; reflexivity))
    as (Hreg & _ & Hst).
  split; [exact Hreg|]. apply Hst. vm_compute; reflexivity.
Defined.

(** ** A second refresh *)

Lemma refreshPlan_frame w s s' : frame s' = frame s -> refreshPlan w s' = refreshPlan w s.
Proof.
  unfold frame, refreshPlan. intros F. simplify_eq.
  repeat match goal with H : _ s' = _ s |- _ => rewrite H; clear H end. done.
Qed.

Lemma syncResources_frame s s' : frame s' = frame s -> syncResources s' = syncResources s.
Proof. unfold frame. intros F. by simplify_eq. Qed.

Lemma plannedSynchro_ext_watermarks w s s' g config :
  frame s' = frame s -> watermarksFor s' g = watermarksFor s g ->
  plannedSynchro w s' g config = plannedSynchro w s g config.
Proof.
  intros F V. unfold plannedSynchro. rewrite V.
  destruct (NewResourceStorage w _) as [st err].
  rewrite (synchroConfig_frame s s') by done.
  unfold frame in F. simplify_eq.
  repeat match goal with H : _ s' = _ s |- _ => rewrite H; clear H end. done.
Qed.

Lemma cleanResources_all_planned w M plan l deleted s :
  Forall (fun g => is_Some (plan !! g)) l ->
  cleanResources w M plan l deleted s = (s, deleted, Returned).
Proof.
  induction 1 as [|g l [c Hc] _ IH]; simpl; [done|]. by rewrite Hc.
Qed.

(** What a completed refresh leaves behind. *)
Lemma refresh_completed w s rs :
  syncResources s = Some rs ->
  (refreshSyncResources_exit w s).2 = Returned ->
  let s1 := refreshSyncResources w s in
  frame s1 = frame s /\
  (forall g, refreshPlan w s !! g = None ->
     storageResourceSynchros s1 !! g = None /\ storageResourceVersions s1 !! g = None) /\
  (forall g config, refreshPlan w s !! g = Some config ->
     storageResourceSynchros s1 !! g = None ->
     plannedSynchro w s1 g config = None /\
     plannedVersions w s1 g config = storageResourceVersions s1 !! g).
Proof.
  intros Hrs Hexit s1. split_and!.
  - apply frame_refreshSyncResources.
  - intros g Hp. split.
    + eapply refresh_registry_within_plan; [done| |done]. by rewrite Hexit.
    + by eapply refresh_versions_within_plan.
  - intros g config Hp Hr1. unfold s1 in *.
    rewrite (refresh_registry_planned w s g config Hp) in Hr1.
    destruct (storageResourceSynchros s !! g) as [syn|] eqn:Hr; [done|].
    pose proof (refresh_versions_planned w s g config Hp) as Hv1.
    assert (Hr1' : storageResourceSynchros (refreshSyncResources w s) !! g = None).
    { by rewrite (refresh_registry_planned w s g config Hp), Hr. }
    split.
    + rewrite <- Hr1. apply plannedSynchro_ext_watermarks; [apply frame_refreshSyncResources|].
      unfold watermarksFor. rewrite Hv1. unfold plannedVersions. rewrite Hr.
      destruct (storageResourceVersions s !! g); [done|]. 
      by case_decide.
    + unfold plannedVersions at 1. rewrite Hr1'.
      destruct (storageResourceVersions (refreshSyncResources w s) !! g) eqn:Hv; [done|].
      unfold plannedVersions in Hv1. rewrite Hr in Hv1.
      destruct (storageResourceVersions s !! g); [done|].
      by symmetry.
Qed.

(** A refresh of a synchro whose registry and watermarks lie within the
    plan closes and cleans nothing. *)
Lemma refresh_within_plan w s rs :
  syncResources s = Some rs ->
  (forall g, refreshPlan w s !! g = None ->
     storageResourceSynchros s !! g = None /\ storageResourceVersions s !! g = None) ->
  refreshClosed w s = (refreshCreated w s, Returned) /\
  refreshCleaned w s = (refreshCreated w s, (refreshMerged w s).2, Returned).
Proof.
  intros Hrs Hin.
  assert (Hclosed : refreshClosed w s = (refreshCreated w s, Returned)).
  { unfold refreshClosed.
    assert (filter (fun storageGVR => refreshPlan w s !! storageGVR = None)
              (map_to_list (storageResourceSynchros (refreshCreated w s))).*1 = []) as ->.
    { apply elem_of_nil_inv. intros g [Hp Hg]%list_elem_of_filter.
      apply list_elem_of_fmap in Hg as ([g' syn] & -> & Hg).
      apply elem_of_map_to_list in Hg. simpl in *.
      rewrite (proj1 (refreshCreated_unplanned w s g' Hp)) in Hg.
      destruct (Hin g' Hp). congruence. }
    done. }
  split; [done|].
  unfold refreshCleaned. rewrite Hclosed. simpl.
  apply cleanResources_all_planned. apply Forall_forall.
  intros g Hg. apply list_elem_of_fmap in Hg as ([g' x] & -> & Hg).
  apply elem_of_map_to_list in Hg. simpl in *.
  destruct (refreshPlan w s !! g') eqn:Hp; [eauto|].
  rewrite (proj2 (refreshCreated_unplanned w s g' Hp)) in Hg.
  destruct (Hin g' Hp). congruence.
Qed.

(** A refresh that ran to its end has settled the synchro: a second
    refresh in the same world also runs to its end, leaves the registry and
    the watermark map as they are, and neither starts, stores, closes nor
    removes a synchro nor cleans a resource.  The calls it makes are the
    negotiation, the constructor calls that failed before and fail again,
    and updates of the status. *)
Theorem completed_refresh_is_stable (w : World) (s : ClusterSynchro) :
  (refreshSyncResources_exit w s).2 = Returned ->
  let s1 := refreshSyncResources w s in
  (refreshSyncResources_exit w s1).2 = Returned /\
  storageResourceSynchros (refreshSyncResources w s1) = storageResourceSynchros s1 /\
  storageResourceVersions (refreshSyncResources w s1) = storageResourceVersions s1 /\
  Forall quietEvent (refreshCalls w s1).
Proof.
  intros Hexit s1.
  destruct (syncResources s) as [rs|] eqn:Hrs; last first.
  { assert (s1 = s) as -> by (unfold s1, refreshSyncResources; by rewrite refresh_nil).
    unfold refreshSyncResources. rewrite refreshCalls_nil, refresh_nil by done. done. }
  destruct (refresh_completed w s rs Hrs Hexit) as (F & Hwithin & Hfailed).
  fold s1 in F, Hwithin, Hfailed.
  assert (Hrs1 : syncResources s1 = Some rs) by (by rewrite (syncResources_frame s s1)).
  pose proof (refreshPlan_frame w s s1 F) as Hplan.
  rewrite <- Hplan in Hwithin, Hfailed.
  destruct (refresh_within_plan w s1 rs Hrs1 Hwithin) as [Hclosed Hcleaned].
  assert (Hfinal : refreshSyncResources_exit w s1 =
            (foldl callDeleteVersion (refreshCreated w s1)
               (elements (refreshMerged w s1).2), Returned)).
  { destruct (refresh_exit_cases w s1 rs Hrs1) as [[E _]|[(_ & E & _)|(_ & _ & E)]].
    - by rewrite Hclosed in E.
    - by rewrite Hcleaned in E.
    - by rewrite Hcleaned in E. }
  unfold refreshCalls, refreshSyncResources. rewrite Hfinal. simpl.
  rewrite foldl_callDeleteVersion. simpl. split_and!.
  - done.
  - apply map_eq. intros g. destruct (refreshPlan w s1 !! g) as [config|] eqn:Hp.
    + rewrite (refreshCreated_registry w s1 g config Hp).
      destruct (storageResourceSynchros s1 !! g) eqn:Hr; [done|].
      by destruct (Hfailed g config Hp Hr).
    + by rewrite (proj1 (refreshCreated_unplanned w s1 g Hp)).
  - apply map_eq. intros g. destruct (refreshPlan w s1 !! g) as [config|] eqn:Hp.
    + rewrite (refreshCreated_versions w s1 g config Hp).
      destruct (storageResourceSynchros s1 !! g) eqn:Hr.
      * unfold plannedVersions. rewrite Hr. by destruct (storageResourceVersions s1 !! g).
      * by destruct (Hfailed g config Hp Hr).
    + by rewrite (proj2 (refreshCreated_unplanned w s1 g Hp)).
  - rewrite (refreshCreated_trace w s1 rs Hrs1), <- app_assoc, drop_app_length.
    apply Forall_cons. split; [done|]. apply Forall_app. split.
    + apply Forall_forall. intros e He.
      apply elem_of_pendingCalls in He as (g & config & Hgc & Hr & He).
      apply elem_of_map_to_list in Hgc.
      destruct (Hfailed g config Hgc Hr) as [Hnone _].
      destruct (elem_of_creationCalls _ _ _ _ _ _ He)
        as [->|[(?&?&?&?&->)|[(? & _ & ->)|(? & ? & _)]]]; try done. congruence.
    + by apply Forall_fmap, Forall_forall.
Qed.

Lemma completed_refresh_is_stable_witness :
  storageResourceSynchros
    (refreshSyncResources (Scenario.podsOnly [Scenario.deployments] true)
       (refreshSyncResources (Scenario.podsOnly [Scenario.deployments] true) Scenario.synced))
  = storageResourceSynchros
      (refreshSyncResources (Scenario.podsOnly [Scenario.deployments] true) Scenario.synced) /\
  Forall quietEvent
    (refreshCalls (Scenario.podsOnly [Scenario.deployments] true)
       (refreshSyncResources (Scenario.podsOnly [Scenario.deployments] true) Scenario.synced)).
Proof.
  destruct (completed_refresh_is_stable (Scenario.podsOnly [Scenario.deployments] true)
              Scenario.synced ltac:(vm_compute; reflexivity)) as (_ & Hr & _ & Hq).
  split; [exact Hr|exact Hq].
Defined.

(** ** What a refresh leaves alone *)

(** A refresh does not publish: it sends nothing on the status channel and
    makes no call to the status updater, so the conditions it changes reach
    the updater only when another goroutine calls [updateStatus].  It also
    leaves the lifetime channels, the once, the two cluster conditions, the
    desired resources and the runner's [handlerStopCh] as they are. *)
Theorem refresh_does_not_publish (w : World) (s : ClusterSynchro) :
  let s' := refreshSyncResources w s in
  updateStatusCh s' = updateStatusCh s /\
  (forall cluster status, EvUpdateClusterStatus cluster status ∉ refreshCalls w s) /\
  closer s' = closer s /\ closed s' = closed s /\ closeOnce s' = closeOnce s /\
  runningCondition s' = runningCondition s /\ healthyCondition s' = healthyCondition s /\
  syncResources s' = syncResources s /\
  syncAllCustomResources s' = syncAllCustomResources s /\
  setSyncResourcesCh s' = setSyncResourcesCh s /\
  handlerStopCh s' = handlerStopCh s /\ name s' = name s.
Proof.
  intros s'. pose proof (frame_refreshSyncResources w s) as F. fold s' in F.
  unfold frame in F. simplify_eq. split_and!; try done.
  intros cluster status Hin.
  destruct (refresh_extends w s) as (evs & Ht & Hevs).
  unfold refreshCalls in Hin. rewrite Ht, drop_app_length in Hin.
  pose proof (proj1 (Forall_forall _ _) Hevs _ Hin) as He.
  destruct He as [[? ?]|[(g & _ & _ & He)|[(g & _ & He)|[(g & _ & He)|[? ?]]]]]; try done.
  - destruct He as [[? ?]|[[? ?]|[?|[?|[?|(? & ? & _ & [?|?])]]]]]; done.
  - destruct He as [?|[?|(? & _ & ?)]]; done.
  - destruct He as [?|(? & ? & _ & _ & ?)]; done.
Qed.

(** ** The wait group through a refresh *)

Lemma runsIn_app evs1 evs2 : runsIn (evs1 ++ evs2) = runsIn evs1 + runsIn evs2.
Proof. unfold runsIn. by rewrite filter_app, length_app. Qed.

Lemma runsIn_updateEvents a b c l : runsIn (updateEvents a b c l) = 0.
Proof.
  unfold runsIn, updateEvents. induction l as [|g l IH]; simpl; [done|].
  by rewrite filter_cons_False.
Qed.

Lemma runsIn_tail evs : Forall tailEvent evs -> runsIn evs = 0.
Proof.
  unfold runsIn. induction 1 as [|e evs He _ IH]; simpl; [done|].
  rewrite filter_cons_False; [done|]. by destruct e.
Qed.

Lemma waitGroup_updateSyncConditions M g a b c s :
  waitGroup (updateSyncConditions M g a b c s) = waitGroup s.
Proof. by rewrite updateSyncConditions_eq. Qed.

Lemma runsIn_cons e evs :
  runsIn (e :: evs) = (if isSynchroRun e then 1 else 0) + runsIn evs.
Proof.
  unfold runsIn. rewrite filter_cons. destruct (isSynchroRun e); by case_decide.
Qed.

Lemma runsIn_nil : runsIn [] = 0.
Proof. done. Qed.

Ltac count_runs :=
  simpl waitGroup; rewrite ?waitGroup_updateSyncConditions; simpl waitGroup;
  rewrite ?runsIn_cons, ?runsIn_app, ?runsIn_cons, ?runsIn_updateEvents, ?runsIn_nil;
  simpl; lia.

Lemma createSynchro_waitGroup w M s e :
  storageResourceSynchros s !! e.1 = None ->
  waitGroup (createSynchro w M s e) = waitGroup s + runsIn (creationCalls w M s e.1 e.2).
Proof.
  intros Hnone.
  unfold creationCalls, watermarksFor, freshResourceVersions, fanout, createSynchro.
  rewrite Hnone. destruct (NewResourceStorage w _) as [st err].
  case_decide; [count_runs|].
  unfold ensureResourceVersions. simpl.
  destruct (storageResourceVersions s !! e.1) as [rvs|] eqn:Hv; simpl.
  - split_synchro s; [count_runs|].
    unfold startSynchro. rewrite handlerStopCh_updateSyncConditions. simpl handlerStopCh.
    destruct (handlerStopCh s) as [ch|]; [destruct (chan_closed ch)|]; count_runs.
  - split_synchro s; [count_runs|].
    unfold startSynchro. rewrite handlerStopCh_updateSyncConditions. simpl handlerStopCh.
    destruct (handlerStopCh s) as [ch|]; [destruct (chan_closed ch)|]; count_runs.
Qed.

Lemma foldl_createSynchro_waitGroup w M l s :
  NoDup l.*1 ->
  waitGroup (foldl (createSynchro w M) s l) = waitGroup s + runsIn (pendingCalls w M s l).
Proof.
  revert s. induction l as [|e l IH]; intros s Hnd; simpl.
  { unfold pendingCalls. simpl. rewrite runsIn_nil. lia. }
  apply NoDup_cons in Hnd as [Hne Hnd]. rewrite IH by done.
  rewrite (pendingCalls_ext w M s (createSynchro w M s e) l).
  - unfold pendingCalls at 2. simpl. fold (pendingCalls w M s l).
    destruct (storageResourceSynchros s !! e.1) as [syn|] eqn:Hr.
    + erewrite createSynchro_registered by done. simpl. done.
    + rewrite createSynchro_waitGroup by done. rewrite runsIn_app. lia.
  - apply frame_createSynchro.
  - intros g Hg. assert (g <> e.1) by (intros ->; done).
    split; [by apply createSynchro_registry_other|by apply createSynchro_versions_other].
Qed.

Lemma waitGroup_closeSynchros w M l s :
  waitGroup (closeSynchros w M l s).1 = waitGroup s.
Proof.
  close_induction l s; try done;
    rewrite ?IH; simpl; rewrite ?waitGroup_updateSyncConditions; done.
Qed.

Lemma waitGroup_cleanResources w M plan l deleted s :
  waitGroup (cleanResources w M plan l deleted s).1.1 = waitGroup s.
Proof.
  clean_induction l deleted s; try done;
    rewrite ?IH; simpl; rewrite ?waitGroup_updateSyncConditions; done.
Qed.

(** The wait group counts every synchro's [Run] that a refresh starts, and
    a refresh never takes a count away: after the refresh the counter is
    the counter before plus the number of [Run] calls the refresh made, so
    [Shutdown] waits for each of them. *)
Theorem refresh_counts_every_Run (w : World) (s : ClusterSynchro) :
  waitGroup (refreshSyncResources w s)
  = waitGroup s + length (filter (fun e => isSynchroRun e = true) (refreshCalls w s)).
Proof.
  fold (runsIn (refreshCalls w s)).
  destruct (syncResources s) as [rs|] eqn:Hrs; last first.
  { rewrite refreshCalls_nil by done. unfold refreshSyncResources.
    rewrite refresh_nil by done. simpl. rewrite runsIn_nil. lia. }
  destruct (refresh_calls w s rs Hrs) as (rest & -> & Hrest).
  rewrite runsIn_cons, runsIn_app, (runsIn_tail rest Hrest). simpl.
  assert (Hcreated : waitGroup (refreshCreated w s)
            = waitGroup s
              + runsIn (pendingCalls w (refreshFanout w s) s (map_to_list (refreshPlan w s)))).
  { unfold refreshCreated.
    rewrite foldl_createSynchro_waitGroup by apply NoDup_fst_map_to_list.
    destruct (refreshNegotiated_fields w s) as (HR & HV & _).
    rewrite (pendingCalls_ext w _ s (refreshNegotiated w s));
      [|apply frame_refreshNegotiated|intros g _; by rewrite HR, HV].
    unfold refreshNegotiated. by rewrite Hrs. }
  assert (Hclosed : waitGroup (refreshClosed w s).1 = waitGroup (refreshCreated w s)).
  { unfold refreshClosed. apply waitGroup_closeSynchros. }
  assert (Hcleaned : waitGroup (refreshCleaned w s).1.1 = waitGroup (refreshCreated w s)).
  { unfold refreshCleaned. by rewrite waitGroup_cleanResources. }
  unfold refreshSyncResources.
  destruct (refresh_exit_cases w s rs Hrs) as [[_ ->]|[(_ & _ & ->)|(_ & _ & ->)]]; simpl;
    rewrite ?foldl_callDeleteVersion; simpl; lia.
Qed.

(** ** [genClusterStatus] *)

Lemma conditionsOf_mapConditions f statuses :
  conditionsOf (mapConditions f statuses)
  = map (fun p => (p.1, f p.1 p.2)) (conditionsOf statuses).
Proof.
  unfold conditionsOf, mapConditions.
  induction statuses as [|g gs IH]; simpl; [done|].
  rewrite map_app, <- IH. f_equal. clear IH.
  induction (grpResources g) as [|r rs IHr]; simpl; [done|].
  rewrite map_app, <- IHr. f_equal. clear IHr.
  induction (SyncConditions r) as [|c cs IHc]; simpl; [done|].
  by rewrite IHc.
Qed.

(** The status [genClusterStatus] builds holds the server version and the
    two cluster conditions, and lists the sync conditions of the group
    resource status in their order, under the same groups and resources,
    each rewritten on its own.  A condition whose storage GVR has a synchro
    reports what the synchro's [Status()] says; one whose storage GVR has
    none keeps the status, reason and message it has, gets Unknown,
    ResourceSynchroNotFound and a not-found message where they were empty,
    so that none of the three is empty, and is stamped with the current
    time.  The version and the storage GVR of a condition are never
    changed. *)
Theorem genClusterStatus_rewrites_each_condition (w : World) (s : ClusterSynchro) :
  let status := genClusterStatus w s in
  csVersion status = ServerVersion w /\
  Conditions status = [runningCondition s; healthyCondition s] /\
  (forall grs,
     groupResourceStatus s = Some grs ->
     conditionsOf (SyncResources status)
     = map (fun p => (p.1, genSyncCondition w s p.1 p.2))
           (conditionsOf (LoadGroupResourcesStatuses grs))) /\
  (forall gr c,
     let c' := genSyncCondition w s gr c in
     condVersion c' = condVersion c /\
     StorageGVR c' gr = StorageGVR c gr /\
     match storageResourceSynchros s !! StorageGVR c gr with
     | Some synchro =>
         condStatus c' = condStatus (synchroStatus synchro) /\
         condReason c' = condReason (synchroStatus synchro) /\
         condMessage c' = condMessage (synchroStatus synchro) /\
         condInitialListPhase c' = condInitialListPhase (synchroStatus synchro) /\
         condLastTransitionTime c' = condLastTransitionTime (synchroStatus synchro) /\
         condSyncVersion c' =
           (if decide (condVersion c = Version (synchroGroupVersionResource synchro))
            then condSyncVersion c
            else Version (synchroGroupVersionResource synchro))
     | None =>
         condStatus c' <> "" /\ condReason c' <> "" /\ condMessage c' <> "" /\
         (condStatus c <> "" -> condStatus c' = condStatus c) /\
         (condReason c <> "" -> condReason c' = condReason c) /\
         (condMessage c <> "" -> condMessage c' = condMessage c) /\
         condLastTransitionTime c' = Now w /\
         condSyncVersion c' = condSyncVersion c /\
         condSyncResource c' = condSyncResource c
     end).
Proof.
  intros status. unfold status, genClusterStatus. split_and!.
  - by destruct (groupResourceStatus s).
  - by destruct (groupResourceStatus s).
  - intros grs Hg. rewrite Hg. simpl. apply conditionsOf_mapConditions.
  - intros gr c. cbv zeta. unfold genSyncCondition, StorageGVR.
    destruct (storageResourceSynchros s !! condStorageGVR c) as [synchro|]; simpl.
    + split_and!; try done. by repeat case_decide.
    + split_and!; try done; repeat case_decide; try done; by intros ?.
Qed.

(** ** The last publication of [Shutdown] *)

Lemma drained_step l a b : drained (synchro a) -> step l a = Some b -> drained (synchro b).
Proof.
  unfold drained. destruct a as [s calls]. simpl. intros IH Hstep.
  destruct l;
    try (step_inv Hstep; simpl in *;
         (done || lia || solve [auto] || solve [intros Hc; destruct (IH Hc); congruence])).
  step_inv Hstep. refresh_frame_goal.
  repeat match goal with H : _ (refreshSyncResources _ _) = _ |- _ => rewrite H end.
  done.
Qed.

Lemma drained_reachable sys : reachable sys -> drained (synchro sys).
Proof.
  revert sys. apply reachable_invariant; [|intros l a b; apply drained_step].
  intros sys (d & n & config & sc & s & HN & ->). simpl. unfold drained.
  new_inv HN rvs s0.
  repeat match goal with H : _ (initWithResourceVersions _ _) = _ |- _ => rewrite H end.
  repeat match goal with H : _ s0 = _ |- _ => rewrite H end. done.
Qed.

Lemma publishedShutdown_mono now s s' evs :
  trace s' = trace s ++ evs -> publishedShutdown now s -> publishedShutdown now s'.
Proof.
  intros Ht (cluster & status & Hin & Hc). exists cluster, status. split; [|done].
  rewrite Ht. apply elem_of_app. by left.
Qed.

Lemma run_cons_inv l ls a b :
  run (l :: ls) a = Some b -> exists a', step l a = Some a' /\ run ls a' = Some b.
Proof. simpl. destruct (step l a) as [a'|]; [eauto|done]. Qed.

Lemma run_snoc l ls a b c :
  run ls a = Some b -> step l b = Some c -> run (ls ++ [l]) a = Some c.
Proof.
  revert a. induction ls as [|l0 ls IH]; intros a Hrun Hstep; simpl in *.
  - simplify_eq. by rewrite Hstep.
  - destruct (step l0 a); [|done]. by apply IH.
Qed.

Lemma head_genClusterStatus w s :
  head (Conditions (genClusterStatus w s)) = Some (runningCondition s).
Proof. unfold genClusterStatus. by destruct (groupResourceStatus s). Qed.

Lemma pastStore_keep now s s' c evs :
  trace s' = trace s ++ evs ->
  chan_len (updateStatusCh s) <= chan_len (updateStatusCh s') ->
  pastStore now s c -> pastStore now s' c.
Proof.
  unfold pastStore. intros Ht Hl. destruct (sdPC c); try done.
  all: intros [Hpend|Hpub]; [left; lia|right; by eapply publishedShutdown_mono].
Qed.

Ltac keep_pending Hpc :=
  try done;
  match goal with
  | |- pastStore _ _ _ =>
      eapply (pastStore_keep _ _ _ _ []); [| |exact Hpc];
      [simpl; by rewrite app_nil_r|simpl in *; lia]
  end.

Lemma flushing_step now i l a b :
  shutdownOK a -> statusChOK (synchro a) -> flushing now i a ->
  isRun l = false -> step l a = Some b -> flushing now i b.
Proof.
  intros (Hlc & Hcalls & Hone) [Hcap Hlen] (Hrc & c & Hi & Hown & Hupd & Hpc) Hl Hstep.
  destruct a as [s calls]. simpl in *.
  pose proof (proj1 (Forall_lookup _ _) Hcalls i c Hi) as Hc.
  destruct l; try discriminate.
  - (* SetResources *)
    step_inv Hstep; (split; [done|]); exists c; split_and!; keep_pending Hpc.
  - (* a resource mutation *)
    step_inv Hstep; (split; [done|]); exists c; split_and!; keep_pending Hpc.
  - (* a refresh *)
    step_inv Hstep.
    match goal with
    | |- context [refreshSyncResources ?w0 ?s0] =>
        pose proof (frame_refreshSyncResources w0 s0) as F;
        destruct (refresh_extends w0 s0) as (evs & Ht & _)
    end.
    unfold frame in F. simpl in F, Ht. simplify_eq. unfold flushing. simpl.
    split; [congruence|]. exists c. split_and!; try done.
    eapply pastStore_keep; [exact Ht| |exact Hpc].
    match goal with H : updateStatusCh _ = _ |- _ => rewrite H end. done.
  - (* updateStatus *)
    step_inv Hstep; (split; [done|]); exists c; split_and!; keep_pending Hpc.
  - (* the status goroutine *)
    unfold pastStore in Hpc.
    step_inv Hstep; (split; [done|]); exists c; split_and!; try done; unfold pastStore.
    all: destruct (sdPC c); try done.
    all: try (right; eexists _, _; split;
              [apply elem_of_app; right; apply list_elem_of_here
              |rewrite head_genClusterStatus; simpl; by f_equal]).
    all: (destruct Hpc as [Hpend|Hpub]; [simpl in *; lia|by right]).
  - (* a worker returns *)
    step_inv Hstep; (split; [done|]); exists c; split_and!; keep_pending Hpc.
  - (* a synchro makes progress *)
    step_inv Hstep; (split; [done|]); exists c; split_and!; keep_pending Hpc.
  - (* a new call of Shutdown *)
    step_inv Hstep. split; [done|]. exists c. split_and!; try done.
    by apply lookup_app_l_Some.
  - (* a step of a call of Shutdown *)
    unfold step in Hstep. simpl in Hstep.
    destruct (calls !! i0) as [c0|] eqn:Hi0; [|done].
    destruct (Shutdown now0 c0 s) as [[c' s']| |] eqn:Hsd; [|done..].
    simplify_eq. simpl.
    pose proof (proj1 (Forall_lookup _ _) Hcalls i0 c0 Hi0) as Hc0.
    destruct (decide (i0 = i)) as [->|Hne].
    + (* the call that runs the once function *)
      simplify_eq. unfold pastStore in Hpc.
      unfold Shutdown, updateStatus, chan_try_send, chan_close, chan_recv in Hsd.
      rewrite Hupd in Hsd.
      destruct (sdPC c) eqn:Hpc0; try done;
        repeat (first [case_match | case_decide]; simplify_eq); simpl in *;
        (split; [done|]); eexists;
        (split; [apply list_lookup_insert_eq; by eapply lookup_lt_Some|]);
        unfold at_pc, pastStore; simpl; split_and!; try done; try (left; lia);
        try (destruct Hpc; [by left|by right]).
    + (* another call *)
      assert (sdOwner c0 = false) as Hnown.
      { destruct (sdOwner c0) eqn:E; [|done]. destruct Hne. by eapply Hone. }
      assert (closeOnce s <> OnceFresh) as Hfresh.
      { unfold callOK in Hc. unfold pastStore in Hpc.
        destruct (sdPC c); try done; intros Hf; rewrite Hf in Hc;
          first [discriminate|by destruct Hc]. }
      unfold callOK in Hc0.
      unfold Shutdown, updateStatus, chan_try_send, chan_close, chan_recv in Hsd.
      destruct (sdPC c0) eqn:Hpc0; try (destruct Hc0; congruence);
        repeat (first [case_match | case_decide]; simplify_eq); simpl in *;
        (split; [done|]); exists c; (split; [simpl; by rewrite list_lookup_insert_ne|]);
        split_and!; keep_pending Hpc.
Qed.

(** [Shutdown(true)] does not return before its last status is out: from
    the moment the once function stores the terminal running condition, and
    provided [Run] is not called after that, a call of [Shutdown] returns
    only after the status goroutine has handed to the status updater a
    status whose running condition is this terminal condition. *)
Theorem Shutdown_publishes_the_terminal_condition (sysA sys : System) (i : nat)
    (now : metav1_Time) (c : ShutdownCall) (ls : list Label) :
  reachable sysA ->
  shutdowns sysA !! i = Some c -> sdPC c = AtStore -> sdUpdateStatus c = true ->
  Forall (fun l => isRun l = false) ls ->
  run (LShutdown i now :: ls) sysA = Some sys ->
  forall c', c' ∈ shutdowns sys -> returned c' -> publishedShutdown now (synchro sys).
Proof.
  intros Hr Hi Hpc Hupd Hno Hrun c' Hin Hret.
  apply run_cons_inv in Hrun as (sys0 & Hstep & Hrun).
  pose proof (shutdownOK_reachable sysA Hr) as HokA.
  assert (Hr0 : reachable sys0).
  { destruct Hr as (ls0 & sysI & Hinit & Hrun0). exists (ls0 ++ [LShutdown i now]), sysI.
    split; [done|]. by eapply run_snoc. }
  assert (Hfl : flushing now i sys0).
  { destruct HokA as (_ & Hcalls & _).
    pose proof (proj1 (Forall_lookup _ _) Hcalls i c Hi) as Hc.
    unfold callOK in Hc. rewrite Hpc in Hc. destruct Hc as [Hown _].
    destruct sysA as [s calls]. unfold step in Hstep. simpl in *. rewrite Hi in Hstep.
    unfold Shutdown in Hstep. rewrite Hpc in Hstep. simplify_eq.
    split; [done|]. simpl. eexists. split.
    - apply list_lookup_insert_eq. by eapply lookup_lt_Some.
    - unfold at_pc, pastStore. simpl. done. }
  assert (Hinv : shutdownOK sys /\ statusChOK (synchro sys) /\ drained (synchro sys) /\
                 flushing now i sys).
  { eapply (run_invariant (fun l => isRun l = false)
              (fun sys => shutdownOK sys /\ statusChOK (synchro sys) /\
                          drained (synchro sys) /\ flushing now i sys));
      [|exact Hno| |exact Hrun].
    - intros l a b Hl (H1 & H2 & H3 & H4) Hs. split_and!.
      + by eapply shutdownOK_step.
      + by eapply statusChOK_step.
      + by eapply drained_step.
      + by eapply flushing_step.
    - split_and!; [by apply shutdownOK_reachable|by apply statusChOK_reachable
                  |by apply drained_reachable|done]. }
  destruct Hinv as ((Hlc & Hcalls & _) & _ & Hdr & (_ & c1 & Hi1 & _ & _ & Hp1)).
  pose proof (proj1 (Forall_forall _ _) Hcalls c' Hin) as Hc'.
  unfold callOK in Hc'. unfold returned in Hret. rewrite Hret in Hc'.
  destruct Hc' as [Hdone Hclosed]. destruct (Hdr Hclosed) as [_ Hl0].
  pose proof (proj1 (Forall_lookup _ _) Hcalls i c1 Hi1) as Hc1.
  unfold callOK in Hc1. unfold pastStore in Hp1.
  destruct (sdPC c1); try done.
  - destruct Hc1. congruence.
  - destruct Hc1. congruence.
  - destruct Hp1; [lia|done].
  - destruct Hp1; [lia|done].
Qed.

Lemma Shutdown_publishes_the_terminal_condition_witness :
  publishedShutdown 3 (synchro Scenario.afterShutdown).
Proof.
  eapply (Shutdown_publishes_the_terminal_condition Cases.storing Scenario.afterShutdown
            0 3 _ Cases.afterStore).
  - exists Cases.beforeStore, Scenario.system0. split; [|vm_compute; reflexivity].
    exists Scenario.deps, "c1", Scenario.restConfig, Scenario.clusterSyncConfig, Scenario.c1.
    split; [vm_compute; reflexivity|reflexivity].
  - vm_compute; reflexivity.
  - reflexivity.
  - reflexivity.
  - unfold Cases.afterStore. repeat constructor.
  - vm_compute; reflexivity.
  - apply list_elem_of_here.
  - reflexivity.
Defined.

(** ** [GetMetricsWriterList] *)

Lemma foldl_writers (f : GroupVersionResource -> Synchro -> option MetricsWriter) l acc :
  default []
    (foldl (fun writers (kv : GroupVersionResource * Synchro) =>
              match f kv.1 kv.2 with
              | Some writer => Some (default [] writers ++ [writer])
              | None => writers
              end) acc l)
  = default [] acc ++ omap (fun kv => f kv.1 kv.2) l /\
  (foldl (fun writers (kv : GroupVersionResource * Synchro) =>
              match f kv.1 kv.2 with
              | Some writer => Some (default [] writers ++ [writer])
              | None => writers
              end) acc l = None <->
   acc = None /\ omap (fun kv => f kv.1 kv.2) l = []).
Proof.
  revert acc. induction l as [|kv l IH]; intros acc; simpl.
  - rewrite app_nil_r. split; [done|]. split; [by intros ->|by intros [-> _]].
  - destruct (IH (match f kv.1 kv.2 with
                  | Some writer => Some (default [] acc ++ [writer])
                  | None => acc
                  end)) as [-> ->].
    destruct (f kv.1 kv.2) as [wr|]; simpl.
    + split; [by rewrite <- app_assoc|]. split; [by intros [? _]|by intros [_ ?]].
    + done.
Qed.

Lemma length_omap_le {A B} (f : A -> option B) (l : list A) :
  length (omap f l) <= length l.
Proof.
  unfold omap. induction l as [|x l IH]; simpl; [done|].
  destruct (f x); simpl; lia.
Qed.

(** [GetMetricsWriterList] returns the writers of the registered synchros
    that have one, and nothing else: a writer is in the list exactly when
    some synchro of the registry returns it, the list is no longer than the
    registry, and the result is the nil slice exactly when no registered
    synchro has a writer (in particular when the registry is empty). *)
Theorem GetMetricsWriterList_collects_writers
    (f : GroupVersionResource -> Synchro -> option MetricsWriter) (s : ClusterSynchro) :
  (forall writer,
     writer ∈ default [] (GetMetricsWriterList f s) <->
     exists g synchro, storageResourceSynchros s !! g = Some synchro /\
                       f g synchro = Some writer) /\
  length (default [] (GetMetricsWriterList f s)) <= size (storageResourceSynchros s) /\
  (GetMetricsWriterList f s = None <->
   forall g synchro, storageResourceSynchros s !! g = Some synchro -> f g synchro = None).
Proof.
  unfold GetMetricsWriterList.
  destruct (foldl_writers f (map_to_list (storageResourceSynchros s)) None) as [-> ->].
  simpl. split_and!.
  - intros writer. rewrite list_elem_of_omap. split.
    + intros ([g syn] & Hin%elem_of_map_to_list & Hf). eauto.
    + intros (g & syn & Hg & Hf). exists (g, syn). split; [|done].
      by apply elem_of_map_to_list.
  - rewrite <- length_map_to_list. apply length_omap_le.
  - split.
    + intros [_ Hnil] g syn Hg. destruct (f g syn) as [wr|] eqn:Hf; [|done].
      assert (wr ∈ omap (fun kv : GroupVersionResource * Synchro => f kv.1 kv.2)
                     (map_to_list (storageResourceSynchros s))) as Hin.
      { apply list_elem_of_omap. exists (g, syn). split; [|done].
        by apply elem_of_map_to_list. }
      rewrite Hnil in Hin. by apply elem_of_nil in Hin.
    + intros Hall. split; [done|]. apply elem_of_nil_inv. intros wr.
      rewrite list_elem_of_omap. intros ([g syn] & Hin%elem_of_map_to_list & Hf).
      simpl in Hf. rewrite (Hall g syn Hin) in Hf. done.
Qed.

(** ** The report of the goroutine that [Shutdown] spawns *)

Lemma listed_insert (m : gmap string (list string)) k l :
  listed (<[k := l]> m) + length (default [] (m !! k)) = listed m + length l.
Proof.
  unfold listed.
  assert (Hcomm : forall (m' : gmap string (list string)) (j1 j2 : string)
            (z1 z2 : list string) (y : nat),
            j1 <> j2 -> m' !! j1 = Some z1 -> m' !! j2 = Some z2 ->
            length z1 + (length z2 + y) = length z2 + (length z1 + y)).
  { intros. lia. }
  destruct (m !! k) as [old|] eqn:Hk; simpl.
  - rewrite <- (insert_delete_eq m k l).
    rewrite (map_fold_insert_L (fun _ l n => length l + n) 0 k l (delete k m));
      [|apply Hcomm|apply lookup_delete_eq].
    rewrite (map_fold_delete_L (fun _ l n => length l + n) 0 k old m);
      [|apply Hcomm|done].
    lia.
  - rewrite (map_fold_insert_L (fun _ l n => length l + n) 0 k l m);
      [|apply Hcomm|done].
    lia.
Qed.

Lemma foldl_reportSynchro l acc :
  (foldl reportSynchro acc l).1 + listed (foldl reportSynchro acc l).2
    = acc.1 + listed acc.2 + length l /\
  (foldl reportSynchro acc l).1
    = acc.1 + length (filter (fun kv => stopped kv.2) l) /\
  forall sr msg,
    msg ∈ default [] ((foldl reportSynchro acc l).2 !! sr) <->
    msg ∈ default [] (acc.2 !! sr) \/
    exists g synchro,
      (g, synchro) ∈ l /\ ~ stopped synchro /\
      sr = condStatus (synchroStatus synchro) +:+ "," +:+
           condReason (synchroStatus synchro) +:+ "," +:+ synchroStage synchro /\
      msg = Group g +:+ "/" +:+ Version g +:+ "/" +:+ Resource g.
Proof.
  revert acc. induction l as [|[g syn] l IH]; intros [count statuses].
  { simpl. split_and!; [lia|lia|]. intros sr msg. split; [by left|].
    intros [?|(? & ? & ?%elem_of_nil & _)]; done. }
  change (foldl reportSynchro (count, statuses) ((g, syn) :: l))
    with (foldl reportSynchro (reportSynchro (count, statuses) (g, syn)) l).
  destruct (IH (reportSynchro (count, statuses) (g, syn))) as (IH1 & IH2 & IH3).
  rewrite IH1, IH2. clear IH1 IH2.
  assert (Hrep : reportSynchro (count, statuses) (g, syn) =
            if decide (stopped syn) then (S count, statuses)
            else (count,
                  <[condStatus (synchroStatus syn) +:+ "," +:+
                    condReason (synchroStatus syn) +:+ "," +:+ synchroStage syn :=
                    default [] (statuses !! (condStatus (synchroStatus syn) +:+ "," +:+
                      condReason (synchroStatus syn) +:+ "," +:+ synchroStage syn)) ++
                    [Group g +:+ "/" +:+ Version g +:+ "/" +:+ Resource g]]> statuses)).
  { unfold reportSynchro, stopped. simpl. by case_decide. }
  rewrite Hrep in *. clear Hrep. rewrite filter_cons. simpl snd.
  destruct (decide (stopped syn)) as [Hs|Hs]; simpl.
  - split_and!; [lia|lia|]. intros sr msg. rewrite IH3. simpl.
    split.
    + intros [?|(g' & syn' & Hin & ?)]; [by left|]. right. exists g', syn'.
      split; [by right|done].
    + intros [?|(g' & syn' & [Heq|Hin]%elem_of_cons & Hns & ?)]; [by left| |].
      * simplify_eq. done.
      * right. eauto.
  - pose proof (listed_insert statuses
      (condStatus (synchroStatus syn) +:+ "," +:+ condReason (synchroStatus syn) +:+ "," +:+
       synchroStage syn)
      (default [] (statuses !! (condStatus (synchroStatus syn) +:+ "," +:+
         condReason (synchroStatus syn) +:+ "," +:+ synchroStage syn)) ++
       [Group g +:+ "/" +:+ Version g +:+ "/" +:+ Resource g])) as Hli.
    rewrite length_app in Hli. simpl in Hli.
    split_and!; [lia|lia|]. intros sr msg. rewrite IH3. simpl.
    destruct (decide (sr = condStatus (synchroStatus syn) +:+ "," +:+
                condReason (synchroStatus syn) +:+ "," +:+ synchroStage syn)) as [->|Hne].
    + rewrite lookup_insert_eq. simpl. rewrite elem_of_app, list_elem_of_singleton. split.
      * intros [[? | ->]|(g' & syn' & Hin & ?)]; [by left| |].
        -- right. exists g, syn. split_and!; try done. by left.
        -- right. exists g', syn'. split; [by right|done].
      * intros [?|(g' & syn' & [Heq|Hin]%elem_of_cons & Hns & Hk & ->)]; [by left; left| |].
        -- simplify_eq. left. by right.
        -- right. eauto 6.
    + rewrite lookup_insert_ne by done. split.
      * intros [?|(g' & syn' & Hin & ?)]; [by left|]. right. exists g', syn'.
        split; [by right|done].
      * intros [?|(g' & syn' & [Heq|Hin]%elem_of_cons & Hns & Hk & ->)]; [by left| |].
        -- simplify_eq.
        -- right. eauto 6.
Qed.

(** The report that the goroutine spawned by [Shutdown] logs while the
    shutdown is blocked accounts for every registered synchro once: the
    synchros counted as shut down (status Stop, empty reason) and those
    listed as blocking add up to the size of the registry, and a registered
    synchro that has not stopped is listed, as group/version/resource, under
    the key made of its status, reason and stage, and nowhere else. *)
Theorem shutdown_report_accounts_for_every_synchro (s : ClusterSynchro) :
  (shutdownBlockReport s).1 + listed (shutdownBlockReport s).2
    = size (storageResourceSynchros s) /\
  (shutdownBlockReport s).1
    = length (filter (fun kv => stopped kv.2) (map_to_list (storageResourceSynchros s))) /\
  forall sr msg,
    msg ∈ default [] ((shutdownBlockReport s).2 !! sr) <->
    exists g synchro,
      storageResourceSynchros s !! g = Some synchro /\ ~ stopped synchro /\
      sr = condStatus (synchroStatus synchro) +:+ "," +:+
           condReason (synchroStatus synchro) +:+ "," +:+ synchroStage synchro /\
      msg = Group g +:+ "/" +:+ Version g +:+ "/" +:+ Resource g.
Proof.
  unfold shutdownBlockReport.
  destruct (foldl_reportSynchro (map_to_list (storageResourceSynchros s)) (0, ∅))
    as (H1 & H2 & H3).
  split_and!.
  - rewrite H1. simpl. unfold listed. rewrite map_fold_empty, length_map_to_list. lia.
  - rewrite H2. simpl. lia.
  - intros sr msg. rewrite H3. simpl. rewrite lookup_empty. simpl. split.
    + intros [?%elem_of_nil|(g & syn & Hin%elem_of_map_to_list & ?)]; [done|]. eauto.
    + intros (g & syn & Hin & ?). right. exists g, syn. split; [|done].
      by apply elem_of_map_to_list.
Qed.

(** ** [startRunner] and [stopRunner] *)

Lemma closedAt_app chans ch a :
  a < length chans -> closedAt (chans ++ [ch]) a = closedAt chans a.
Proof. intros Ha. unfold closedAt. by rewrite lookup_app_l. Qed.

Lemma closedAt_fresh chans : closedAt (chans ++ [make_chan 0]) (length chans) = false.
Proof.
  unfold closedAt. rewrite lookup_app_r by lia. by rewrite Nat.sub_diag.
Qed.

Lemma closedAt_insert chans a b ch :
  closedAt (<[a := ch]> chans) b =
  if decide (a = b /\ a < length chans) then chan_closed ch else closedAt chans b.
Proof.
  unfold closedAt. case_decide as H.
  - destruct H as [-> H]. by rewrite list_lookup_insert_eq.
  - destruct (decide (a = b)) as [->|Hne].
    + rewrite list_insert_ge; [done|]. apply Nat.nlt_ge. intros ?. by apply H.
    + by rewrite list_lookup_insert_ne.
Qed.

Lemma closeAt_open chans a :
  a < length chans -> closedAt chans a = false ->
  exists ch, chans !! a = Some ch /\
    closeAt chans a =
      Next (<[a := {| chan_cap := chan_cap ch; chan_len := chan_len ch;
                      chan_closed := true |}]> chans).
Proof.
  intros Ha Hc. unfold closedAt, closeAt, chan_close in *.
  destruct (lookup_lt_is_Some_2 chans a Ha) as [ch Hch]. rewrite Hch in *.
  rewrite Hc. eauto.
Qed.

Lemma closedAt_mono_app chans ch a :
  closedAt chans a = true -> closedAt (chans ++ [ch]) a = true.
Proof.
  intros Hc. destruct (decide (a < length chans)).
  - by rewrite closedAt_app.
  - unfold closedAt in Hc. by rewrite lookup_ge_None_2 in Hc by lia.
Qed.

Lemma startRunner_reset_spec r :
  switchOK r ->
  switchOK (startRunner_reset r) /\ sameGoroutines r (startRunner_reset r) /\
  closedAt (chans (startRunner_reset r)) (stopRunnerCh (startRunner_reset r)) = false /\
  startRunnerCh (startRunner_reset r) = startRunnerCh r /\
  closedAt (chans (startRunner_reset r)) (startRunnerCh r)
    = closedAt (chans r) (startRunnerCh r) /\
  (closedAt (chans r) (stopRunnerCh r) = false -> startRunner_reset r = r).
Proof.
  intros (Hstart & Hstop & Hne). unfold startRunner_reset, switchOK, sameGoroutines.
  destruct (closedAt (chans r) (stopRunnerCh r)) eqn:Hs; simpl.
  - rewrite length_app, closedAt_fresh, closedAt_app by done. simpl.
    split_and!; try done; try lia. intros a. apply closedAt_mono_app.
  - split_and!; done.
Qed.

Lemma stopRunner_reset_spec r :
  switchOK r ->
  switchOK (stopRunner_reset r) /\ sameGoroutines r (stopRunner_reset r) /\
  closedAt (chans (stopRunner_reset r)) (startRunnerCh (stopRunner_reset r)) = false /\
  stopRunnerCh (stopRunner_reset r) = stopRunnerCh r /\
  closedAt (chans (stopRunner_reset r)) (stopRunnerCh r)
    = closedAt (chans r) (stopRunnerCh r) /\
  (closedAt (chans r) (startRunnerCh r) = false -> stopRunner_reset r = r).
Proof.
  intros (Hstart & Hstop & Hne). unfold stopRunner_reset, switchOK, sameGoroutines.
  destruct (closedAt (chans r) (startRunnerCh r)) eqn:Hs; simpl.
  - rewrite length_app, closedAt_fresh, closedAt_app by done. simpl.
    split_and!; try done; try lia. intros a. apply closedAt_mono_app.
  - split_and!; done.
Qed.

Lemma startRunner_close_spec r :
  switchOK r ->
  exists r',
    startRunner_close r = Next r' /\ switchOK r' /\ sameGoroutines r r' /\
    startRunnerCh r' = startRunnerCh r /\ stopRunnerCh r' = stopRunnerCh r /\
    closedAt (chans r') (startRunnerCh r) = true /\
    closedAt (chans r') (stopRunnerCh r) = closedAt (chans r) (stopRunnerCh r) /\
    (closedAt (chans r) (startRunnerCh r) = true -> r' = r).
Proof.
  intros (Hstart & Hstop & Hne). unfold startRunner_close, switchOK, sameGoroutines.
  destruct (closedAt (chans r) (startRunnerCh r)) eqn:Ha.
  - exists r. split_and!; done.
  - destruct (closeAt_open (chans r) (startRunnerCh r)) as (ch & Hch & ->); [done..|].
    eexists. split; [reflexivity|]. simpl.
    rewrite length_insert, !closedAt_insert.
    rewrite decide_True by done. rewrite decide_False by (intros [? _]; lia).
    split_and!; try done.
    intros a Hc. rewrite closedAt_insert. by case_decide.
Qed.

Lemma stopRunner_close_spec r :
  switchOK r ->
  exists r',
    stopRunner_close r = Next r' /\ switchOK r' /\ sameGoroutines r r' /\
    startRunnerCh r' = startRunnerCh r /\ stopRunnerCh r' = stopRunnerCh r /\
    closedAt (chans r') (stopRunnerCh r) = true /\
    closedAt (chans r') (startRunnerCh r) = closedAt (chans r) (startRunnerCh r) /\
    (closedAt (chans r) (stopRunnerCh r) = true -> r' = r).
Proof.
  intros (Hstart & Hstop & Hne). unfold stopRunner_close, switchOK, sameGoroutines.
  destruct (closedAt (chans r) (stopRunnerCh r)) eqn:Ha.
  - exists r. split_and!; done.
  - destruct (closeAt_open (chans r) (stopRunnerCh r)) as (ch & Hch & ->); [done..|].
    eexists. split; [reflexivity|]. simpl.
    rewrite length_insert, !closedAt_insert.
    rewrite decide_True by done. rewrite decide_False by (intros [? _]; lia).
    split_and!; try done.
    intros a Hc. rewrite closedAt_insert. by case_decide.
Qed.

Lemma sameGoroutines_trans r1 r2 r3 :
  sameGoroutines r1 r2 -> sameGoroutines r2 r3 -> sameGoroutines r1 r3.
Proof.
  unfold sameGoroutines. intros (?&?&?&?&?&Hm1) (?&?&?&?&?&Hm2).
  split_and!; try congruence. intros a Ha. by apply Hm2, Hm1.
Qed.

(** [startRunner] never panics and leaves the start channel closed and the
    stop channel open, whatever the two channels were; [stopRunner] leaves
    the stop channel closed and the start channel open.  So a second call
    of the same method changes nothing, and of two calls it is the last that
    counts.  Neither touches another field, and neither opens a channel
    again: a closed channel is replaced by a new one, so a goroutine parked
    on the old one still sees it closed. *)
Theorem startRunner_and_stopRunner_switch (r : RunnerSystem) :
  switchOK r ->
  (exists r',
     startRunner r = Next r' /\ switchOK r' /\ sameGoroutines r r' /\
     closedAt (chans r') (startRunnerCh r') = true /\
     closedAt (chans r') (stopRunnerCh r') = false /\
     startRunner r' = Next r') /\
  (exists r',
     stopRunner r = Next r' /\ switchOK r' /\ sameGoroutines r r' /\
     closedAt (chans r') (stopRunnerCh r') = true /\
     closedAt (chans r') (startRunnerCh r') = false /\
     stopRunner r' = Next r').
Proof.
  intros Hok. split.
  - destruct (startRunner_reset_spec r Hok) as (Hok1 & Hs1 & Hstop1 & Hst1 & _ & _).
    destruct (startRunner_close_spec _ Hok1) as (r' & Hr' & Hok' & Hs' & E1 & E2 & Hc1 & Hc2 & _).
    exists r'. unfold startRunner. rewrite Hr'. split_and!; try done.
    + by eapply sameGoroutines_trans.
    + by rewrite E1.
    + by rewrite E2, Hc2.
    + destruct (startRunner_reset_spec r' Hok') as (_ & _ & _ & _ & _ & Hid).
      rewrite Hid by (by rewrite E2, Hc2).
      destruct (startRunner_close_spec r' Hok') as (r'' & -> & _ & _ & _ & _ & _ & _ & Hid').
      rewrite Hid'; [done|]. by rewrite E1.
  - destruct (stopRunner_reset_spec r Hok) as (Hok1 & Hs1 & Hstart1 & Hst1 & _ & _).
    destruct (stopRunner_close_spec _ Hok1) as (r' & Hr' & Hok' & Hs' & E1 & E2 & Hc1 & Hc2 & _).
    exists r'. unfold stopRunner. rewrite Hr'. split_and!; try done.
    + by eapply sameGoroutines_trans.
    + by rewrite E2.
    + by rewrite E1, Hc2.
    + destruct (stopRunner_reset_spec r' Hok') as (_ & _ & _ & _ & _ & Hid).
      rewrite Hid by (by rewrite E1, Hc2).
      destruct (stopRunner_close_spec r' Hok') as (r'' & -> & _ & _ & _ & _ & _ & _ & Hid').
      rewrite Hid'; [done|]. by rewrite E2.
Qed.

Lemma startRunner_and_stopRunner_switch_witness :
  exists r',
    startRunner Cases.runner0 = Next r' /\
    closedAt (chans r') (startRunnerCh r') = true /\
    closedAt (chans r') (stopRunnerCh r') = false.
Proof.
  destruct (proj1 (startRunner_and_stopRunner_switch Cases.runner0
                     ltac:(unfold switchOK; simpl; lia)))
    as (r' & H1 & _ & _ & H2 & H3 & _).
  exists r'. split_and!; done.
Defined.

(** ** The runner *)

Lemma host_frame l a b :
  step l a = Some b ->
  handlerStopCh (synchro b) = handlerStopCh (synchro a) /\
  (chan_closed (closer (synchro a)) = true -> chan_closed (closer (synchro b)) = true).
Proof.
  destruct a as [s calls]. intros Hstep.
  destruct l; try (step_inv Hstep; simpl in *; split; (done || congruence)).
  step_inv Hstep. refresh_frame_goal.
  repeat match goal with H : _ (refreshSyncResources _ _) = _ |- _ => rewrite H end.
  done.
Qed.

Lemma live_insert (ws : list WatcherPC) i w w' :
  ws !! i = Some w ->
  length (filter (fun w => w <> WDone) (<[i := w']> ws))
    + (if decide (w <> WDone) then 1 else 0)
  = length (filter (fun w => w <> WDone) ws) + (if decide (w' <> WDone) then 1 else 0).
Proof.
  revert i. induction ws as [|x ws IH]; intros [|i] Hi; simpl in *; try done.
  - simplify_eq. rewrite !filter_cons. repeat case_decide; simpl; lia.
  - specialize (IH i Hi). rewrite !filter_cons. repeat case_decide; simpl in *; lia.
Qed.

Lemma live_none (ws : list WatcherPC) i w :
  length (filter (fun w => w <> WDone) ws) = 0 -> ws !! i = Some w -> w = WDone.
Proof.
  intros Hl Hi. destruct (decide (w = WDone)) as [|Hne]; [done|].
  assert (w ∈ filter (fun w => w <> WDone) ws) as Hin.
  { apply list_elem_of_filter. split; [done|]. by eapply list_elem_of_lookup_2. }
  destruct (filter _ ws); [by apply elem_of_nil in Hin|done].
Qed.

Lemma live_app (ws : list WatcherPC) w :
  length (filter (fun w => w <> WDone) (ws ++ [w]))
  = length (filter (fun w => w <> WDone) ws) + (if decide (w <> WDone) then 1 else 0).
Proof. rewrite filter_app, length_app, filter_cons. case_decide; simpl; lia. Qed.

Lemma handlerStopCh_starts l s :
  handlerStopCh (foldl (fun s (kv : GroupVersionResource * Synchro) =>
                          emit (EvSynchroStart kv.1) s) s l) = handlerStopCh s /\
  closer (foldl (fun s (kv : GroupVersionResource * Synchro) =>
                   emit (EvSynchroStart kv.1) s) s l) = closer s.
Proof. revert s. induction l as [|kv l IH]; intros s; simpl; [done|]. by rewrite !(proj1 (IH _)), !(proj2 (IH _)). Qed.

Lemma select2_false first ready1 ready2 :
  select2 first ready1 ready2 = Some false -> ready2 = true.
Proof. by destruct first, ready1, ready2. Qed.

Lemma runnerOK_env l r sys' :
  runnerOK r -> step l (base r) = Some sys' ->
  runnerOK (set_base sys' r) /\
  (runnerPC r = RNotStarted -> runnerOK (set_runnerPC RTop (set_base sys' r))).
Proof.
  intros (Hsw & Hret & Hpc & Hds) Hstep.
  destruct (host_frame l (base r) sys' Hstep) as [Hh Hc].
  unfold runnerOK, liveWatchers. simpl. rewrite Hh. split.
  - split_and!; try done. by intros ?; apply Hc, Hret.
  - intros Hns. rewrite Hns in Hpc. destruct Hpc as [Hnil Hws].
    rewrite Hws, Hnil in *. split_and!; done.
Qed.

Lemma runnerOK_same r r' :
  runnerOK r -> switchOK r' -> base r' = base r -> runnerPC r' = runnerPC r ->
  watchers r' = watchers r -> discoveryStarts r' = discoveryStarts r -> runnerOK r'.
Proof.
  intros (Hsw & Hret & Hpc & Hds) Hsw' Hb Hp Hw Hd.
  unfold runnerOK, liveWatchers in *. rewrite Hb, Hp, Hw, Hd. done.
Qed.

Lemma runnerOK_step l r r' : runnerOK r -> rstep l r = Next r' -> runnerOK r'.
Proof.
  intros Hok Hstep. destruct l; simpl in Hstep.
  - (* the other goroutines of the synchro *)
    destruct (step l (base r)) as [sys'|] eqn:Hs; [|done].
    destruct (runnerOK_env l r sys' Hok Hs) as [H1 H2].
    destruct (isRun l); [|by simplify_eq].
    destruct (runnerPC r) eqn:Hp; simplify_eq. by apply H2.
  - (* startRunner, first half *)
    destruct (switchPC r); simplify_eq.
    destruct (startRunner_reset_spec r (proj1 Hok)) as (Hsw & (?&?&?&?&?&_) & _).
    by eapply runnerOK_same.
  - (* stopRunner, first half *)
    destruct (switchPC r); simplify_eq.
    destruct (stopRunner_reset_spec r (proj1 Hok)) as (Hsw & (?&?&?&?&?&_) & _).
    by eapply runnerOK_same.
  - (* the second half *)
    destruct (switchPC r); [done| |].
    + destruct (startRunner_close_spec r (proj1 Hok))
        as (r1 & Hr1 & Hsw & (?&?&?&?&?&_) & ? & ? & _).
      rewrite Hr1 in Hstep. simplify_eq. eapply runnerOK_same; [exact Hok|..]; try done.
    + destruct (stopRunner_close_spec r (proj1 Hok))
        as (r1 & Hr1 & Hsw & (?&?&?&?&?&_) & ? & ? & _).
      rewrite Hr1 in Hstep. simplify_eq. eapply runnerOK_same; [exact Hok|..]; try done.
  - (* the runner *)
    destruct Hok as (Hsw & Hret & Hpc & Hds).
    unfold runner in Hstep. unfold runnerOK, liveWatchers in *.
    destruct (runnerPC r) eqn:Hp; try done.
    + simplify_eq. simpl. split_and!; try done; by destruct Hpc.
    + destruct (select2 first _ _) as [[|]|] eqn:Hsel; simplify_eq; simpl.
      * split_and!; try done; by destruct Hpc.
      * apply select2_false in Hsel. split_and!; try done; by destruct Hpc.
    + destruct (select2 first _ _) as [[|]|] eqn:Hsel; simplify_eq; simpl.
      * split_and!; try done; by destruct Hpc.
      * apply select2_false in Hsel. split_and!; try done; by destruct Hpc.
      * split_and!; try done; by destruct Hpc.
    + simplify_eq. unfold beginRound. simpl.
      match goal with
      | |- context [foldl ?f ?s0 ?l0] =>
          destruct (handlerStopCh_starts l0 s0) as [Hh Hc]
      end.
      rewrite Hh, Hc. simpl. rewrite live_app, length_app. simpl.
      destruct Hpc as [Hl _].
      split_and!; try done.
      * eexists. split; [reflexivity|]. simpl. lia.
      * lia.
    + destruct Hpc as (ch & Hch & Hl). rewrite Hch in Hstep.
      destruct (chan_closed ch) eqn:Hcl; simplify_eq. simpl.
      split_and!; try done. intros ch' ?. by simplify_eq.
  - (* a goroutine spawned by the runner *)
    destruct Hok as (Hsw & Hret & Hpc & Hds).
    unfold watcher in Hstep. unfold runnerOK, liveWatchers in *.
    destruct (watchers r !! i) as [w|] eqn:Hi; [|done].
    destruct w; try done.
    + simplify_eq. simpl.
      pose proof (live_insert (watchers r) i WStart (WWait (stopRunnerCh r)) Hi) as Hli.
      rewrite !decide_True in Hli by done.
      rewrite length_insert.
      assert (length (filter (fun w => w <> WDone)
                        (<[i:=WWait (stopRunnerCh r)]> (watchers r)))
              = length (filter (fun w => w <> WDone) (watchers r))) as -> by lia.
      split_and!; try done.
      destruct (runnerPC r); try done. destruct Hpc as [_ Hws]. by rewrite Hws in Hi.
    + destruct (_ || _); simplify_eq. simpl.
      pose proof (live_insert (watchers r) i (WWait a) WClose Hi) as Hli.
      rewrite !decide_True in Hli by done.
      rewrite length_insert.
      assert (length (filter (fun w => w <> WDone) (<[i:=WClose]> (watchers r)))
              = length (filter (fun w => w <> WDone) (watchers r))) as -> by lia.
      split_and!; try done.
      destruct (runnerPC r); try done. destruct Hpc as [_ Hws]. by rewrite Hws in Hi.
    + pose proof (live_insert (watchers r) i WClose WDone Hi) as Hli.
      rewrite decide_True in Hli by done. rewrite decide_False in Hli by (by intros ?).
      destruct (runnerPC r) eqn:Hp;
        try (destruct Hpc as [Hl0 _]; by pose proof (live_none _ _ _ Hl0 Hi)).
      * destruct Hpc as [_ Hws]. by rewrite Hws in Hi.
      * destruct Hpc as (ch & Hch & Hl). rewrite Hch in Hstep.
        unfold chan_close in Hstep.
        destruct (chan_closed ch) eqn:Hcl; [done|]. simplify_eq. simpl.
        rewrite Hp, length_insert. split_and!; try done.
        eexists. split; [reflexivity|]. simpl. lia.
Qed.

Lemma runnerOK_no_panic l r : runnerOK r -> rstep l r <> Panic.
Proof.
  intros Hok. destruct l; simpl.
  - destruct (step l (base r)); [|done]. destruct (isRun l); [|done].
    by destruct (runnerPC r).
  - by destruct (switchPC r).
  - by destruct (switchPC r).
  - destruct (switchPC r); [done| |].
    + destruct (startRunner_close_spec r (proj1 Hok)) as (r1 & -> & _). done.
    + destruct (stopRunner_close_spec r (proj1 Hok)) as (r1 & -> & _). done.
  - unfold runner. destruct (runnerPC r); try done.
    + by destruct (select2 first _ _) as [[|]|].
    + by destruct (select2 first _ _) as [[|]|].
    + destruct (handlerStopCh _) as [ch|]; [|done]. by destruct (chan_closed ch).
  - destruct Hok as (Hsw & Hret & Hpc & Hds).
    unfold watcher. unfold liveWatchers in *.
    destruct (watchers r !! i) as [w|] eqn:Hi; [|done].
    destruct w; try done.
    + by destruct (_ || _).
    + destruct (runnerPC r) eqn:Hp;
        try (destruct Hpc as [Hl0 _]; by pose proof (live_none _ _ _ Hl0 Hi)).
      * destruct Hpc as [_ Hws]. by rewrite Hws in Hi.
      * destruct Hpc as (ch & -> & Hl). unfold chan_close.
        destruct (chan_closed ch) eqn:Hcl; [|done].
        by pose proof (live_none _ _ _ Hl Hi).
Qed.

Lemma New_handlerStopCh d n config sc s e :
  New d n config sc = (Some s, e) -> handlerStopCh s = None.
Proof.
  unfold New. intros H.
  repeat (case_decide; [by inversion H|]).
  destruct (GetResourceVersions d n) as [rvs err].
  repeat (case_decide; [by inversion H|]).
  inversion H as [[Hs He]].
  match goal with
  | |- handlerStopCh (initWithResourceVersions ?r ?s0) = _ =>
      pose proof (frame_versions_init r s0) as F
  end.
  unfold frame_versions, frame in F. by simplify_eq.
Qed.

Lemma runnerOK_initial r : rinitial r -> runnerOK r.
Proof.
  intros ((d & n & config & sc & s & HNew & Hb) & Hch & Hstart & Hstop & Hpc & Hws & Hsw & Hds).
  unfold runnerOK, switchOK, liveWatchers.
  rewrite Hch, Hstart, Hstop, Hpc, Hws, Hds, Hb. simpl.
  split_and!; try done; try lia. by eapply New_handlerStopCh.
Qed.

Lemma runnerOK_run ls r r' : runnerOK r -> rrun ls r = Some r' -> runnerOK r'.
Proof.
  revert r. induction ls as [|l ls IH]; intros r Hok Hrun; simpl in Hrun.
  - by simplify_eq.
  - destruct (rstep l r) as [r1| |] eqn:Hstep; try done.
    eapply IH; [|done]. by eapply runnerOK_step.
Qed.

Lemma runnerOK_reachable r : rreachable r -> runnerOK r.
Proof.
  intros (ls & r0 & Hinit & Hrun).
  eapply runnerOK_run; [|done]. by apply runnerOK_initial.
Qed.

Lemma live_some (ws : list WatcherPC) :
  length (filter (fun w => w <> WDone) ws) <> 0 ->
  exists i w, ws !! i = Some w /\ w <> WDone.
Proof.
  induction ws as [|w ws IH]; [done|].
  rewrite filter_cons. case_decide as Hw.
  - intros _. by exists 0, w.
  - intros Hl. destruct (IH Hl) as (i & w' & Hi & Hw'). by exists (S i), w'.
Qed.

(** Prefixing a run of the runner and of its goroutines with one of their
    steps. *)
Lemma returns_after l r r1 :
  ofRunner l -> rstep l r = Next r1 ->
  (exists ls r', Forall ofRunner ls /\ rrun ls r1 = Some r' /\ runnerPC r' = RReturned) ->
  exists ls r', Forall ofRunner ls /\ rrun ls r = Some r' /\ runnerPC r' = RReturned.
Proof.
  intros Hl Hstep (ls & r' & Hls & Hrun & Hpc).
  exists (l :: ls), r'. split_and!; [by constructor| |done].
  simpl. by rewrite Hstep.
Qed.

Lemma returns_from_top r :
  chan_closed (closer (synchro (base r))) = true -> runnerPC r = RTop ->
  exists ls r', Forall ofRunner ls /\ rrun ls r = Some r' /\ runnerPC r' = RReturned.
Proof.
  intros Hc Hpc. exists [RRunner false; RRunner false]. eexists.
  split_and!; [by repeat constructor| |].
  - simpl. unfold runner. rewrite Hpc. simpl. rewrite Hc.
    destruct (closedAt (chans r) (startRunnerCh r)); reflexivity.
  - by destruct (closedAt (chans r) (startRunnerCh r)).
Qed.

Lemma returns_from_closed_round r ch :
  chan_closed (closer (synchro (base r))) = true -> runnerPC r = RAwaitHandler ->
  handlerStopCh (synchro (base r)) = Some ch -> chan_closed ch = true ->
  exists ls r', Forall ofRunner ls /\ rrun ls r = Some r' /\ runnerPC r' = RReturned.
Proof.
  intros Hc Hpc Hh Hcl.
  eapply (returns_after (RRunner false)); [done| |].
  - simpl. unfold runner. by rewrite Hpc, Hh, Hcl.
  - by apply returns_from_top.
Qed.

(** A goroutine spawned by the runner closes [handlerStopCh] once the closer
    is closed, and the runner returns after it. *)
Lemma returns_from_open_round r ch i w :
  chan_closed (closer (synchro (base r))) = true -> runnerPC r = RAwaitHandler ->
  handlerStopCh (synchro (base r)) = Some ch -> chan_closed ch = false ->
  watchers r !! i = Some w -> w <> WDone ->
  exists ls r', Forall ofRunner ls /\ rrun ls r = Some r' /\ runnerPC r' = RReturned.
Proof.
  intros Hc Hpc Hh Hcl Hi Hw.
  assert (Hclose : forall r, chan_closed (closer (synchro (base r))) = true ->
            runnerPC r = RAwaitHandler ->
            handlerStopCh (synchro (base r)) = Some ch ->
            watchers r !! i = Some WClose ->
            exists ls r', Forall ofRunner ls /\ rrun ls r = Some r' /\
                          runnerPC r' = RReturned).
  { clear r Hc Hpc Hh Hi. intros r Hc Hpc Hh Hi.
    eapply (returns_after (RWatcher i)); [done| |].
    - simpl. unfold watcher. rewrite Hi, Hh. unfold chan_close. rewrite Hcl. reflexivity.
    - eapply returns_from_closed_round; simpl; try done. }
  assert (Hwait : forall r a, chan_closed (closer (synchro (base r))) = true ->
            runnerPC r = RAwaitHandler ->
            handlerStopCh (synchro (base r)) = Some ch ->
            watchers r !! i = Some (WWait a) ->
            exists ls r', Forall ofRunner ls /\ rrun ls r = Some r' /\
                          runnerPC r' = RReturned).
  { clear r Hc Hpc Hh Hi. intros r a Hc Hpc Hh Hi.
    eapply (returns_after (RWatcher i)); [done| |].
    - simpl. unfold watcher. rewrite Hi, Hc. reflexivity.
    - apply Hclose; simpl; try done.
      apply list_lookup_insert_eq. by eapply lookup_lt_Some. }
  destruct w; [|by eauto|by eauto|done].
  eapply (returns_after (RWatcher i)); [done| |].
  - simpl. unfold watcher. rewrite Hi. reflexivity.
  - eapply Hwait; simpl; try done.
    apply list_lookup_insert_eq. by eapply lookup_lt_Some.
Qed.

Lemma returns_from_begin r :
  chan_closed (closer (synchro (base r))) = true -> runnerPC r = RBegin ->
  exists ls r', Forall ofRunner ls /\ rrun ls r = Some r' /\ runnerPC r' = RReturned.
Proof.
  intros Hc Hpc.
  eapply (returns_after (RRunner false)); [done| |].
  - simpl. unfold runner. rewrite Hpc. reflexivity.
  - unfold beginRound.
    eapply (returns_from_open_round _ (make_chan 0) (length (watchers r)) WStart);
      simpl; try done.
    + match goal with
      | |- context [foldl ?f ?s0 ?l0] => by rewrite (proj2 (handlerStopCh_starts l0 s0))
      end.
    + match goal with
      | |- context [foldl ?f ?s0 ?l0] => by rewrite (proj1 (handlerStopCh_starts l0 s0))
      end.
    + by rewrite lookup_app_r, Nat.sub_diag.
Qed.

(** ** The runner *)

(** In every system a run leads to, no step panics: [close(s.handlerStopCh)]
    and the closes of [startRunner] and [stopRunner] never hit a nil or a
    closed channel. The runner has returned only if the closer is closed. At
    most one of the goroutines spawned in the locked block has not finished,
    and while [handlerStopCh] is open the runner is parked at
    [<-s.handlerStopCh] with exactly one such goroutine left, so a round
    begins only after the previous one was stopped. The discovery manager was
    started once per round. *)
Theorem runner_rounds_do_not_overlap (r : RunnerSystem) :
  rreachable r ->
  (forall l, rstep l r <> Panic) /\
  (runnerPC r = RReturned -> chan_closed (closer (synchro (base r))) = true) /\
  length (liveWatchers r) <= 1 /\
  (forall ch, handlerStopCh (synchro (base r)) = Some ch -> chan_closed ch = false ->
     runnerPC r = RAwaitHandler /\ length (liveWatchers r) = 1) /\
  discoveryStarts r = length (watchers r).
Proof.
  intros Hr. pose proof (runnerOK_reachable r Hr) as Hok.
  split; [intros l; by apply runnerOK_no_panic|].
  destruct Hok as (_ & Hret & Hpc & Hds).
  split_and!; try done.
  - destruct (runnerPC r); try (destruct Hpc as [-> _]; lia).
    + destruct Hpc as [_ Hws]. unfold liveWatchers. rewrite Hws. simpl. lia.
    + destruct Hpc as (ch & _ & ->). destruct (chan_closed ch); lia.
  - intros ch Hch Hopen.
    destruct (runnerPC r);
      try (destruct Hpc as [_ Hcl]; specialize (Hcl ch Hch); congruence).
    + destruct Hpc as [Hnil _]. congruence.
    + destruct Hpc as (ch' & Hch' & Hl). split; [done|].
      rewrite Hch in Hch'. simplify_eq. by rewrite Hopen in Hl.
Qed.

Lemma runner_rounds_do_not_overlap_witness :
  (forall l, rstep l Cases.parkedInRound <> Panic) /\
  (runnerPC Cases.parkedInRound = RReturned ->
   chan_closed (closer (synchro (base Cases.parkedInRound))) = true) /\
  length (liveWatchers Cases.parkedInRound) <= 1 /\
  (forall ch, handlerStopCh (synchro (base Cases.parkedInRound)) = Some ch ->
     chan_closed ch = false ->
     runnerPC Cases.parkedInRound = RAwaitHandler /\
     length (liveWatchers Cases.parkedInRound) = 1) /\
  discoveryStarts Cases.parkedInRound = length (watchers Cases.parkedInRound).
Proof.
  apply (runner_rounds_do_not_overlap Cases.parkedInRound).
  exists Cases.roundThenShutdown, Cases.runner0. split; [|vm_compute; reflexivity].
  split_and!; try reflexivity.
  exists Scenario.deps, "c1", Scenario.restConfig, Scenario.clusterSyncConfig, Scenario.c1.
  split; [vm_compute; reflexivity|reflexivity].
Defined.

(** Once the closer is closed the second [select] of the runner never falls
    through to its default branch, so no later pass begins a round; and from
    wherever the started runner stands, steps of the runner and of the
    goroutines it spawned alone lead it to return: it waits for no other
    goroutine. *)
Theorem runner_returns_after_close (r : RunnerSystem) :
  rreachable r ->
  chan_closed (closer (synchro (base r))) = true ->
  runnerPC r <> RNotStarted ->
  (runnerPC r = RCheckStop ->
   forall first r1, rstep (RRunner first) r = Next r1 -> runnerPC r1 <> RBegin) /\
  exists ls r', Forall ofRunner ls /\ rrun ls r = Some r' /\ runnerPC r' = RReturned.
Proof.
  intros Hr Hc Hns. split.
  - intros Hpc first r1. simpl. unfold runner. rewrite Hpc, Hc.
    destruct first, (closedAt (chans r) (stopRunnerCh r)); simpl;
      intros; by simplify_eq.
  - pose proof (runnerOK_reachable r Hr) as (_ & _ & Hpc & _).
    destruct (runnerPC r) eqn:Hp; [done| | | | | |].
    + by apply returns_from_top.
    + exists [RRunner false]. eexists. split_and!; [by repeat constructor| |].
      * simpl. unfold runner. rewrite Hp, Hc.
        destruct (closedAt (chans r) a); reflexivity.
      * by destruct (closedAt (chans r) a).
    + exists [RRunner false]. eexists. split_and!; [by repeat constructor| |].
      * simpl. unfold runner. rewrite Hp, Hc.
        destruct (closedAt (chans r) (stopRunnerCh r)); reflexivity.
      * by destruct (closedAt (chans r) (stopRunnerCh r)).
    + by apply returns_from_begin.
    + destruct Hpc as (ch & Hch & Hl).
      destruct (chan_closed ch) eqn:Hcl.
      * by eapply returns_from_closed_round.
      * destruct (live_some (watchers r)) as (i & w & Hi & Hw).
        { unfold liveWatchers in Hl. lia. }
        by eapply returns_from_open_round.
    + exists [], r. by split_and!.
Qed.

Lemma runner_returns_after_close_witness :
  chan_closed (closer (synchro (base Cases.parkedInRound))) = true /\
  runnerPC Cases.parkedInRound = RAwaitHandler /\
  exists ls r', Forall ofRunner ls /\ rrun ls Cases.parkedInRound = Some r' /\
                runnerPC r' = RReturned.
Proof.
  split; [reflexivity|]. split; [reflexivity|].
  apply (runner_returns_after_close Cases.parkedInRound).
  - exists Cases.roundThenShutdown, Cases.runner0. split; [|vm_compute; reflexivity].
    split_and!; try reflexivity.
    exists Scenario.deps, "c1", Scenario.restConfig, Scenario.clusterSyncConfig, Scenario.c1.
    split; [vm_compute; reflexivity|reflexivity].
  - reflexivity.
  - discriminate.
Defined.
